(** * Statistical bias adjustment: CDFt, QuantileDeltaMapping and ISIMIP

    A shallow embedding of [debias/_cdft.py], [debias/_quantile_delta_mapping.py]
    and [debias/_isimip.py].

    Conventions.
    - A NumPy array is a [list]; a boolean mask is a [list bool]; an index array
      is a [list nat].
    - The series handled by CDFt and QuantileDeltaMapping are idealised as exact
      rationals ([Qc], canonical fractions, so that [=] is Leibniz equality).
      ISIMIP tests its data for NaN and infinities (step 2) and uses infinite
      thresholds as sentinels, so its series are [float]s: a rational or one of
      the three special values.
    - A Python exception is a value of [exn]; code that may raise returns a
      [result].  Code that also draws from NumPy's process-global random state
      or logs a warning runs in the monad [M], which threads a [World].
    - The package [utils] and the SciPy routines are not part of the sources
      modelled here.  They are the operations of the classes [Utils], [Scipy],
      [NumpyRandom] and [IsimipKernels]; [SpecUtils] gives the instance of
      [Utils] that the written specification describes. *)

From Stdlib Require Import String.
From Stdlib Require Import List ZArith QArith Qcanon Qround Bool Lia Arith Permutation FinFun Sorted.
Import ListNotations.

Set Implicit Arguments.

(** ** Python values: exceptions, results, the world *)

Module Py.

Inductive exn : Type :=
| ValueError (msg : string)
| IndexError (msg : string)
| ZeroDivisionError (msg : string)
| OverflowError (msg : string)
| TypeError (msg : string).

Inductive result (A : Type) : Type :=
| OK (a : A)
| Raise (e : exn).

Arguments OK {A} a.
Arguments Raise {A} e.

Definition rbind {A B : Type} (r : result A) (k : A -> result B) : result B :=
  match r with
  | OK a => k a
  | Raise e => Raise e
  end.

(** The state a call can touch: NumPy's global random state and the log. *)
Record World (G : Type) : Type := mkWorld { rng : G; warnings : list string }.

Definition M (G A : Type) : Type := World G -> result A * World G.

Definition ret {G A : Type} (a : A) : M G A := fun w => (OK a, w).

Definition raise {G A : Type} (e : exn) : M G A := fun w => (Raise e, w).

Definition bind {G A B : Type} (m : M G A) (k : A -> M G B) : M G B :=
  fun w => match m w with
           | (OK a, w') => k a w'
           | (Raise e, w') => (Raise e, w')
           end.

Definition lift {G A : Type} (r : result A) : M G A := fun w => (r, w).

(** [logging.warning(msg)] *)
Definition warning {G : Type} (msg : string) : M G unit :=
  fun w => (OK tt, mkWorld (rng w) (msg :: warnings w)).

(** [for w in ws: acc = body(w, acc)]; an exception leaves the loop. *)
Fixpoint for_in {G W A : Type} (ws : list W) (body : W -> A -> M G A) (acc : A) : M G A :=
  match ws with
  | [] => ret acc
  | w :: ws' => bind (body w acc) (for_in ws' body)
  end.

End Py.

Import Py.

Declare Scope py_scope.
Delimit Scope py_scope with py.
Notation "x <- c1 ;; c2" := (bind c1 (fun x => c2))
  (at level 61, c1 at next level, right associativity) : py_scope.
Notation "' pat <- c1 ;; c2" := (bind c1 (fun x => match x with pat => c2 end))
  (at level 61, pat pattern, c1 at next level, right associativity) : py_scope.
Notation "x <~ c1 ;; c2" := (rbind c1 (fun x => c2))
  (at level 61, c1 at next level, right associativity) : py_scope.
Notation "' pat <~ c1 ;; c2" := (rbind c1 (fun x => match x with pat => c2 end))
  (at level 61, pat pattern, c1 at next level, right associativity) : py_scope.
Open Scope py_scope.
Open Scope string_scope.

(** ** Numbers *)

Module Num.

Definition Qcleb (x y : Qc) : bool := Qle_bool x y.
Definition Qcltb (x y : Qc) : bool := negb (Qle_bool y x).
Definition Qceqb (x y : Qc) : bool := Qeq_bool x y.

(** Literals. *)
Definition zc (z : Z) : Qc := Q2Qc (inject_Z z).
Definition qc (a : Z) (b : positive) : Qc := Q2Qc (a # b).
Definition nc (n : nat) : Qc := zc (Z.of_nat n).

Definition Qcmin (x y : Qc) : Qc := if Qcleb x y then x else y.
Definition Qcmax (x y : Qc) : Qc := if Qcleb x y then y else x.

Definition sum (l : list Qc) : Qc := fold_left Qcplus l 0%Qc.

(** [np.mean(x)]; the mean of an empty array (NaN in NumPy) is left at 0. *)
Definition mean (l : list Qc) : Qc := (sum l / nc (length l))%Qc.

(** Python's [round(x)]: to the nearest integer, ties to the even one. *)
Definition round_half_even (x : Qc) : Z :=
  let f := Qfloor x in
  let d := (x - zc f)%Qc in
  if Qcltb d (qc 1 2) then f
  else if Qcltb (qc 1 2) d then (f + 1)%Z
  else if Z.even f then f else (f + 1)%Z.

(** IEEE doubles with their finite part idealised as rationals. *)
Inductive float : Type :=
| Fin (q : Qc)
| PInf
| NInf
| NaN.

Definition isnan (x : float) : bool := match x with NaN => true | _ => false end.
Definition isinf (x : float) : bool := match x with PInf | NInf => true | _ => false end.

(** [x <= y], [x < y], [x == y]: false as soon as one side is NaN. *)
Definition fleb (x y : float) : bool :=
  match x, y with
  | NaN, _ | _, NaN => false
  | NInf, _ => true
  | _, PInf => true
  | Fin a, Fin b => Qcleb a b
  | _, _ => false
  end.

Definition fltb (x y : float) : bool :=
  match x, y with
  | NaN, _ | _, NaN => false
  | NInf, NInf => false
  | PInf, PInf => false
  | NInf, _ => true
  | _, PInf => true
  | Fin a, Fin b => Qcltb a b
  | _, _ => false
  end.

Definition feqb (x y : float) : bool :=
  match x, y with
  | Fin a, Fin b => Qceqb a b
  | PInf, PInf | NInf, NInf => true
  | _, _ => false
  end.

Definition fopp (x : float) : float :=
  match x with
  | Fin a => Fin (- a)%Qc
  | PInf => NInf
  | NInf => PInf
  | NaN => NaN
  end.

Definition fadd (x y : float) : float :=
  match x, y with
  | NaN, _ | _, NaN => NaN
  | Fin a, Fin b => Fin (a + b)%Qc
  | PInf, NInf | NInf, PInf => NaN
  | PInf, _ | _, PInf => PInf
  | NInf, _ | _, NInf => NInf
  end.

Definition fsub (x y : float) : float := fadd x (fopp y).

Definition fsign (a : Qc) : comparison := (a ?= 0)%Qc.

Definition fmul (x y : float) : float :=
  match x, y with
  | NaN, _ | _, NaN => NaN
  | Fin a, Fin b => Fin (a * b)%Qc
  | Fin a, PInf | PInf, Fin a =>
      match fsign a with Gt => PInf | Lt => NInf | Eq => NaN end
  | Fin a, NInf | NInf, Fin a =>
      match fsign a with Gt => NInf | Lt => PInf | Eq => NaN end
  | PInf, PInf | NInf, NInf => PInf
  | PInf, NInf | NInf, PInf => NaN
  end.

(** NumPy division: a finite value over zero is an infinity, 0/0 is NaN. *)
Definition fdiv (x y : float) : float :=
  match x, y with
  | NaN, _ | _, NaN => NaN
  | Fin a, Fin b =>
      match fsign b with
      | Eq => match fsign a with Gt => PInf | Lt => NInf | Eq => NaN end
      | _ => Fin (a / b)%Qc
      end
  | Fin _, PInf | Fin _, NInf => Fin 0%Qc
  | PInf, Fin b => match fsign b with Lt => NInf | _ => PInf end
  | NInf, Fin b => match fsign b with Lt => PInf | _ => NInf end
  | _, _ => NaN
  end.

(** The order [np.sort] and [np.argsort] use: NaN last. *)
Definition fsortleb (x y : float) : bool :=
  match x, y with
  | _, NaN => true
  | NaN, _ => false
  | _, _ => fleb x y
  end.

Definition fsum (l : list float) : float := fold_left fadd l (Fin 0%Qc).

(** [x.mean()] on a float array: 0/0 is NaN. *)
Definition fmean (l : list float) : float := fdiv (fsum l) (Fin (nc (length l))).

(** [round(x)] on a float: NaN and the infinities raise. *)
Definition py_round (x : float) : result Z :=
  match x with
  | Fin q => OK (round_half_even q)
  | NaN => Raise (ValueError "cannot convert float NaN to integer")
  | _ => Raise (OverflowError "cannot convert float infinity to integer")
  end.

(** [np.isclose(a, b)] with the default tolerances rtol = 1e-05 and atol = 1e-08. *)
Definition Qcabs' (x : Qc) : Qc := if Qcleb 0%Qc x then x else (- x)%Qc.

Definition isclose (a b : float) : bool :=
  match a, b with
  | Fin x, Fin y =>
      Qcleb (Qcabs' (x - y)%Qc) (qc 1 100000000 + qc 1 100000 * Qcabs' y)%Qc
  | PInf, PInf | NInf, NInf => true
  | _, _ => false
  end.

End Num.

Import Num.

(** ** NumPy arrays as lists *)

Module Np.

Section Arrays.
Variable A : Type.

(** [mask.sum()] *)
Definition count_true (mask : list bool) : nat := length (filter (fun b => b) mask).

(** [np.where(mask)[0]]: the positions at which the mask holds. *)
Fixpoint where_true (i : nat) (mask : list bool) : list nat :=
  match mask with
  | [] => []
  | b :: m => if b then i :: where_true (S i) m else where_true (S i) m
  end.

Fixpoint select (x : list A) (mask : list bool) : list A :=
  match x, mask with
  | a :: x', b :: m => if b then a :: select x' m else select x' m
  | _, _ => []
  end.

(** [x[mask]] *)
Definition getitem_mask (x : list A) (mask : list bool) : result (list A) :=
  if (length mask =? length x)%nat then OK (select x mask)
  else Raise (IndexError "boolean index did not match indexed array").

Fixpoint put (x : list A) (mask : list bool) (vals : list A) : list A :=
  match x, mask with
  | a :: x', b :: m =>
      if b then
        match vals with
        | v :: vs => v :: put x' m vs
        | [] => a :: put x' m []
        end
      else a :: put x' m vals
  | _, _ => x
  end.

(** [x[mask] = vals]; a one-element [vals] is broadcast. *)
Definition setitem_mask (x : list A) (mask : list bool) (vals : list A) : result (list A) :=
  if negb (length mask =? length x)%nat
  then Raise (IndexError "boolean index did not match indexed array")
  else if (length vals =? count_true mask)%nat then OK (put x mask vals)
  else match vals with
       | [v] => OK (put x mask (repeat v (count_true mask)))
       | _ => Raise (ValueError "NumPy boolean array indexing assignment cannot assign the input values to the output values where the mask is true")
       end.

(** [x[mask] = v] for a scalar [v]. *)
Definition fill_mask (x : list A) (mask : list bool) (v : A) : result (list A) :=
  if negb (length mask =? length x)%nat
  then Raise (IndexError "boolean index did not match indexed array")
  else OK (put x mask (repeat v (count_true mask))).

Fixpoint set_nth (i : nat) (v : A) (x : list A) : list A :=
  match x, i with
  | [], _ => []
  | _ :: x', O => v :: x'
  | a :: x', S j => a :: set_nth j v x'
  end.

Fixpoint put_index (x : list A) (idx : list nat) (vals : list A) : list A :=
  match idx, vals with
  | i :: idx', v :: vals' => put_index (set_nth i v x) idx' vals'
  | _, _ => x
  end.

(** [x[idx] = vals] for an array of indices. *)
Definition setitem_index (x : list A) (idx : list nat) (vals : list A) : result (list A) :=
  if negb (forallb (fun i => i <? length x)%nat idx)
  then Raise (IndexError "index is out of bounds")
  else if (length vals =? length idx)%nat then OK (put_index x idx vals)
  else match vals with
       | [v] => OK (put_index x idx (repeat v (length idx)))
       | _ => Raise (ValueError "shape mismatch: value array could not be broadcast to indexing result")
       end.

(** [x[idx]] for an array of indices. *)
Fixpoint getitem_index (x : list A) (idx : list nat) : result (list A) :=
  match idx with
  | [] => OK []
  | i :: idx' =>
      match nth_error x i with
      | Some a => r <~ getitem_index x idx' ;; OK (a :: r)
      | None => Raise (IndexError "index is out of bounds")
      end
  end.

(** [np.where(mask, a, b)] on arrays of one length. *)
Fixpoint where3 (mask : list bool) (a b : list A) : list A :=
  match mask, a, b with
  | c :: m, u :: a', v :: b' => (if c then u else v) :: where3 m a' b'
  | _, _, _ => []
  end.

(** [a op b], element by element, for arrays of one length. *)
Fixpoint map2 (f : A -> A -> A) (a b : list A) : list A :=
  match a, b with
  | u :: a', v :: b' => f u v :: map2 f a' b'
  | _, _ => []
  end.

Variable leb : A -> A -> bool.

Fixpoint insert_sorted (a : A) (l : list A) : list A :=
  match l with
  | [] => [a]
  | b :: l' => if leb a b then a :: l else b :: insert_sorted a l'
  end.

(** [np.sort(x)], as a stable sort. *)
Definition sort (l : list A) : list A := fold_right insert_sorted [] l.

End Arrays.

(** [np.argsort(x)], as a stable sort of the positions by their values. *)
Definition argsort {A : Type} (leb : A -> A -> bool) (x : list A) : list nat :=
  map snd (sort (fun p q : A * nat => leb (fst p) (fst q)) (combine x (seq 0 (length x)))).

(** [np.in1d(a, b)] *)
Definition in1d {A : Type} (eqb : A -> A -> bool) (a b : list A) : list bool :=
  map (fun v => existsb (eqb v) b) a.

(** [np.unique(x)] on integers: the distinct values in increasing order. *)
Fixpoint insert_unique (a : Z) (l : list Z) : list Z :=
  match l with
  | [] => [a]
  | b :: l' => if (a <? b)%Z then a :: l else if (a =? b)%Z then l else b :: insert_unique a l'
  end.

Definition unique (x : list Z) : list Z := fold_right insert_unique [] x.

(** [np.empty_like(x)] and [np.zeros_like(x)].  The contents of an
    uninitialised array are unspecified; they are taken to be zeros. *)
Definition zeros_like {A B : Type} (zero : B) (x : list A) : list B := repeat zero (length x).
Definition empty_like {A B : Type} (zero : B) (x : list A) : list B := repeat zero (length x).

(** [x.min()] *)
Definition min (x : list Qc) : result Qc :=
  match x with
  | [] => Raise (ValueError "zero-size array to reduction operation minimum which has no identity")
  | a :: x' => OK (fold_left Qcmin x' a)
  end.

End Np.

(** ** Calendar dates *)

(** Modelled from the spec: the date type of [utils] is missing; a date is what
    the specification decomposes it into, a year, a month and a day of the year
    (1 to 366). *)
Record Date : Type := mkDate { date_year : Z; date_month : Z; date_day_of_year : Z }.

(** [range(1, 13)] *)
Definition month_numbers : list Z := map Z.of_nat (seq 1 12).

Definition year (t : list Date) : list Z := map date_year t.
Definition month (t : list Date) : list Z := map date_month t.
Definition day_of_year (t : list Date) : list Z := map date_day_of_year t.

(** ** The running windows of [utils] *)

Record RunningWindowOverYears : Type := mkRunningWindowOverYears {
  window_length_in_years : Z;
  window_step_length_in_years : Z
}.

Record RunningWindowOverDaysOfYear : Type := mkRunningWindowOverDaysOfYear {
  window_length_in_days : Z;
  window_step_length_in_days : Z
}.

(** ** What the sources import *)

(** The functions imported from [utils].  Only their signatures are known to
    the debiasers; the laws say that vectorised functions return one value per
    argument. *)
Class Utils : Type := {
  (** [ecdf(x, y, method)] and [iecdf(x, p, method)] on a non-empty sample [x] *)
  ecdf_values : string -> list Qc -> list Qc -> list Qc;
  iecdf_values : string -> list Qc -> list Qc -> list Qc;
  threshold_cdf_vals : list Qc -> option Qc -> list Qc;
  (** the three time arrays, given the three sizes and what the caller passed *)
  infer_time_arrays :
    nat -> nat -> nat -> option (list Date) -> option (list Date) -> option (list Date) ->
    list Date * list Date * list Date;
  (** [RunningWindowOverYears.use(years)]: pairs (years to debias, years in window) *)
  RunningWindowOverYears_use : RunningWindowOverYears -> list Z -> list (list Z * list Z);
  get_if_in_chosen_years : list Z -> list Z -> list bool;
  (** [RunningWindowOverDaysOfYear.use(days_of_year, years)]:
      pairs (window centre, indices of the values to debias) *)
  RunningWindowOverDaysOfYear_use :
    RunningWindowOverDaysOfYear -> list Z -> list Z -> list (Z * list nat);
  get_indices_vals_in_window : RunningWindowOverDaysOfYear -> list Z -> Z -> list nat;
  get_years_and_yearly_means : list float -> list Z -> list Z * list float;
  sort_array_like_another_one : list float -> list float -> list float;

  ecdf_values_length : forall m x y, length (ecdf_values m x y) = length y;
  iecdf_values_length : forall m x p, length (iecdf_values m x p) = length p;
  threshold_cdf_vals_length : forall p c, length (threshold_cdf_vals p c) = length p;
  infer_time_arrays_obs : forall n1 n2 n3 t2 t3,
    length (fst (fst (infer_time_arrays n1 n2 n3 None t2 t3))) = n1;
  infer_time_arrays_cm_hist : forall n1 n2 n3 t1 t3,
    length (snd (fst (infer_time_arrays n1 n2 n3 t1 None t3))) = n2;
  infer_time_arrays_cm_future : forall n1 n2 n3 t1 t2,
    length (snd (infer_time_arrays n1 n2 n3 t1 t2 None)) = n3;
  get_if_in_chosen_years_length : forall ys chosen,
    length (get_if_in_chosen_years ys chosen) = length ys;
  get_years_and_yearly_means_length : forall x ys,
    (length (fst (get_years_and_yearly_means x ys)) <= length ys)%nat;
  sort_array_like_another_one_length : forall x y,
    length (sort_array_like_another_one x y) = length y
}.

(** [ecdf] and [iecdf] as the debiasers call them.
    Modelled from the spec: an empty sample is a fatal error of either function. *)
Definition ecdf `{Utils} (x y : list Qc) (method : string) : result (list Qc) :=
  match x with
  | [] => Raise (ValueError "ecdf of an empty sample")
  | _ => OK (ecdf_values method x y)
  end.

Definition iecdf `{Utils} (x p : list Qc) (method : string) : result (list Qc) :=
  match x with
  | [] => Raise (ValueError "iecdf of an empty sample")
  | _ => OK (iecdf_values method x p)
  end.

(** [infer_and_create_time_arrays_if_not_given(obs, cm_hist, cm_future, ...)] *)
Definition infer_and_create_time_arrays_if_not_given `{Utils} {A : Type}
    (obs cm_hist cm_future : list A)
    (time_obs time_cm_hist time_cm_future : option (list Date)) :
    list Date * list Date * list Date :=
  infer_time_arrays (length obs) (length cm_hist) (length cm_future)
    time_obs time_cm_hist time_cm_future.

(** NumPy's process-global generator: [np.random.random(size)] and
    [np.random.uniform(low, high, size)], each returning the draws and the
    state left behind. *)
Class NumpyRandom (G : Type) : Type := {
  random_sample : nat -> G -> list Qc * G;
  uniform_sample : Qc -> Qc -> nat -> G -> list Qc * G;
  random_sample_length : forall n g, length (fst (random_sample n g)) = n;
  uniform_sample_length : forall lo hi n g, length (fst (uniform_sample lo hi n g)) = n;
  random_sample_range : forall n g,
    Forall (fun v => (0 <= v)%Qc /\ (v < 1)%Qc) (fst (random_sample n g));
  uniform_sample_range : forall lo hi n g, (lo < hi)%Qc ->
    Forall (fun v => (lo <= v)%Qc /\ (v < hi)%Qc) (fst (uniform_sample lo hi n g))
}.

Section Random.
Context {G : Type} `{NumpyRandom G}.

Definition np_random_random (size : nat) : M G (list Qc) :=
  fun w => let (draws, g) := random_sample size (rng w) in
           (OK draws, mkWorld g (warnings w)).

Definition np_random_uniform (low high : Qc) (size : nat) : M G (list Qc) :=
  fun w => let (draws, g) := uniform_sample low high size (rng w) in
           (OK draws, mkWorld g (warnings w)).
End Random.

(** A fitted-distribution object: [fit], [cdf] and [ppf]. *)
Record Distribution : Type := mkDistribution {
  params : Type;
  fit : list Qc -> params;
  cdf : Qc -> params -> Qc;
  ppf : Qc -> params -> Qc
}.

Definition msg_time_dimensions : string :=
  "Dimensions of time information for one of time_obs, time_cm_hist, time_cm_future do not correspond to the dimensions of obs, cm_hist, cm_future.".

(** ** CDFt ([debias/_cdft.py]) *)

Module CDFt.

Record t : Type := mk {
  SSR : bool;
  delta_shift : string;
  apply_by_month : bool;
  running_window_mode : bool;
  running_window_length_in_years : Z;
  running_window_step_length_in_years : Z;
  variable : string;
  ecdf_method : string;
  iecdf_method : string
}.

(** [__attrs_post_init__]: the window object built from the two lengths. *)
Definition running_window (self : t) : RunningWindowOverYears :=
  mkRunningWindowOverYears (running_window_length_in_years self)
                           (running_window_step_length_in_years self).

Section Methods.
Context {U : Utils} {G : Type} {R : NumpyRandom G}.

Definition _check_time_information_and_raise_error
    (obs cm_hist cm_future : list Qc) (time_obs time_cm_hist time_cm_future : list Date) :
    result unit :=
  if negb (length obs =? length time_obs)%nat
     || negb (length cm_hist =? length time_cm_hist)%nat
     || negb (length cm_future =? length time_cm_future)%nat
  then Raise (ValueError msg_time_dimensions)
  else OK tt.

Definition _apply_CDFt_mapping (self : t) (obs cm_hist cm_future : list Qc) :
    result (list Qc) :=
  '(cm_hist, cm_future) <~
    (if delta_shift self =? "additive" then
       let shift := (mean obs - mean cm_hist)%Qc in
       OK (map (fun v => v + shift)%Qc cm_hist, map (fun v => v + shift)%Qc cm_future)
     else if delta_shift self =? "multiplicative" then
       let shift := (mean obs / mean cm_hist)%Qc in
       OK (map (fun v => v * shift)%Qc cm_hist, map (fun v => v * shift)%Qc cm_future)
     else if delta_shift self =? "no_shift" then OK (cm_hist, cm_future)
     else Raise (ValueError
       "self.delta_shift needs to be one of [additive, multiplicative, no_shift]")) ;;
  p_future <~ ecdf cm_future cm_future (ecdf_method self) ;;
  q_obs <~ iecdf obs p_future (iecdf_method self) ;;
  p_hist <~ ecdf cm_hist q_obs (ecdf_method self) ;;
  iecdf cm_future p_hist (iecdf_method self).

(** [x[x > 0]] *)
Definition positive_part (x : list Qc) : list Qc :=
  Np.select x (map (fun v => Qcltb 0%Qc v) x).

Definition _get_threshold (obs cm_hist cm_future : list Qc) : result Qc :=
  a <~ Np.min (positive_part obs) ;;
  b <~ Np.min (positive_part cm_hist) ;;
  c <~ Np.min (positive_part cm_future) ;;
  OK (Qcmin (Qcmin a b) c).

Definition _randomize_zero_values_between_zero_and_threshold
    (x : list Qc) (threshold : Qc) : M G (list Qc) :=
  draws <- np_random_uniform 0%Qc threshold (length x) ;;
  ret (Np.where3 (map (fun v => Qceqb v 0%Qc) x) draws x).

Definition _set_values_below_threshold_to_zero (x : list Qc) (threshold : Qc) : list Qc :=
  map (fun v => if Qcltb v threshold then 0%Qc else v) x.

Definition _apply_SSR_steps_before_adjustment (obs cm_hist cm_future : list Qc) :
    M G (list Qc * list Qc * list Qc * Qc) :=
  threshold <- lift (_get_threshold obs cm_hist cm_future) ;;
  obs <- _randomize_zero_values_between_zero_and_threshold obs threshold ;;
  cm_hist <- _randomize_zero_values_between_zero_and_threshold cm_hist threshold ;;
  cm_future <- _randomize_zero_values_between_zero_and_threshold cm_future threshold ;;
  ret (obs, cm_hist, cm_future, threshold).

Definition _apply_SSR_steps_after_adjustment (cm_future : list Qc) (threshold : Qc) :
    list Qc :=
  _set_values_below_threshold_to_zero cm_future threshold.

Definition _apply_on_month_and_window (self : t) (obs cm_hist cm_future : list Qc) :
    M G (list Qc) :=
  if SSR self then
    '(obs, cm_hist, cm_future, threshold) <-
      _apply_SSR_steps_before_adjustment obs cm_hist cm_future ;;
    cm_future <- lift (_apply_CDFt_mapping self obs cm_hist cm_future) ;;
    ret (_apply_SSR_steps_after_adjustment cm_future threshold)
  else
    lift (_apply_CDFt_mapping self obs cm_hist cm_future).

(** The mask [month(time) == i_month]. *)
Definition month_is (i_month : Z) (time : list Date) : list bool :=
  map (fun m => (m =? i_month)%Z) (month time).

Definition _apply_on_window (self : t) (obs cm_hist cm_future : list Qc)
    (time_obs time_cm_hist time_cm_future : list Date) : M G (list Qc) :=
  if apply_by_month self then
    for_in month_numbers
      (fun i_month debiased_cm_future =>
         let mask_i_month_in_obs_hist := month_is i_month time_obs in
         let mask_i_month_in_cm_hist := month_is i_month time_cm_hist in
         let mask_i_month_in_cm_future := month_is i_month time_cm_future in
         obs_m <- lift (Np.getitem_mask obs mask_i_month_in_obs_hist) ;;
         cm_hist_m <- lift (Np.getitem_mask cm_hist mask_i_month_in_cm_hist) ;;
         cm_future_m <- lift (Np.getitem_mask cm_future mask_i_month_in_cm_future) ;;
         vals <- _apply_on_month_and_window self obs_m cm_hist_m cm_future_m ;;
         lift (Np.setitem_mask debiased_cm_future mask_i_month_in_cm_future vals))
      (Np.empty_like 0%Qc cm_future)
  else
    _apply_on_month_and_window self obs cm_hist cm_future.

Definition msg_no_time : string :=
  "CDF-t runs without time-information for at least one of obs, cm_hist or cm_future.".

Definition apply_location (self : t) (obs cm_hist cm_future : list Qc)
    (time_obs time_cm_hist time_cm_future : option (list Date)) : M G (list Qc) :=
  '(time_obs, time_cm_hist, time_cm_future) <-
    match time_obs, time_cm_hist, time_cm_future with
    | Some t1, Some t2, Some t3 => ret (t1, t2, t3)
    | _, _, _ =>
        _ <- warning msg_no_time ;;
        ret (infer_and_create_time_arrays_if_not_given obs cm_hist cm_future
               time_obs time_cm_hist time_cm_future)
    end ;;
  _ <- lift (_check_time_information_and_raise_error
               obs cm_hist cm_future time_obs time_cm_hist time_cm_future) ;;
  if running_window_mode self then
    let years_cm_future := year time_cm_future in
    for_in (RunningWindowOverYears_use (running_window self) years_cm_future)
      (fun '(years_to_debias, years_in_window) debiased_cm_future =>
         let mask_years_in_window := get_if_in_chosen_years years_cm_future years_in_window in
         let mask_years_to_debias := get_if_in_chosen_years years_cm_future years_to_debias in
         years_w <- lift (Np.getitem_mask years_cm_future mask_years_in_window) ;;
         let mask_years_in_window_to_debias := get_if_in_chosen_years years_w years_to_debias in
         cm_future_w <- lift (Np.getitem_mask cm_future mask_years_in_window) ;;
         time_cm_future_w <- lift (Np.getitem_mask time_cm_future mask_years_in_window) ;;
         vals <- _apply_on_window self obs cm_hist cm_future_w
                   time_obs time_cm_hist time_cm_future_w ;;
         vals <- lift (Np.getitem_mask vals mask_years_in_window_to_debias) ;;
         lift (Np.setitem_mask debiased_cm_future mask_years_to_debias vals))
      (Np.empty_like 0%Qc cm_future)
  else
    _apply_on_window self obs cm_hist cm_future time_obs time_cm_hist time_cm_future.

End Methods.

End CDFt.

(** ** QuantileDeltaMapping ([debias/_quantile_delta_mapping.py]) *)

Module QDM.

Record t : Type := mk {
  distribution : Distribution;
  trend_preservation : string;
  censor_values_to_zero : bool;
  censoring_threshold : Qc;
  running_window_mode_over_years_of_cm_future : bool;
  running_window_over_years_of_cm_future_length : Z;
  running_window_over_years_of_cm_future_step_length : Z;
  running_window_mode_within_year : bool;
  running_window_within_year_length : Z;
  running_window_within_year_step_length : Z;
  variable : string;
  ecdf_method : string;
  cdf_threshold : option Qc
}.

(** [__attrs_post_init__]: the two window objects and the default threshold. *)
Definition running_window_over_years_of_cm_future (self : t) : RunningWindowOverYears :=
  mkRunningWindowOverYears (running_window_over_years_of_cm_future_length self)
                           (running_window_over_years_of_cm_future_step_length self).

Definition running_window_within_year (self : t) : RunningWindowOverDaysOfYear :=
  mkRunningWindowOverDaysOfYear (running_window_within_year_length self)
                                (running_window_within_year_step_length self).

Definition __attrs_post_init__ (self : t) : t :=
  match cdf_threshold self with
  | Some _ => self
  | None =>
      mk (distribution self) (trend_preservation self) (censor_values_to_zero self)
         (censoring_threshold self) (running_window_mode_over_years_of_cm_future self)
         (running_window_over_years_of_cm_future_length self)
         (running_window_over_years_of_cm_future_step_length self)
         (running_window_mode_within_year self) (running_window_within_year_length self)
         (running_window_within_year_step_length self) (variable self) (ecdf_method self)
         (Some (1 / zc (running_window_within_year_length self
                        * running_window_over_years_of_cm_future_length self + 1))%Qc)
  end.

Section Methods.
Context {U : Utils} {G : Type}.

Definition _check_time_information_and_raise_error
    (obs cm_hist cm_future : list Qc) (time_obs time_cm_hist time_cm_future : list Date) :
    result unit :=
  if negb (length obs =? length time_obs)%nat
     || negb (length cm_hist =? length time_cm_hist)%nat
     || negb (length cm_future =? length time_cm_future)%nat
  then Raise (ValueError msg_time_dimensions)
  else OK tt.

(** [self.distribution.ppf(tau_t, *fit)], one quantile per probability. *)
Definition ppf_all (self : t) (tau_t : list Qc) (fitted : params (distribution self)) :
    list Qc :=
  map (fun p => ppf (distribution self) p fitted) tau_t.

Definition _apply_debiasing_steps (self : t) (cm_future : list Qc)
    (fit_obs fit_cm_hist : params (distribution self)) : result (list Qc) :=
  p <~ ecdf cm_future cm_future (ecdf_method self) ;;
  let tau_t := threshold_cdf_vals p (cdf_threshold self) in
  bias_corrected_vals <~
    (if trend_preservation self =? "absolute" then
       OK (Np.map2 Qcminus (Np.map2 Qcplus cm_future (ppf_all self tau_t fit_obs))
                   (ppf_all self tau_t fit_cm_hist))
     else if trend_preservation self =? "relative" then
       OK (Np.map2 Qcdiv (Np.map2 Qcmult cm_future (ppf_all self tau_t fit_obs))
                   (ppf_all self tau_t fit_cm_hist))
     else Raise (ValueError
       "self.trend_preservation needs to be one of [absolute, relative]")) ;;
  OK (if censor_values_to_zero self
      then map (fun v => if Qcltb v (censoring_threshold self) then 0%Qc else v)
               bias_corrected_vals
      else bias_corrected_vals).

Definition _get_obs_and_cm_hist_fits (self : t) (obs cm_hist : list Qc) :
    params (distribution self) * params (distribution self) :=
  (fit (distribution self) obs, fit (distribution self) cm_hist).

Definition _apply_on_within_year_window (self : t) (obs cm_hist cm_future : list Qc)
    (years_cm_future : list Z) : result (list Qc) :=
  let '(fit_obs, fit_cm_hist) := _get_obs_and_cm_hist_fits self obs cm_hist in
  if running_window_mode_over_years_of_cm_future self then
    fold_left
      (fun acc '(years_to_debias, years_in_window) =>
         debiased_cm_future <~ acc ;;
         let mask_years_in_window := get_if_in_chosen_years years_cm_future years_in_window in
         let mask_years_to_debias := get_if_in_chosen_years years_cm_future years_to_debias in
         years_w <~ Np.getitem_mask years_cm_future mask_years_in_window ;;
         let mask_years_in_window_to_debias := get_if_in_chosen_years years_w years_to_debias in
         cm_future_w <~ Np.getitem_mask cm_future mask_years_in_window ;;
         vals <~ _apply_debiasing_steps self cm_future_w fit_obs fit_cm_hist ;;
         vals <~ Np.getitem_mask vals mask_years_in_window_to_debias ;;
         Np.setitem_mask debiased_cm_future mask_years_to_debias vals)
      (RunningWindowOverYears_use (running_window_over_years_of_cm_future self) years_cm_future)
      (OK (Np.empty_like 0%Qc cm_future))
  else
    _apply_debiasing_steps self cm_future fit_obs fit_cm_hist.

Definition msg_no_time : string :=
  "QuantileDeltaMapping runs without time-information for at least one of obs, cm_hist or cm_future.".

Definition apply_location (self : t) (obs cm_hist cm_future : list Qc)
    (time_obs time_cm_hist time_cm_future : option (list Date)) : M G (list Qc) :=
  '(time_obs, time_cm_hist, time_cm_future) <-
    match time_obs, time_cm_hist, time_cm_future with
    | Some t1, Some t2, Some t3 => ret (t1, t2, t3)
    | _, _, _ =>
        _ <- warning msg_no_time ;;
        ret (infer_and_create_time_arrays_if_not_given obs cm_hist cm_future
               time_obs time_cm_hist time_cm_future)
    end ;;
  _ <- lift (_check_time_information_and_raise_error
               obs cm_hist cm_future time_obs time_cm_hist time_cm_future) ;;
  let years_cm_future := year time_cm_future in
  if running_window_mode_within_year self then
    let days_of_year_obs := day_of_year time_obs in
    let days_of_year_cm_hist := day_of_year time_cm_hist in
    let days_of_year_cm_future := day_of_year time_cm_future in
    for_in (RunningWindowOverDaysOfYear_use (running_window_within_year self)
              days_of_year_cm_future years_cm_future)
      (fun '(window_center, indices_bias_corrected_values) debiased_cm_future =>
         let indices_window_obs :=
           get_indices_vals_in_window (running_window_within_year self)
             days_of_year_obs window_center in
         let indices_window_cm_hist :=
           get_indices_vals_in_window (running_window_within_year self)
             days_of_year_cm_hist window_center in
         let indices_window_cm_future :=
           get_indices_vals_in_window (running_window_within_year self)
             days_of_year_cm_future window_center in
         obs_w <- lift (Np.getitem_index obs indices_window_obs) ;;
         cm_hist_w <- lift (Np.getitem_index cm_hist indices_window_cm_hist) ;;
         cm_future_w <- lift (Np.getitem_index cm_future indices_window_cm_future) ;;
         years_w <- lift (Np.getitem_index years_cm_future indices_window_cm_future) ;;
         vals <- lift (_apply_on_within_year_window self obs_w cm_hist_w cm_future_w years_w) ;;
         vals <- lift (Np.getitem_mask vals
                         (Np.in1d Nat.eqb indices_window_cm_future
                                  indices_bias_corrected_values)) ;;
         lift (Np.setitem_index debiased_cm_future indices_bias_corrected_values vals))
      (Np.zeros_like 0%Qc cm_future)
  else
    lift (_apply_on_within_year_window self obs cm_hist cm_future years_cm_future).

End Methods.

End QDM.

(** ** ISIMIP ([debias/_isimip.py]) *)

Module ISIMIP.

(** The configuration.  The [distribution] attribute is consumed only by the
    SciPy-based kernel of step 6 and is part of that kernel here. *)
Record t : Type := mk {
  trend_preservation_method : string;
  detrending : bool;
  reasonable_physical_range : option (float * float);
  variable : string;
  lower_bound : float;
  lower_threshold : float;
  upper_bound : float;
  upper_threshold : float;
  scale_by_annual_cycle_of_upper_bounds : bool;
  window_length_annual_cycle_of_upper_bounds : Z;
  impute_missing_values : bool;
  trend_removal_with_significance_test : bool;
  trend_transfer_only_for_values_within_threshold : bool;
  adjust_frequencies_of_values_beyond_thresholds : bool;
  event_likelihood_adjustment : bool;
  ks_test_for_goodness_of_cdf_fit : bool;
  nonparametric_qm : bool;
  ecdf_method : string;
  iecdf_method : string;
  mode_non_parametric_quantile_mapping : string;
  running_window_mode : bool;
  running_window_length : Z;
  running_window_step_length : Z
}.

Definition running_window (self : t) : RunningWindowOverDaysOfYear :=
  mkRunningWindowOverDaysOfYear (running_window_length self) (running_window_step_length self).

Definition has_lower_threshold (self : t) : bool := fltb NInf (lower_threshold self).
Definition has_lower_bound (self : t) : bool := fltb NInf (lower_bound self).
Definition has_upper_threshold (self : t) : bool := fltb (upper_threshold self) PInf.
Definition has_upper_bound (self : t) : bool := fltb (upper_bound self) PInf.
Definition has_bound (self : t) : bool := has_upper_bound self || has_lower_bound self.
Definition has_threshold (self : t) : bool := has_upper_threshold self || has_lower_threshold self.

(** SciPy routines and the numerical kernels of the class that are used as
    black boxes: the regression of step 3 (slope and p-value), the
    interpolant of step 2, the annual-cycle helpers of steps 1 and 8, the
    trend-transfer formulas of step 5 and the quantile mapping between the
    thresholds of step 6. *)
Class Kernels (G : Type) : Type := {
  linregress : list Z -> list float -> float * float;
  interp1d_extrapolate : list nat -> list nat -> list nat -> list Qc;
  annual_cycle : Type;
  _step1_get_annual_cycle_of_upper_bounds :
    t -> list float -> list Z -> annual_cycle * list Z;
  _step1_calculate_debiased_annual_cycle_of_upper_bounds :
    annual_cycle -> list Z -> annual_cycle -> list Z -> annual_cycle -> list Z -> annual_cycle;
  _step1_scale_by_annual_cycle_of_upper_bounds :
    list float -> list Z -> annual_cycle -> list Z -> list float;
  _step5_transfer_trend : t -> list float -> list float -> list float -> result (list float);
  _step6_adjust_values_between_thresholds :
    t -> list float -> list float -> list float -> list float -> list float -> M G (list float);
  _step8_rescale_by_annual_cycle_of_upper_bounds :
    list float -> list Z -> annual_cycle -> list Z -> list float;
  interp1d_extrapolate_length : forall xs ys q,
    length (interp1d_extrapolate xs ys q) = length q
}.

Section Methods.
Context {U : Utils} {G : Type} {R : NumpyRandom G} {K : Kernels G}.

(** *** Helpers *)

Definition _get_mask_for_values_beyond_lower_threshold (self : t) (x : list float) : list bool :=
  map (fun v => fleb v (lower_threshold self)) x.

Definition _get_mask_for_values_beyond_upper_threshold (self : t) (x : list float) : list bool :=
  map (fun v => fleb (upper_threshold self) v) x.

Definition _get_mask_for_values_between_thresholds (self : t) (x : list float) : list bool :=
  map (fun v => fltb (lower_threshold self) v && fltb v (upper_threshold self)) x.

Definition _get_values_between_thresholds (self : t) (x : list float) : list float :=
  Np.select x (_get_mask_for_values_between_thresholds self x).

Definition out_of_range (r : float * float) (x : list float) : bool :=
  existsb (fun v => fltb v (fst r) || fltb (snd r) v) x.

Definition _check_reasonable_physical_range (self : t) (obs_hist cm_hist cm_future : list float) :
    result unit :=
  match reasonable_physical_range self with
  | None => OK tt
  | Some r =>
      if out_of_range r obs_hist
      then Raise (ValueError "Values of obs_hist lie outside the reasonable physical range")
      else if out_of_range r cm_hist
      then Raise (ValueError "Values of cm_hist lie outside the reasonable physical range")
      else if out_of_range r cm_future
      then Raise (ValueError "Values of cm_future lie outside the reasonable physical range")
      else OK tt
  end.

Definition _check_time_information_and_raise_error
    (obs cm_hist cm_future : list float) (time_obs time_cm_hist time_cm_future : list Date) :
    result unit :=
  if negb (length obs =? length time_obs)%nat
     || negb (length cm_hist =? length time_cm_hist)%nat
     || negb (length cm_future =? length time_cm_future)%nat
  then Raise (ValueError msg_time_dimensions)
  else OK tt.

(** *** Step 2 *)

Definition _step2_get_mask_for_values_to_impute (x : list float) : list bool :=
  map (fun v => isnan v || isinf v) x.

Definition to_Qc (x : float) : Qc := match x with Fin q => q | _ => 0%Qc end.

Definition _step2_impute_values (self : t) (x : list float) : M G (list float) :=
  let mask_values_to_impute := _step2_get_mask_for_values_to_impute x in
  let mask_valid_values := map negb mask_values_to_impute in
  let valid_values := Np.select x mask_valid_values in
  match valid_values with
  | [] => raise (ValueError
      "Step2: Imputation not possible because all values are invalid in the given month/window.")
  | [v] => lift (Np.fill_mask x mask_values_to_impute v)
  | _ =>
      p <- np_random_random (Np.count_true mask_values_to_impute) ;;
      sampled_values <- lift (iecdf (map to_Qc valid_values) p (iecdf_method self)) ;;
      let indices_valid_values := Np.where_true 0 mask_valid_values in
      let backsort_sorted_valid_values := Np.argsort Nat.leb (Np.argsort fsortleb valid_values) in
      let backsort_invalid_values :=
        Np.argsort Nat.leb
          (Np.argsort Qcleb
             (interp1d_extrapolate indices_valid_values backsort_sorted_valid_values
                (Np.where_true 0 mask_values_to_impute))) in
      vals <- lift (Np.getitem_index (Np.sort Qcleb sampled_values) backsort_invalid_values) ;;
      lift (Np.setitem_mask x mask_values_to_impute (map Fin vals))
  end.

(** *** Step 3 *)

Definition _step3_remove_trend (self : t) (x : list float) (years : list Z) :
    result (list float * list float) :=
  let '(unique_years, annual_means) := get_years_and_yearly_means x years in
  let '(slope, pvalue) := linregress unique_years annual_means in
  let annual_trend :=
    if fltb pvalue (Fin (qc 5 100)) && trend_removal_with_significance_test self
    then map (fun y => fmul slope (fsub (Fin (zc y)) (Fin (mean (map zc unique_years)))))
             unique_years
    else Np.zeros_like (Fin 0%Qc) years in
  trend <~
    fold_left
      (fun acc '(index_unique_year, unique_year) =>
         trend <~ acc ;;
         match nth_error annual_trend index_unique_year with
         | Some v => Np.fill_mask trend (map (fun y => (y =? unique_year)%Z) years) v
         | None => Raise (IndexError "index is out of bounds")
         end)
      (combine (seq 0 (length unique_years)) unique_years)
      (OK (Np.zeros_like (Fin 0%Qc) x)) ;;
  OK (Np.map2 fsub x trend, trend).

(** *** Step 4 *)

(** [np.random.uniform(low, high, size)] with float bounds: a range that is
    not finite raises. *)
Definition np_random_uniform_float (low high : float) (size : nat) : M G (list Qc) :=
  match low, high with
  | Fin a, Fin b => np_random_uniform a b size
  | _, _ => raise (OverflowError "Range exceeds valid bounds")
  end.

Definition _step4_randomize_values_between_lower_threshold_and_bound (self : t)
    (vals : list float) : M G (list float) :=
  let mask_vals_beyond_lower_threshold := _get_mask_for_values_beyond_lower_threshold self vals in
  draws <- np_random_uniform_float (lower_bound self) (lower_threshold self)
             (Np.count_true mask_vals_beyond_lower_threshold) ;;
  let randomised_values_between_threshold_and_bound := Np.sort fsortleb (map Fin draws) in
  lift (Np.setitem_mask vals mask_vals_beyond_lower_threshold
          (sort_array_like_another_one randomised_values_between_threshold_and_bound
             (Np.select vals mask_vals_beyond_lower_threshold))).

Definition _step4_randomize_values_between_upper_threshold_and_bound (self : t)
    (vals : list float) : M G (list float) :=
  let mask_vals_beyond_upper_threshold := _get_mask_for_values_beyond_upper_threshold self vals in
  draws <- np_random_uniform_float (upper_threshold self) (upper_bound self)
             (Np.count_true mask_vals_beyond_upper_threshold) ;;
  let randomised_values_between_threshold_and_bound := Np.sort fsortleb (map Fin draws) in
  lift (Np.setitem_mask vals mask_vals_beyond_upper_threshold
          (sort_array_like_another_one randomised_values_between_threshold_and_bound
             (Np.select vals mask_vals_beyond_upper_threshold))).

(** *** Step 6: the numbers of entries forced to the bounds *)

Definition _step6_calculate_percent_values_beyond_threshold
    (mask_for_values_beyond_threshold : list bool) : float :=
  fdiv (Fin (nc (Np.count_true mask_for_values_beyond_threshold)))
       (Fin (nc (length mask_for_values_beyond_threshold))).

Definition _step6_get_P_obs_future (P_obs_hist P_cm_hist P_cm_future : float) : float :=
  if isclose P_cm_hist P_obs_hist then P_cm_future
  else if fleb P_cm_future P_cm_hist && fltb P_obs_hist P_cm_hist
  then fdiv (fmul P_obs_hist P_cm_future) P_cm_hist
  else if fleb P_cm_hist P_cm_future && fltb P_cm_hist P_obs_hist
  then fsub (Fin 1%Qc)
         (fdiv (fmul (fsub (Fin 1%Qc) P_obs_hist) (fsub (Fin 1%Qc) P_cm_future))
               (fsub (Fin 1%Qc) P_cm_hist))
  else fsub (fadd P_obs_hist P_cm_future) P_cm_hist.

Definition _step6_get_nr_of_entries_to_set_to_bound (self : t)
    (mask_for_values_beyond_threshold_obs_hist_sorted
     mask_for_values_beyond_threshold_cm_hist_sorted
     mask_for_values_beyond_threshold_cm_future_sorted : list bool) : result Z :=
  let P_obs_future :=
    if adjust_frequencies_of_values_beyond_thresholds self then
      let P_obs_hist := _step6_calculate_percent_values_beyond_threshold
                          mask_for_values_beyond_threshold_obs_hist_sorted in
      let P_cm_hist := _step6_calculate_percent_values_beyond_threshold
                         mask_for_values_beyond_threshold_cm_hist_sorted in
      let P_cm_future := _step6_calculate_percent_values_beyond_threshold
                           mask_for_values_beyond_threshold_cm_future_sorted in
      _step6_get_P_obs_future P_obs_hist P_cm_hist P_cm_future
    else
      _step6_calculate_percent_values_beyond_threshold
        mask_for_values_beyond_threshold_obs_hist_sorted in
  py_round (fmul (Fin (nc (length mask_for_values_beyond_threshold_cm_future_sorted)))
                 P_obs_future).

(** [a / b] on Python integers. *)
Definition py_truediv (a b : Z) : result Qc :=
  if (b =? 0)%Z then Raise (ZeroDivisionError "division by zero")
  else OK (zc a / zc b)%Qc.

Definition _step6_scale_nr_of_entries_to_set_to_bounds
    (nr_of_entries_to_set_to_lower_bound nr_of_entries_to_set_to_upper_bound : Z)
    (size_cm_future : nat) : result (Z * Z) :=
  q <~ py_truediv (nr_of_entries_to_set_to_lower_bound * Z.of_nat size_cm_future)
                  (nr_of_entries_to_set_to_lower_bound + nr_of_entries_to_set_to_upper_bound) ;;
  let nr_of_entries_to_set_to_lower_bound := round_half_even q in
  q <~ py_truediv (nr_of_entries_to_set_to_upper_bound * Z.of_nat size_cm_future)
                  (nr_of_entries_to_set_to_lower_bound + nr_of_entries_to_set_to_upper_bound) ;;
  let nr_of_entries_to_set_to_upper_bound := round_half_even q in
  OK (nr_of_entries_to_set_to_lower_bound, nr_of_entries_to_set_to_upper_bound).

(** A slice bound [k] of an array of length [n], as Python normalises it. *)
Definition slice_bound (k : Z) (n : nat) : nat :=
  if (k <? 0)%Z then Z.to_nat (Z.max (Z.of_nat n + k) 0)
  else Nat.min (Z.to_nat k) n.

(** [mask[0:nr] = True] *)
Definition _step6_get_mask_for_entries_to_set_to_lower_bound (nr : Z)
    (cm_future_sorted : list float) : list bool :=
  map (fun i => (i <? slice_bound nr (length cm_future_sorted))%nat)
      (seq 0 (length cm_future_sorted)).

(** [mask[(cm_future_sorted.size - nr):] = True] *)
Definition _step6_get_mask_for_entries_to_set_to_upper_bound (nr : Z)
    (cm_future_sorted : list float) : list bool :=
  map (fun i => (slice_bound (Z.of_nat (length cm_future_sorted) - nr)
                             (length cm_future_sorted) <=? i)%nat)
      (seq 0 (length cm_future_sorted)).

(** *** The steps *)

Definition step1 (self : t) (obs_hist cm_hist cm_future : list float)
    (time_obs_hist time_cm_hist time_cm_future : list Date) :
    list float * list float * list float * option annual_cycle :=
  if scale_by_annual_cycle_of_upper_bounds self then
    let days_of_year_obs_hist := day_of_year time_obs_hist in
    let days_of_year_cm_hist := day_of_year time_cm_hist in
    let days_of_year_cm_future := day_of_year time_cm_future in
    let '(annual_cycle_obs_hist, unique_days_of_year_obs_hist) :=
      _step1_get_annual_cycle_of_upper_bounds self obs_hist days_of_year_obs_hist in
    let '(annual_cycle_cm_hist, unique_days_of_year_cm_hist) :=
      _step1_get_annual_cycle_of_upper_bounds self cm_hist days_of_year_cm_hist in
    let '(annual_cycle_cm_future, unique_days_of_year_cm_future) :=
      _step1_get_annual_cycle_of_upper_bounds self cm_future days_of_year_cm_future in
    let obs_hist := _step1_scale_by_annual_cycle_of_upper_bounds
                      obs_hist days_of_year_obs_hist
                      annual_cycle_obs_hist unique_days_of_year_obs_hist in
    let cm_hist := _step1_scale_by_annual_cycle_of_upper_bounds
                     cm_hist days_of_year_cm_hist
                     annual_cycle_cm_hist unique_days_of_year_cm_hist in
    let cm_future := _step1_scale_by_annual_cycle_of_upper_bounds
                       cm_future days_of_year_cm_future
                       annual_cycle_cm_future unique_days_of_year_cm_future in
    let debiased_annual_cycle :=
      _step1_calculate_debiased_annual_cycle_of_upper_bounds
        annual_cycle_obs_hist unique_days_of_year_obs_hist
        annual_cycle_cm_hist unique_days_of_year_cm_hist
        annual_cycle_cm_future unique_days_of_year_cm_future in
    (obs_hist, cm_hist, cm_future, Some debiased_annual_cycle)
  else (obs_hist, cm_hist, cm_future, None).

Definition step2 (self : t) (obs_hist cm_hist cm_future : list float) :
    M G (list float * list float * list float) :=
  if impute_missing_values self then
    obs_hist <- _step2_impute_values self obs_hist ;;
    cm_hist <- _step2_impute_values self cm_hist ;;
    cm_future <- _step2_impute_values self cm_future ;;
    ret (obs_hist, cm_hist, cm_future)
  else ret (obs_hist, cm_hist, cm_future).

Definition step3 (self : t) (obs_hist cm_hist cm_future : list float)
    (years_obs_hist years_cm_hist years_cm_future : list Z) :
    result (list float * list float * list float * list float) :=
  let trend_cm_future := Np.zeros_like (Fin 0%Qc) cm_future in
  if detrending self then
    '(obs_hist, _) <~ _step3_remove_trend self obs_hist years_obs_hist ;;
    '(cm_hist, _) <~ _step3_remove_trend self cm_hist years_cm_hist ;;
    '(cm_future, trend_cm_future) <~ _step3_remove_trend self cm_future years_cm_future ;;
    OK (obs_hist, cm_hist, cm_future, trend_cm_future)
  else OK (obs_hist, cm_hist, cm_future, trend_cm_future).

Definition step4 (self : t) (obs_hist cm_hist cm_future : list float) :
    M G (list float * list float * list float) :=
  '(obs_hist, cm_hist, cm_future) <-
    (if has_lower_bound self && has_lower_threshold self then
       obs_hist <- _step4_randomize_values_between_lower_threshold_and_bound self obs_hist ;;
       cm_hist <- _step4_randomize_values_between_lower_threshold_and_bound self cm_hist ;;
       cm_future <- _step4_randomize_values_between_lower_threshold_and_bound self cm_future ;;
       ret (obs_hist, cm_hist, cm_future)
     else ret (obs_hist, cm_hist, cm_future)) ;;
  if has_upper_bound self && has_upper_threshold self then
    obs_hist <- _step4_randomize_values_between_upper_threshold_and_bound self obs_hist ;;
    cm_hist <- _step4_randomize_values_between_upper_threshold_and_bound self cm_hist ;;
    cm_future <- _step4_randomize_values_between_upper_threshold_and_bound self cm_future ;;
    ret (obs_hist, cm_hist, cm_future)
  else ret (obs_hist, cm_hist, cm_future).

Definition step5 (self : t) (obs_hist cm_hist cm_future : list float) : result (list float) :=
  if trend_transfer_only_for_values_within_threshold self then
    let mask_for_values_between_thresholds_obs_hist :=
      _get_mask_for_values_between_thresholds self obs_hist in
    let obs_future := obs_hist in
    let values_between_thresholds_cm_hist := _get_values_between_thresholds self cm_hist in
    let values_between_thresholds_cm_future := _get_values_between_thresholds self cm_future in
    if existsb (fun b => b) mask_for_values_between_thresholds_obs_hist
       && (0 <? length values_between_thresholds_cm_hist)%nat
       && (0 <? length values_between_thresholds_cm_future)%nat
    then
      vals <~ _step5_transfer_trend self
                (Np.select obs_hist mask_for_values_between_thresholds_obs_hist)
                values_between_thresholds_cm_hist values_between_thresholds_cm_future ;;
      Np.setitem_mask obs_future mask_for_values_between_thresholds_obs_hist vals
    else OK obs_future
  else _step5_transfer_trend self obs_hist cm_hist cm_future.

Definition step6 (self : t) (obs_hist obs_future cm_hist cm_future : list float) :
    M G (list float) :=
  let cm_future_argsort := Np.argsort fsortleb cm_future in
  cm_future_sorted <- lift (Np.getitem_index cm_future cm_future_argsort) ;;
  let obs_hist_sorted := Np.sort fsortleb obs_hist in
  let obs_future_sorted := Np.sort fsortleb obs_future in
  let cm_hist_sorted := Np.sort fsortleb cm_hist in
  let mapped_vals := cm_future_sorted in
  nr_of_entries_to_set_to_lower_bound <-
    (if has_lower_threshold self then
       lift (_step6_get_nr_of_entries_to_set_to_bound self
               (_get_mask_for_values_beyond_lower_threshold self obs_hist_sorted)
               (_get_mask_for_values_beyond_lower_threshold self cm_hist_sorted)
               (_get_mask_for_values_beyond_lower_threshold self cm_future_sorted))
     else ret 0%Z) ;;
  nr_of_entries_to_set_to_upper_bound <-
    (if has_upper_threshold self then
       lift (_step6_get_nr_of_entries_to_set_to_bound self
               (_get_mask_for_values_beyond_upper_threshold self obs_hist_sorted)
               (_get_mask_for_values_beyond_upper_threshold self cm_hist_sorted)
               (_get_mask_for_values_beyond_upper_threshold self cm_future_sorted))
     else ret 0%Z) ;;
  '(nr_of_entries_to_set_to_lower_bound, nr_of_entries_to_set_to_upper_bound) <-
    (if (Z.of_nat (length cm_future_sorted)
         <? nr_of_entries_to_set_to_lower_bound + nr_of_entries_to_set_to_upper_bound)%Z
     then lift (_step6_scale_nr_of_entries_to_set_to_bounds
                  nr_of_entries_to_set_to_lower_bound nr_of_entries_to_set_to_upper_bound
                  (length cm_future_sorted))
     else ret (nr_of_entries_to_set_to_lower_bound, nr_of_entries_to_set_to_upper_bound)) ;;
  let mask_for_entries_to_set_to_lower_bound :=
    _step6_get_mask_for_entries_to_set_to_lower_bound
      nr_of_entries_to_set_to_lower_bound cm_future_sorted in
  let mask_for_entries_to_set_to_upper_bound :=
    _step6_get_mask_for_entries_to_set_to_upper_bound
      nr_of_entries_to_set_to_upper_bound cm_future_sorted in
  mapped_vals <- lift (Np.fill_mask mapped_vals mask_for_entries_to_set_to_lower_bound
                         (lower_bound self)) ;;
  mapped_vals <- lift (Np.fill_mask mapped_vals mask_for_entries_to_set_to_upper_bound
                         (upper_bound self)) ;;
  let mask_for_entries_not_set_to_either_bound :=
    Np.map2 andb (map negb mask_for_entries_to_set_to_lower_bound)
                 (map negb mask_for_entries_to_set_to_upper_bound) in
  mapped_vals <-
    (if existsb (fun b => b) mask_for_entries_not_set_to_either_bound then
       vals <- _step6_adjust_values_between_thresholds self
                 (_get_values_between_thresholds self obs_hist_sorted)
                 (_get_values_between_thresholds self obs_future_sorted)
                 (_get_values_between_thresholds self cm_hist_sorted)
                 (Np.select mapped_vals mask_for_entries_not_set_to_either_bound)
                 (_get_values_between_thresholds self cm_future_sorted) ;;
       lift (Np.setitem_mask mapped_vals mask_for_entries_not_set_to_either_bound vals)
     else ret mapped_vals) ;;
  let reverse_sorting_idx := Np.argsort Nat.leb cm_future_argsort in
  lift (Np.getitem_index mapped_vals reverse_sorting_idx).

Definition step7 (self : t) (cm_future trend_cm_future : list float) : list float :=
  if detrending self then Np.map2 fadd cm_future trend_cm_future else cm_future.

Definition step8 (self : t) (cm_future : list float)
    (debiased_annual_cycle : option annual_cycle) (time_cm_future : list Date) :
    result (list float) :=
  if scale_by_annual_cycle_of_upper_bounds self then
    let days_of_year_cm_future := day_of_year time_cm_future in
    match debiased_annual_cycle with
    | Some cycle =>
        OK (_step8_rescale_by_annual_cycle_of_upper_bounds cm_future days_of_year_cm_future
              cycle (Np.unique days_of_year_cm_future))
    | None => Raise (TypeError "NoneType object is not subscriptable")
    end
  else OK cm_future.

(** *** [apply_location] *)

Definition _apply_on_window (self : t) (obs_hist cm_hist cm_future : list float)
    (years_obs_hist years_cm_hist years_cm_future : list Z) : M G (list float) :=
  '(obs_hist, cm_hist, cm_future) <- step2 self obs_hist cm_hist cm_future ;;
  '(obs_hist, cm_hist, cm_future, trend_cm_future) <-
    lift (step3 self obs_hist cm_hist cm_future years_obs_hist years_cm_hist years_cm_future) ;;
  '(obs_hist, cm_hist, cm_future) <- step4 self obs_hist cm_hist cm_future ;;
  obs_future <- lift (step5 self obs_hist cm_hist cm_future) ;;
  cm_future <- step6 self obs_hist obs_future cm_hist cm_future ;;
  ret (step7 self cm_future trend_cm_future).

Definition msg_no_time : string :=
  "ISIMIP runs without time-information for at least one of obs, cm_hist or cm_future.".

Definition month_is (i_month : Z) (months : list Z) : list bool :=
  map (fun m => (m =? i_month)%Z) months.

Definition apply_location (self : t) (obs cm_hist cm_future : list float)
    (time_obs time_cm_hist time_cm_future : option (list Date)) : M G (list float) :=
  _ <- lift (_check_reasonable_physical_range self obs cm_hist cm_future) ;;
  '(time_obs, time_cm_hist, time_cm_future) <-
    match time_obs, time_cm_hist, time_cm_future with
    | Some t1, Some t2, Some t3 => ret (t1, t2, t3)
    | _, _, _ =>
        _ <- warning msg_no_time ;;
        ret (infer_and_create_time_arrays_if_not_given obs cm_hist cm_future
               time_obs time_cm_hist time_cm_future)
    end ;;
  _ <- lift (_check_time_information_and_raise_error
               obs cm_hist cm_future time_obs time_cm_hist time_cm_future) ;;
  let years_obs := year time_obs in
  let years_cm_hist := year time_cm_hist in
  let years_cm_future := year time_cm_future in
  let '(obs, cm_hist, cm_future, debiased_annual_cycle) :=
    step1 self obs cm_hist cm_future time_obs time_cm_hist time_cm_future in
  debiased_cm_future <-
    (if running_window_mode self then
       let days_of_year_obs := day_of_year time_obs in
       let days_of_year_cm_hist := day_of_year time_cm_hist in
       let days_of_year_cm_future := day_of_year time_cm_future in
       for_in (RunningWindowOverDaysOfYear_use (running_window self)
                 days_of_year_cm_future years_cm_future)
         (fun '(window_center, indices_bias_corrected_values) debiased_cm_future =>
            let indices_window_obs :=
              get_indices_vals_in_window (running_window self) days_of_year_obs window_center in
            let indices_window_cm_hist :=
              get_indices_vals_in_window (running_window self) days_of_year_cm_hist
                window_center in
            let indices_window_cm_future :=
              get_indices_vals_in_window (running_window self) days_of_year_cm_future
                window_center in
            obs_w <- lift (Np.getitem_index obs indices_window_obs) ;;
            cm_hist_w <- lift (Np.getitem_index cm_hist indices_window_cm_hist) ;;
            cm_future_w <- lift (Np.getitem_index cm_future indices_window_cm_future) ;;
            years_obs_w <- lift (Np.getitem_index years_obs indices_window_obs) ;;
            years_cm_hist_w <- lift (Np.getitem_index years_cm_hist indices_window_cm_hist) ;;
            years_cm_future_w <-
              lift (Np.getitem_index years_cm_future indices_window_cm_future) ;;
            vals <- _apply_on_window self obs_w cm_hist_w cm_future_w
                      years_obs_w years_cm_hist_w years_cm_future_w ;;
            vals <- lift (Np.getitem_mask vals
                            (Np.in1d Nat.eqb indices_window_cm_future
                                     indices_bias_corrected_values)) ;;
            lift (Np.setitem_index debiased_cm_future indices_bias_corrected_values vals))
         (Np.zeros_like (Fin 0%Qc) cm_future)
     else
       let months_obs := month time_obs in
       let months_cm_hist := month time_cm_hist in
       let months_cm_future := month time_cm_future in
       for_in month_numbers
         (fun i_month debiased_cm_future =>
            let mask_i_month_in_obs := month_is i_month months_obs in
            let mask_i_month_in_cm_hist := month_is i_month months_cm_hist in
            let mask_i_month_in_cm_future := month_is i_month months_cm_future in
            obs_m <- lift (Np.getitem_mask obs mask_i_month_in_obs) ;;
            cm_hist_m <- lift (Np.getitem_mask cm_hist mask_i_month_in_cm_hist) ;;
            cm_future_m <- lift (Np.getitem_mask cm_future mask_i_month_in_cm_future) ;;
            years_obs_m <- lift (Np.getitem_mask years_obs mask_i_month_in_obs) ;;
            years_cm_hist_m <- lift (Np.getitem_mask years_cm_hist mask_i_month_in_cm_hist) ;;
            years_cm_future_m <-
              lift (Np.getitem_mask years_cm_future mask_i_month_in_cm_future) ;;
            vals <- _apply_on_window self obs_m cm_hist_m cm_future_m
                      years_obs_m years_cm_hist_m years_cm_future_m ;;
            lift (Np.setitem_mask debiased_cm_future mask_i_month_in_cm_future vals))
         (Np.zeros_like (Fin 0%Qc) cm_future)) ;;
  lift (step8 self debiased_cm_future debiased_annual_cycle time_cm_future).

End Methods.

End ISIMIP.

(** ** The package [utils] as the specification describes it *)

Module SpecUtils.

(** *** Empirical distribution functions *)

Fixpoint interp_between (xs : list Qc) (i : nat) (n1 y : Qc) : Qc :=
  match xs with
  | a :: ((b :: _) as tl) =>
      if Qcltb y b then ((nc i + (y - a) / (b - a)) / n1)%Qc
      else interp_between tl (S i) n1 y
  | _ => 1%Qc
  end.

(** Modelled from the spec: [ecdf] of [utils] is missing.  Method
    [linear_interpolation]: piecewise linear between the order statistics of
    [x], with plotting positions [i/(n-1)], flat at 0 and 1 beyond the range. *)
Definition ecdf_linear_interpolation (x : list Qc) (y : Qc) : Qc :=
  let xs := Np.sort Qcleb x in
  match xs with
  | [] => 0%Qc
  | a :: _ =>
      if Qcleb y a then 0%Qc
      else interp_between xs 0 (nc (length xs - 1)) y
  end.

(** Modelled from the spec: method [step_function], the right-continuous
    step function at the order statistics of [x]. *)
Definition ecdf_step_function (x : list Qc) (y : Qc) : Qc :=
  (nc (length (filter (fun v => Qcleb v y) x)) / nc (length x))%Qc.

(** Modelled from the spec: [iecdf] of [utils] is missing.  Method [linear]
    of the standard quantile family: position [p (n-1)] among the order
    statistics, interpolated linearly. *)
Definition iecdf_linear (x : list Qc) (p : Qc) : Qc :=
  let xs := Np.sort Qcleb x in
  let h := (p * nc (length xs - 1))%Qc in
  let j := Z.to_nat (Qfloor h) in
  let lo := nth j xs (last xs 0%Qc) in
  let hi := nth (S j) xs (last xs 0%Qc) in
  (lo + (h - zc (Qfloor h)) * (hi - lo))%Qc.

(** The kernel-density estimate and the other eight quantile estimators are
    left to the caller of the instance. *)
Definition ecdf_values (kde : list Qc -> Qc -> Qc) (method : string) (x y : list Qc) :
    list Qc :=
  if method =? "linear_interpolation" then map (ecdf_linear_interpolation x) y
  else if method =? "step_function" then map (ecdf_step_function x) y
  else map (kde x) y.

Definition iecdf_values (quantile : string -> list Qc -> Qc -> Qc) (method : string)
    (x p : list Qc) : list Qc :=
  if method =? "linear" then map (iecdf_linear x) p
  else map (quantile method x) p.

(** Modelled from the spec: [threshold_cdf_vals] of [utils] is missing.  It
    clamps probabilities into [[cdf_threshold, 1 - cdf_threshold]]; the
    default threshold derives from the sample size. *)
Definition threshold_cdf_vals (p : list Qc) (cdf_threshold : option Qc) : list Qc :=
  let c := match cdf_threshold with
           | Some c => c
           | None => (1 / nc (length p + 1))%Qc
           end in
  map (fun v => Qcmax c (Qcmin (1 - c)%Qc v)) p.

(** *** Synthesized dates *)

Definition is_leap (y : Z) : bool :=
  (((y mod 4 =? 0) && negb (y mod 100 =? 0)) || (y mod 400 =? 0))%Z.

Definition days_in_year (y : Z) : Z := if is_leap y then 366%Z else 365%Z.

Definition month_lengths (y : Z) : list Z :=
  [31; if is_leap y then 29 else 28; 31; 30; 31; 30; 31; 31; 30; 31; 30; 31]%Z.

Fixpoint month_of_day (lens : list Z) (m d : Z) : Z :=
  match lens with
  | [] => m
  | l :: ls => if (d <=? l)%Z then m else month_of_day ls (m + 1)%Z (d - l)%Z
  end.

Fixpoint consecutive_dates (n : nat) (y d : Z) : list Date :=
  match n with
  | O => []
  | S n' =>
      mkDate y (month_of_day (month_lengths y) 1%Z d) d
      :: (if (d <? days_in_year y)%Z then consecutive_dates n' y (d + 1)%Z
          else consecutive_dates n' (y + 1)%Z 1%Z)
  end.

(** Modelled from the spec: [create_array_of_consecutive_dates] of [utils] is
    missing.  The first sample falls on January 1 (of [first_year], which the
    specification leaves open) and each further sample one day later. *)
Definition create_array_of_consecutive_dates (first_year : Z) (n : nat) : list Date :=
  consecutive_dates n first_year 1%Z.

(** Modelled from the spec: [infer_and_create_time_arrays_if_not_given] of
    [utils] is missing.  If any of the three time arrays is omitted, all dates
    are synthesized. *)
Definition infer_time_arrays (first_year : Z) (n_obs n_cm_hist n_cm_future : nat)
    (time_obs time_cm_hist time_cm_future : option (list Date)) :
    list Date * list Date * list Date :=
  match time_obs, time_cm_hist, time_cm_future with
  | Some t1, Some t2, Some t3 => (t1, t2, t3)
  | _, _, _ =>
      (create_array_of_consecutive_dates first_year n_obs,
       create_array_of_consecutive_dates first_year n_cm_hist,
       create_array_of_consecutive_dates first_year n_cm_future)
  end.

(** *** Running windows *)

(** The integers [a], [a + 1], ..., [b]. *)
Definition zrange (a b : Z) : list Z :=
  map (fun k => (a + Z.of_nat k)%Z) (seq 0 (Z.to_nat (b - a + 1))).

(** The positions of [units] whose value lies in [[c - half, c + half]]. *)
Definition indices_within (units : list Z) (c half : Z) : list nat :=
  Np.where_true 0 (map (fun u => ((c - half <=? u) && (u <=? c + half))%Z) units).

(** Modelled from the spec: [RunningWindowOverYears.use] of [utils] is
    missing.  The target windows tile the available year range step by step;
    window [k] is centred at [first + step // 2 + k * step], debiases the
    years within [step // 2] of its centre and fits on the years within
    [length // 2] of it, both clipped to the available years. *)
Definition RunningWindowOverYears_use (rw : RunningWindowOverYears) (years : list Z) :
    list (list Z * list Z) :=
  match years with
  | [] => []
  | y0 :: _ =>
      let first := fold_right Z.min y0 years in
      let last := fold_right Z.max y0 years in
      let step := window_step_length_in_years rw in
      let len := window_length_in_years rw in
      let clip := filter (fun y => ((first <=? y) && (y <=? last))%Z) in
      map (fun k =>
             let center := (first + step / 2 + k * step)%Z in
             (clip (zrange (center - step / 2) (center + step / 2)),
              clip (zrange (center - len / 2) (center + len / 2))))
          (zrange 0 ((last - first) / step))
  end.

(** Modelled from the spec: [get_if_in_chosen_years] of [utils] is missing;
    the mask of the years that are among the chosen ones. *)
Definition get_if_in_chosen_years (years chosen : list Z) : list bool :=
  Np.in1d Z.eqb years chosen.

(** Modelled from the spec: [RunningWindowOverDaysOfYear.use] of [utils] is
    missing.  The target windows tile the days of the year 1..366 step by
    step; window [k] is centred at [1 + step // 2 + k * step] and debiases the
    values whose day of year is within [step // 2] of the centre. *)
Definition RunningWindowOverDaysOfYear_use (rw : RunningWindowOverDaysOfYear)
    (days_of_year years : list Z) : list (Z * list nat) :=
  let step := window_step_length_in_days rw in
  map (fun k =>
         let center := (1 + step / 2 + k * step)%Z in
         (center, indices_within days_of_year center (step / 2)))
      (zrange 0 (365 / step)).

(** The distance between two days of the year on the yearly cycle. *)
Definition circular_distance (d c : Z) : Z :=
  let r := ((d - c) mod 365)%Z in Z.min r (365 - r).

(** Modelled from the spec: [get_indices_vals_in_window] of [utils] is
    missing.  Membership in the fitting window is circular: the days within
    [length // 2] of the centre on the yearly cycle. *)
Definition get_indices_vals_in_window (rw : RunningWindowOverDaysOfYear)
    (days_of_year : list Z) (window_center : Z) : list nat :=
  Np.where_true 0
    (map (fun d => (circular_distance d window_center <=? window_length_in_days rw / 2)%Z)
         days_of_year).

(** *** Helpers of ISIMIP *)

(** Modelled from the spec: [get_years_and_yearly_means] of [utils] is
    missing; the distinct years and the mean of the values of each. *)
Definition get_years_and_yearly_means (x : list float) (years : list Z) :
    list Z * list float :=
  let unique_years := Np.unique years in
  (unique_years,
   map (fun y => fmean (Np.select x (map (fun y' => (y' =? y)%Z) years))) unique_years).

(** Modelled from the spec: [sort_array_like_another_one] of [utils] is
    missing; the values of [x] reordered to the ranks of [y]. *)
Definition sort_array_like_another_one (x y : list float) : list float :=
  let sorted := Np.sort fsortleb x in
  map (fun r => nth r sorted NaN) (Np.argsort Nat.leb (Np.argsort fsortleb y)).

End SpecUtils.

(** * Properties *)

(** ** Arrays *)

Section ArrayFacts.
Variable A : Type.

Lemma select_length (x : list A) (mask : list bool) :
  length mask = length x -> length (Np.select x mask) = Np.count_true mask.
Proof.
  revert mask; induction x as [|a x IH]; intros [|b m] Hlen; simpl in *; try discriminate; auto.
  injection Hlen as Hlen. unfold Np.count_true in *. simpl.
  destruct b; simpl; rewrite IH; auto.
Qed.

Lemma put_length (x : list A) (mask : list bool) (vals : list A) :
  length (Np.put x mask vals) = length x.
Proof.
  revert mask vals; induction x as [|a x IH]; intros [|b m] vals; simpl; auto.
  destruct b; [destruct vals|]; simpl; rewrite IH; auto.
Qed.

Lemma getitem_mask_ok (x : list A) (mask : list bool) :
  length mask = length x -> Np.getitem_mask x mask = OK (Np.select x mask).
Proof.
  intros H. unfold Np.getitem_mask. rewrite H, Nat.eqb_refl. reflexivity.
Qed.

Lemma setitem_mask_ok (x : list A) (mask : list bool) (vals : list A) :
  length mask = length x -> length vals = Np.count_true mask ->
  Np.setitem_mask x mask vals = OK (Np.put x mask vals).
Proof.
  intros H1 H2. unfold Np.setitem_mask. rewrite H1, Nat.eqb_refl. simpl.
  rewrite H2, Nat.eqb_refl. reflexivity.
Qed.

Lemma fill_mask_ok (x : list A) (mask : list bool) (v : A) :
  length mask = length x ->
  Np.fill_mask x mask v = OK (Np.put x mask (repeat v (Np.count_true mask))).
Proof.
  intros H. unfold Np.fill_mask. rewrite H, Nat.eqb_refl. reflexivity.
Qed.

Lemma map2_length (f : A -> A -> A) (a b : list A) :
  length a = length b -> length (Np.map2 f a b) = length a.
Proof.
  revert b; induction a as [|u a IH]; intros [|v b] H; simpl in *; try discriminate; auto.
Qed.

Lemma where3_length (mask : list bool) (a b : list A) :
  length mask = length b -> length a = length b -> length (Np.where3 mask a b) = length b.
Proof.
  revert a b; induction mask as [|c m IH]; intros [|u a] [|v b] H1 H2;
    simpl in *; try discriminate; auto.
Qed.

Variable leb : A -> A -> bool.

Lemma insert_sorted_perm (a : A) (l : list A) :
  Permutation (a :: l) (Np.insert_sorted leb a l).
Proof.
  induction l as [|b l IH]; simpl; auto.
  destruct (leb a b); auto.
  eapply perm_trans; [apply perm_swap|]. constructor. exact IH.
Qed.

Lemma sort_perm (l : list A) : Permutation l (Np.sort leb l).
Proof.
  induction l as [|a l IH]; simpl; auto.
  eapply perm_trans; [|apply insert_sorted_perm]. constructor. exact IH.
Qed.

Lemma sort_length (l : list A) : length (Np.sort leb l) = length l.
Proof. symmetry. apply Permutation_length, sort_perm. Qed.

End ArrayFacts.

Lemma argsort_length (A : Type) (leb : A -> A -> bool) (l : list A) :
  length (Np.argsort leb l) = length l.
Proof.
  unfold Np.argsort. rewrite length_map, sort_length, length_combine, length_seq.
  apply Nat.min_id.
Qed.

Lemma map_snd_combine (A B : Type) (x : list A) (s : list B) :
  length x = length s -> map snd (combine x s) = s.
Proof.
  revert s; induction x as [|a x IH]; intros [|n s] H; simpl in *; try discriminate; auto.
  f_equal. apply IH. congruence.
Qed.

Lemma map_fst_combine (A B : Type) (x : list A) (s : list B) :
  length x = length s -> map fst (combine x s) = x.
Proof.
  revert s; induction x as [|a x IH]; intros [|n s] H; simpl in *; try discriminate; auto.
  f_equal. apply IH. congruence.
Qed.

Lemma argsort_perm (A : Type) (leb : A -> A -> bool) (l : list A) :
  Permutation (Np.argsort leb l) (seq 0 (length l)).
Proof.
  unfold Np.argsort. eapply perm_trans.
  - apply Permutation_map. apply Permutation_sym, sort_perm.
  - rewrite map_snd_combine; auto. now rewrite length_seq.
Qed.

(** ** Rationals *)

Lemma Qcleb_le (x y : Qc) : Qcleb x y = true <-> (x <= y)%Qc.
Proof. unfold Qcleb, Qcle. apply Qle_bool_iff. Qed.

Lemma Qcltb_lt (x y : Qc) : Qcltb x y = true <-> (x < y)%Qc.
Proof.
  unfold Qcltb, Qclt. rewrite negb_true_iff. split.
  - intros H. apply Qnot_le_lt. intros Hle. apply Qle_bool_iff in Hle. congruence.
  - intros H. destruct (Qle_bool y x) eqn:E; auto.
    apply Qle_bool_iff in E. exfalso. exact (Qlt_not_le _ _ H E).
Qed.

Lemma Qcltb_ge (x y : Qc) : Qcltb x y = false <-> (y <= x)%Qc.
Proof.
  split.
  - intros H. apply Qcnot_lt_le. intros Hlt. apply Qcltb_lt in Hlt. congruence.
  - intros H. destruct (Qcltb x y) eqn:E; auto.
    apply Qcltb_lt in E. exfalso. exact (Qcle_not_lt _ _ H E).
Qed.

Lemma Qceqb_eq (x y : Qc) : Qceqb x y = true <-> x = y.
Proof.
  unfold Qceqb. split.
  - intros H. apply Qc_is_canon. now apply Qeq_bool_iff.
  - intros ->. apply Qeq_bool_iff. reflexivity.
Qed.

Lemma Qcmin_le_l (x y : Qc) : (Qcmin x y <= x)%Qc.
Proof.
  unfold Qcmin. destruct (Qcleb x y) eqn:E.
  - apply Qcle_refl.
  - apply Qclt_le_weak. apply Qcltb_lt. unfold Qcltb, Qcleb in *. now rewrite E.
Qed.

Lemma Qcmin_le_r (x y : Qc) : (Qcmin x y <= y)%Qc.
Proof.
  unfold Qcmin. destruct (Qcleb x y) eqn:E.
  - now apply Qcleb_le.
  - apply Qcle_refl.
Qed.

Lemma Qcmin_cases (x y : Qc) : Qcmin x y = x \/ Qcmin x y = y.
Proof. unfold Qcmin. destruct (Qcleb x y); auto. Qed.

(** ** Validation of the time arrays *)

(** The time arrays a call works with: the given ones, or the inferred ones
    as soon as one is missing. *)
Definition times_used {U : Utils} {A : Type} (obs cm_hist cm_future : list A)
    (time_obs time_cm_hist time_cm_future : option (list Date)) :
    list Date * list Date * list Date :=
  match time_obs, time_cm_hist, time_cm_future with
  | Some t1, Some t2, Some t3 => (t1, t2, t3)
  | _, _, _ =>
      infer_and_create_time_arrays_if_not_given obs cm_hist cm_future
        time_obs time_cm_hist time_cm_future
  end.

Definition size_mismatch {A : Type} (obs cm_hist cm_future : list A)
    (times : list Date * list Date * list Date) : Prop :=
  length obs <> length (fst (fst times))
  \/ length cm_hist <> length (snd (fst times))
  \/ length cm_future <> length (snd times).

Lemma size_mismatch_eqb (A : Type) (obs cm_hist cm_future : list A)
    (t1 t2 t3 : list Date) :
  size_mismatch obs cm_hist cm_future (t1, t2, t3) ->
  negb (length obs =? length t1)%nat
  || negb (length cm_hist =? length t2)%nat
  || negb (length cm_future =? length t3)%nat = true.
Proof.
  unfold size_mismatch; simpl. intros H.
  destruct (Nat.eqb_spec (length obs) (length t1));
    destruct (Nat.eqb_spec (length cm_hist) (length t2));
    destruct (Nat.eqb_spec (length cm_future) (length t3)); simpl; auto.
  exfalso. intuition.
Qed.

Section TimeValidation.
Context {U : Utils} {G : Type} {R : NumpyRandom G} {K : ISIMIP.Kernels G}.

Lemma CDFt_size_mismatch (self : CDFt.t) (obs cm_hist cm_future : list Qc)
    (time_obs time_cm_hist time_cm_future : option (list Date)) (w : World G) :
  size_mismatch obs cm_hist cm_future
    (times_used obs cm_hist cm_future time_obs time_cm_hist time_cm_future) ->
  fst (CDFt.apply_location self obs cm_hist cm_future time_obs time_cm_hist time_cm_future w)
  = Raise (ValueError msg_time_dimensions)
  /\ rng (snd (CDFt.apply_location self obs cm_hist cm_future
                 time_obs time_cm_hist time_cm_future w)) = rng w.
Proof.
  unfold CDFt.apply_location, times_used. intros H.
  destruct time_obs as [t1|], time_cm_hist as [t2|], time_cm_future as [t3|];
    unfold bind, ret, lift, warning; simpl;
    try destruct (infer_and_create_time_arrays_if_not_given _ _ _ _ _ _) as [[t1' t2'] t3'];
    unfold CDFt._check_time_information_and_raise_error;
    rewrite (size_mismatch_eqb H); simpl; auto.
Qed.

Lemma QDM_size_mismatch (self : QDM.t) (obs cm_hist cm_future : list Qc)
    (time_obs time_cm_hist time_cm_future : option (list Date)) (w : World G) :
  size_mismatch obs cm_hist cm_future
    (times_used obs cm_hist cm_future time_obs time_cm_hist time_cm_future) ->
  fst (QDM.apply_location self obs cm_hist cm_future time_obs time_cm_hist time_cm_future w)
  = Raise (ValueError msg_time_dimensions)
  /\ rng (snd (QDM.apply_location self obs cm_hist cm_future
                 time_obs time_cm_hist time_cm_future w)) = rng w.
Proof.
  unfold QDM.apply_location, times_used. intros H.
  destruct time_obs as [t1|], time_cm_hist as [t2|], time_cm_future as [t3|];
    unfold bind, ret, lift, warning; simpl;
    try destruct (infer_and_create_time_arrays_if_not_given _ _ _ _ _ _) as [[t1' t2'] t3'];
    unfold QDM._check_time_information_and_raise_error;
    rewrite (size_mismatch_eqb H); simpl; auto.
Qed.

Lemma ISIMIP_size_mismatch (self : ISIMIP.t) (obs cm_hist cm_future : list float)
    (time_obs time_cm_hist time_cm_future : option (list Date)) (w : World G) :
  size_mismatch obs cm_hist cm_future
    (times_used obs cm_hist cm_future time_obs time_cm_hist time_cm_future) ->
  (exists msg,
     fst (ISIMIP.apply_location self obs cm_hist cm_future
            time_obs time_cm_hist time_cm_future w) = Raise (ValueError msg)
     /\ (ISIMIP._check_reasonable_physical_range self obs cm_hist cm_future = OK tt ->
         msg = msg_time_dimensions))
  /\ rng (snd (ISIMIP.apply_location self obs cm_hist cm_future
                 time_obs time_cm_hist time_cm_future w)) = rng w.
Proof.
  unfold ISIMIP.apply_location, times_used. intros H.
  unfold bind at 1. unfold lift at 1.
  destruct (ISIMIP._check_reasonable_physical_range self obs cm_hist cm_future) as [[]|e] eqn:Hr.
  - destruct time_obs as [t1|], time_cm_hist as [t2|], time_cm_future as [t3|];
      unfold bind, ret, lift, warning; simpl;
      try destruct (infer_and_create_time_arrays_if_not_given _ _ _ _ _ _) as [[t1' t2'] t3'];
      unfold ISIMIP._check_time_information_and_raise_error;
      rewrite (size_mismatch_eqb H); simpl; split; eauto.
  - simpl. split; auto.
    unfold ISIMIP._check_reasonable_physical_range in Hr.
    destruct (ISIMIP.reasonable_physical_range self) as [r|]; [|discriminate].
    repeat match type of Hr with
           | (if ?c then _ else _) = _ => destruct c
           end; inversion Hr; subst; eexists; split; eauto; discriminate.
Qed.

End TimeValidation.

(** ** Instances used to evaluate the model *)

Lemma consecutive_dates_length (n : nat) (y d : Z) :
  length (SpecUtils.consecutive_dates n y d) = n.
Proof.
  revert y d; induction n as [|n IH]; intros y d; simpl; auto.
  destruct (d <? SpecUtils.days_in_year y)%Z; rewrite IH; reflexivity.
Qed.

Lemma insert_unique_length (a : Z) (l : list Z) :
  (length (Np.insert_unique a l) <= S (length l))%nat.
Proof.
  induction l as [|b l IH]; simpl; auto.
  destruct (a <? b)%Z; simpl; auto.
  destruct (a =? b)%Z; simpl; auto. lia.
Qed.

Lemma unique_length (x : list Z) : (length (Np.unique x) <= length x)%nat.
Proof.
  induction x as [|a x IH]; simpl; auto.
  eapply Nat.le_trans; [apply insert_unique_length|]. lia.
Qed.

(** The instance of [Utils] described by the specification.  What the
    specification leaves open is a parameter: the year the synthesized dates
    start in, the kernel-density estimate, and the quantile estimators other
    than [linear]. *)
Definition spec_utils (first_year : Z) (kde : list Qc -> Qc -> Qc)
    (quantile : string -> list Qc -> Qc -> Qc) : Utils.
Proof.
  refine {|
    ecdf_values := SpecUtils.ecdf_values kde;
    iecdf_values := SpecUtils.iecdf_values quantile;
    threshold_cdf_vals := SpecUtils.threshold_cdf_vals;
    infer_time_arrays := SpecUtils.infer_time_arrays first_year;
    RunningWindowOverYears_use := SpecUtils.RunningWindowOverYears_use;
    get_if_in_chosen_years := SpecUtils.get_if_in_chosen_years;
    RunningWindowOverDaysOfYear_use := SpecUtils.RunningWindowOverDaysOfYear_use;
    get_indices_vals_in_window := SpecUtils.get_indices_vals_in_window;
    get_years_and_yearly_means := SpecUtils.get_years_and_yearly_means;
    sort_array_like_another_one := SpecUtils.sort_array_like_another_one
  |}.
  - intros m x y. unfold SpecUtils.ecdf_values.
    destruct (m =? "linear_interpolation"); [|destruct (m =? "step_function")];
      apply length_map.
  - intros m x p. unfold SpecUtils.iecdf_values.
    destruct (m =? "linear"); apply length_map.
  - intros p c. apply length_map.
  - intros n1 n2 n3 t2 t3. simpl. apply consecutive_dates_length.
  - intros n1 n2 n3 t1 t3. destruct t1; simpl; apply consecutive_dates_length.
  - intros n1 n2 n3 t1 t2. destruct t1, t2; simpl; apply consecutive_dates_length.
  - intros ys chosen. apply length_map.
  - intros x ys. simpl. apply unique_length.
  - intros x y. unfold SpecUtils.sort_array_like_another_one.
    now rewrite length_map, !argsort_length.
Defined.

(** A stand-in for NumPy's generator, for evaluating examples: the state is a
    counter [g] and the [k]-th number of the stream is [(5 k mod 8) / 8]. *)
Definition sample_unit (k : nat) : Qc := qc ((Z.of_nat k * 5) mod 8) 8.

Definition sample_uniform (lo hi : Qc) (n g : nat) : list Qc * nat :=
  (map (fun i => (lo + (hi - lo) * sample_unit (g + i))%Qc) (seq 0 n), (g + n)%nat).

Lemma sample_unit_range (k : nat) : (0 <= sample_unit k)%Qc /\ (sample_unit k < 1)%Qc.
Proof.
  pose proof (Z.mod_pos_bound (Z.of_nat k * 5) 8 ltac:(lia)) as Hb.
  pose proof (Qred_correct (((Z.of_nat k * 5) mod 8) # 8)) as E.
  unfold sample_unit, qc, Qcle, Qclt. unfold Q2Qc, this.
  split; rewrite E; [unfold Qle | unfold Qlt]; simpl; lia.
Qed.

Lemma sample_uniform_range (lo hi : Qc) (n g : nat) :
  (lo < hi)%Qc ->
  Forall (fun v => (lo <= v)%Qc /\ (v < hi)%Qc) (fst (sample_uniform lo hi n g)).
Proof.
  intros Hlt. simpl. apply Forall_forall. intros v Hv.
  apply in_map_iff in Hv. destruct Hv as [i [<- _]].
  destruct (sample_unit_range (g + i)) as [H0 H1].
  assert (Hd : (0 < hi - lo)%Qc).
  { apply Qclt_minus_iff in Hlt. exact Hlt. }
  split.
  - apply Qcle_minus_iff.
    replace (lo + (hi - lo) * sample_unit (g + i) + - lo)%Qc
      with (sample_unit (g + i) * (hi - lo))%Qc by ring.
    replace 0%Qc with (0 * (hi - lo))%Qc by ring.
    apply Qcmult_le_compat_r; auto. now apply Qclt_le_weak.
  - apply Qclt_minus_iff.
    replace (hi + - (lo + (hi - lo) * sample_unit (g + i)))%Qc
      with ((1 + - sample_unit (g + i)) * (hi - lo))%Qc by ring.
    replace 0%Qc with (0 * (hi - lo))%Qc by ring.
    apply Qcmult_lt_compat_r; auto. now apply Qclt_minus_iff in H1.
Qed.

Lemma sample_random_range (n g : nat) :
  Forall (fun v => (0 <= v)%Qc /\ (v < 1)%Qc) (fst (sample_uniform 0 1 n g)).
Proof. apply sample_uniform_range. reflexivity. Qed.

Lemma sample_uniform_length (lo hi : Qc) (n g : nat) :
  length (fst (sample_uniform lo hi n g)) = n.
Proof. simpl. now rewrite length_map, length_seq. Qed.

Definition sample_random : NumpyRandom nat :=
  {| random_sample := sample_uniform 0%Qc 1%Qc;
     uniform_sample := sample_uniform;
     random_sample_length := sample_uniform_length 0%Qc 1%Qc;
     uniform_sample_length := sample_uniform_length;
     random_sample_range := sample_random_range;
     uniform_sample_range := sample_uniform_range |}.

(** A fitted-distribution object for examples: the uniform distribution on the
    range of the data. *)
Definition sample_distribution : Distribution :=
  {| params := Qc * Qc;
     fit := fun data =>
       match data with
       | [] => (0%Qc, 1%Qc)
       | a :: l => (fold_left Qcmin l a, fold_left Qcmax l a)
       end;
     cdf := fun x p => ((x - fst p) / (snd p - fst p))%Qc;
     ppf := fun q p => (fst p + q * (snd p - fst p))%Qc |}.

(** Kernels for examples: a given regression, the observations as their own
    pseudo future observations, and an identity mapping between the
    thresholds. *)
Definition sample_kernels (G : Type) (regression : list Z -> list float -> float * float) :
    ISIMIP.Kernels G :=
  {| ISIMIP.linregress := regression;
     ISIMIP.interp1d_extrapolate := fun _ _ q => map nc q;
     ISIMIP.annual_cycle := unit;
     ISIMIP._step1_get_annual_cycle_of_upper_bounds := fun _ _ days => (tt, Np.unique days);
     ISIMIP._step1_calculate_debiased_annual_cycle_of_upper_bounds :=
       fun _ _ _ _ _ _ => tt;
     ISIMIP._step1_scale_by_annual_cycle_of_upper_bounds := fun vals _ _ _ => vals;
     ISIMIP._step5_transfer_trend := fun _ obs_hist _ _ => OK obs_hist;
     ISIMIP._step6_adjust_values_between_thresholds := fun _ _ _ _ vals _ => ret vals;
     ISIMIP._step8_rescale_by_annual_cycle_of_upper_bounds := fun vals _ _ _ => vals;
     ISIMIP.interp1d_extrapolate_length := fun _ _ q => length_map nc q |}.

Definition sample_utils : Utils :=
  spec_utils 2000 (fun x => SpecUtils.ecdf_step_function x)
             (fun _ x => SpecUtils.iecdf_linear x).

Definition world0 : World nat := mkWorld 0%nat [].

(** ** QuantileDeltaMapping: the additive delta *)

Lemma map2_nth (A : Type) (f : A -> A -> A) (a b : list A) (i : nat) (d : A) :
  (i < length a)%nat -> (i < length b)%nat ->
  nth i (Np.map2 f a b) d = f (nth i a d) (nth i b d).
Proof.
  revert b i; induction a as [|u a IH]; intros [|v b] [|i] Ha Hb; simpl in *; try lia; auto.
  apply IH; lia.
Qed.

Lemma ppf_all_nth {U : Utils} (self : QDM.t) (tau_t : list Qc)
    (fitted : params (QDM.distribution self)) (i : nat) :
  (i < length tau_t)%nat ->
  nth i (QDM.ppf_all self tau_t fitted) 0%Qc
  = ppf (QDM.distribution self) (nth i tau_t 0%Qc) fitted.
Proof.
  intros Hi. unfold QDM.ppf_all.
  rewrite (nth_indep _ 0%Qc (ppf (QDM.distribution self) 0%Qc fitted)).
  - apply (map_nth (fun p => ppf (QDM.distribution self) p fitted)).
  - now rewrite length_map.
Qed.

Lemma ecdf_nonempty {U : Utils} (x y : list Qc) (method : string) :
  x <> [] -> ecdf x y method = OK (ecdf_values method x y).
Proof. destruct x; [congruence | reflexivity]. Qed.

Lemma iecdf_nonempty {U : Utils} (x p : list Qc) (method : string) :
  x <> [] -> iecdf x p method = OK (iecdf_values method x p).
Proof. destruct x; [congruence | reflexivity]. Qed.

Section QDMFacts.
Context {U : Utils}.


End QDMFacts.

Definition sample_qdm : QDM.t :=
  QDM.__attrs_post_init__
    (QDM.mk sample_distribution "absolute" false (qc 5 8640000) false 31 1 false 91 31
            "unknown" "linear_interpolation" None).


(** ** CDFt: stochastic singularity removal *)

Definition msg_min_of_empty : string :=
  "zero-size array to reduction operation minimum which has no identity".

(** A series without a strictly positive value. *)
Definition lacks_positive (x : list Qc) : Prop := Forall (fun v => (v <= 0)%Qc) x.

Definition has_positive (x : list Qc) : Prop := Exists (fun v => (0 < v)%Qc) x.

Definition valid_delta_shift (self : CDFt.t) : Prop :=
  CDFt.delta_shift self = "additive"
  \/ CDFt.delta_shift self = "multiplicative"
  \/ CDFt.delta_shift self = "no_shift".

Lemma select_map_filter (A : Type) (p : A -> bool) (x : list A) :
  Np.select x (map p x) = filter p x.
Proof.
  induction x as [|a x IH]; simpl; auto. destruct (p a); now rewrite IH.
Qed.

Lemma positive_part_lacks (x : list Qc) : lacks_positive x -> CDFt.positive_part x = [].
Proof.
  unfold CDFt.positive_part. rewrite select_map_filter.
  induction 1 as [|v x Hv _ IH]; simpl; auto.
  apply Qcltb_ge in Hv. now rewrite Hv.
Qed.

Lemma positive_part_has (x : list Qc) : has_positive x -> CDFt.positive_part x <> [].
Proof.
  unfold CDFt.positive_part. rewrite select_map_filter.
  induction 1 as [v x Hv|v x _ IH]; simpl.
  - apply Qcltb_lt in Hv. now rewrite Hv.
  - destruct (Qcltb 0 v); [discriminate | exact IH].
Qed.

Lemma positive_part_In (x : list Qc) (v : Qc) :
  In v (CDFt.positive_part x) <-> In v x /\ (0 < v)%Qc.
Proof.
  unfold CDFt.positive_part. rewrite select_map_filter, filter_In.
  now rewrite Qcltb_lt.
Qed.

Lemma fold_left_Qcmin_spec (l : list Qc) (a : Qc) :
  (fold_left Qcmin l a = a \/ In (fold_left Qcmin l a) l)
  /\ (fold_left Qcmin l a <= a)%Qc
  /\ Forall (fun v => (fold_left Qcmin l a <= v)%Qc) l.
Proof.
  revert a; induction l as [|b l IH]; intros a; simpl.
  - repeat split; auto. apply Qcle_refl.
  - destruct (IH (Qcmin a b)) as [Hin [Hle Hall]]. repeat split.
    + destruct Hin as [Hin|Hin]; auto.
      rewrite Hin. destruct (Qcmin_cases a b) as [E|E]; rewrite E; auto.
    + eapply Qcle_trans; [exact Hle | apply Qcmin_le_l].
    + constructor; auto. eapply Qcle_trans; [exact Hle | apply Qcmin_le_r].
Qed.

Lemma np_min_spec (x : list Qc) :
  x <> [] ->
  exists m, Np.min x = OK m /\ In m x /\ Forall (fun v => (m <= v)%Qc) x.
Proof.
  destruct x as [|a l]; [congruence|]. intros _. simpl.
  destruct (fold_left_Qcmin_spec l a) as [Hin [Hle Hall]].
  eexists. split; [reflexivity|]. split.
  - destruct Hin as [Hin|Hin]; [left; now rewrite Hin | right; exact Hin].
  - constructor; auto.
Qed.

(** The threshold of a chunk whose three series each have a positive value is
    the least positive value among them. *)
Lemma get_threshold_spec (obs cm_hist cm_future : list Qc) :
  has_positive obs -> has_positive cm_hist -> has_positive cm_future ->
  exists threshold,
    CDFt._get_threshold obs cm_hist cm_future = OK threshold
    /\ (0 < threshold)%Qc
    /\ In threshold (obs ++ cm_hist ++ cm_future)
    /\ forall v, In v (obs ++ cm_hist ++ cm_future) -> (0 < v)%Qc -> (threshold <= v)%Qc.
Proof.
  intros Ho Hh Hf. unfold CDFt._get_threshold.
  destruct (np_min_spec (positive_part_has Ho)) as [a [Ea [Ia La]]].
  destruct (np_min_spec (positive_part_has Hh)) as [b [Eb [Ib Lb]]].
  destruct (np_min_spec (positive_part_has Hf)) as [c [Ec [Ic Lc]]].
  rewrite Ea, Eb, Ec. cbn [rbind]. eexists. split; [reflexivity|].
  apply positive_part_In in Ia, Ib, Ic.
  rewrite Forall_forall in La, Lb, Lc.
  assert (Hab_a : (Qcmin (Qcmin a b) c <= a)%Qc).
  { eapply Qcle_trans; [apply Qcmin_le_l | apply Qcmin_le_l]. }
  assert (Hab_b : (Qcmin (Qcmin a b) c <= b)%Qc).
  { eapply Qcle_trans; [apply Qcmin_le_l | apply Qcmin_le_r]. }
  assert (Hab_c : (Qcmin (Qcmin a b) c <= c)%Qc) by apply Qcmin_le_r.
  split; [|split].
  - destruct (Qcmin_cases (Qcmin a b) c) as [E|E]; rewrite E; [|tauto].
    destruct (Qcmin_cases a b) as [E'|E']; rewrite E'; tauto.
  - rewrite !in_app_iff.
    destruct (Qcmin_cases (Qcmin a b) c) as [E|E]; rewrite E; [|tauto].
    destruct (Qcmin_cases a b) as [E'|E']; rewrite E'; tauto.
  - intros v Hv Hpos. rewrite !in_app_iff in Hv.
    destruct Hv as [Hv|[Hv|Hv]].
    + eapply Qcle_trans; [exact Hab_a|]. apply La. now apply positive_part_In.
    + eapply Qcle_trans; [exact Hab_b|]. apply Lb. now apply positive_part_In.
    + eapply Qcle_trans; [exact Hab_c|]. apply Lc. now apply positive_part_In.
Qed.

(** A chunk in which one series has no positive value has no threshold. *)
Lemma get_threshold_fails (obs cm_hist cm_future : list Qc) :
  lacks_positive obs \/ lacks_positive cm_hist \/ lacks_positive cm_future ->
  CDFt._get_threshold obs cm_hist cm_future = Raise (ValueError msg_min_of_empty).
Proof.
  intros H. unfold CDFt._get_threshold.
  destruct (CDFt.positive_part obs) as [|a l] eqn:Eo; [reflexivity|].
  destruct (CDFt.positive_part cm_hist) as [|a' l'] eqn:Eh; [reflexivity|].
  destruct (CDFt.positive_part cm_future) as [|a'' l''] eqn:Ef; [reflexivity|].
  exfalso. destruct H as [H|[H|H]]; apply positive_part_lacks in H; congruence.
Qed.

Lemma lacks_or_has_positive (x : list Qc) : lacks_positive x \/ has_positive x.
Proof.
  induction x as [|v x [IH|IH]].
  - left. constructor.
  - destruct (Qclt_le_dec 0 v) as [Hv|Hv].
    + right. now constructor.
    + left. now constructor.
  - right. now constructor 2.
Qed.

(** [x'] is [x] with its zeros replaced by values of [[0, threshold)]. *)
Definition zeros_randomized (threshold : Qc) (x x' : list Qc) : Prop :=
  Forall2 (fun v v' => if Qceqb v 0%Qc then (0 <= v')%Qc /\ (v' < threshold)%Qc else v' = v)
          x x'.

Lemma where3_zeros_randomized (threshold : Qc) (x draws : list Qc) :
  length draws = length x ->
  Forall (fun v => (0 <= v)%Qc /\ (v < threshold)%Qc) draws ->
  zeros_randomized threshold x (Np.where3 (map (fun v => Qceqb v 0%Qc) x) draws x).
Proof.
  unfold zeros_randomized.
  revert draws; induction x as [|v x IH]; intros [|d draws] Hlen Hall;
    simpl in *; try discriminate; constructor.
  - inversion Hall; subst. destruct (Qceqb v 0); auto.
  - apply IH; [congruence | now inversion Hall].
Qed.

Lemma has_lacks_positive (x : list Qc) : has_positive x -> lacks_positive x -> False.
Proof.
  intros Hh Hl. apply Exists_exists in Hh. destruct Hh as [v [Hin Hv]].
  unfold lacks_positive in Hl. rewrite Forall_forall in Hl.
  exact (Qcle_not_lt _ _ (Hl v Hin) Hv).
Qed.

Lemma has_positive_nonempty (x : list Qc) : has_positive x -> x <> [].
Proof. intros H Hx. subst. inversion H. Qed.

Lemma Forall2_length_eq (A B : Type) (P : A -> B -> Prop) (l : list A) (l' : list B) :
  Forall2 P l l' -> length l = length l'.
Proof. induction 1; simpl; auto. Qed.

Section CDFtFacts.
Context {U : Utils} {G : Type} {R : NumpyRandom G}.

Lemma np_random_uniform_run (lo hi : Qc) (n : nat) (w : World G) :
  np_random_uniform lo hi n w
  = (OK (fst (uniform_sample lo hi n (rng w))),
     mkWorld (snd (uniform_sample lo hi n (rng w))) (warnings w)).
Proof. unfold np_random_uniform. now destruct (uniform_sample lo hi n (rng w)). Qed.

Lemma randomize_zero_values_spec (x : list Qc) (threshold : Qc) (w : World G) :
  (0 < threshold)%Qc ->
  exists x' w',
    CDFt._randomize_zero_values_between_zero_and_threshold x threshold w = (OK x', w')
    /\ zeros_randomized threshold x x'.
Proof.
  intros Hpos. unfold CDFt._randomize_zero_values_between_zero_and_threshold, bind, ret.
  rewrite np_random_uniform_run. do 2 eexists. split; [reflexivity|].
  apply where3_zeros_randomized.
  - apply uniform_sample_length.
  - now apply uniform_sample_range.
Qed.

Lemma apply_CDFt_mapping_ok (self : CDFt.t) (obs cm_hist cm_future : list Qc) :
  valid_delta_shift self -> obs <> [] -> cm_hist <> [] -> cm_future <> [] ->
  exists mapped,
    CDFt._apply_CDFt_mapping self obs cm_hist cm_future = OK mapped
    /\ length mapped = length cm_future.
Proof.
  intros Hv Ho Hh Hf. unfold CDFt._apply_CDFt_mapping.
  assert (Hmap : forall (g : Qc -> Qc) (l : list Qc), l <> [] -> map g l <> []).
  { intros g [|a l] H; [congruence | discriminate]. }
  destruct Hv as [E|[E|E]]; rewrite E; cbn [String.eqb Ascii.eqb Bool.eqb rbind];
    repeat (progress (rewrite ?ecdf_nonempty, ?iecdf_nonempty by auto; cbn [rbind]));
    (eexists; split; [reflexivity|]);
    now rewrite iecdf_values_length, ecdf_values_length, iecdf_values_length,
                ecdf_values_length, ?length_map.
Qed.

(** What one chunk undergoes when [SSR] is on and every series has a positive
    value. *)
Lemma SSR_chunk_spec (self : CDFt.t) (obs cm_hist cm_future : list Qc) (w : World G) :
  CDFt.SSR self = true -> valid_delta_shift self ->
  has_positive obs -> has_positive cm_hist -> has_positive cm_future ->
  exists threshold obs' cm_hist' cm_future' mapped w',
    CDFt._get_threshold obs cm_hist cm_future = OK threshold
    /\ CDFt._apply_SSR_steps_before_adjustment obs cm_hist cm_future w
       = (OK (obs', cm_hist', cm_future', threshold), w')
    /\ zeros_randomized threshold obs obs'
    /\ zeros_randomized threshold cm_hist cm_hist'
    /\ zeros_randomized threshold cm_future cm_future'
    /\ CDFt._apply_CDFt_mapping self obs' cm_hist' cm_future' = OK mapped
    /\ length mapped = length cm_future
    /\ CDFt._apply_on_month_and_window self obs cm_hist cm_future w
       = (OK (CDFt._set_values_below_threshold_to_zero mapped threshold), w').
Proof.
  intros Hssr Hv Ho Hh Hf.
  destruct (get_threshold_spec Ho Hh Hf) as [thr [Ethr [Hpos _]]].
  destruct (randomize_zero_values_spec obs w Hpos) as [obs' [w1 [E1 Z1]]].
  destruct (randomize_zero_values_spec cm_hist w1 Hpos) as [hist' [w2 [E2 Z2]]].
  destruct (randomize_zero_values_spec cm_future w2 Hpos) as [fut' [w3 [E3 Z3]]].
  assert (Lo : length obs = length obs') by exact (Forall2_length_eq Z1).
  assert (Lh : length cm_hist = length hist') by exact (Forall2_length_eq Z2).
  assert (Lf : length cm_future = length fut') by exact (Forall2_length_eq Z3).
  assert (No : obs' <> []).
  { apply has_positive_nonempty in Ho. destruct obs, obs'; simpl in *; congruence. }
  assert (Nh : hist' <> []).
  { apply has_positive_nonempty in Hh. destruct cm_hist, hist'; simpl in *; congruence. }
  assert (Nf : fut' <> []).
  { apply has_positive_nonempty in Hf. destruct cm_future, fut'; simpl in *; congruence. }
  destruct (apply_CDFt_mapping_ok Hv No Nh Nf) as [mapped [Em Lm]].
  exists thr, obs', hist', fut', mapped, w3.
  unfold CDFt._apply_on_month_and_window, CDFt._apply_SSR_steps_before_adjustment.
  rewrite Hssr, Ethr. unfold bind, lift, ret.
  rewrite E1; cbn beta iota. rewrite E2; cbn beta iota. rewrite E3; cbn beta iota.
  rewrite Em.
  repeat split; auto. congruence.
Qed.

Lemma set_values_below_threshold_spec (x : list Qc) (threshold : Qc) :
  Forall (fun v => v = 0%Qc \/ (threshold <= v)%Qc)
         (CDFt._set_values_below_threshold_to_zero x threshold).
Proof.
  unfold CDFt._set_values_below_threshold_to_zero. apply Forall_forall.
  intros v Hin. apply in_map_iff in Hin. destruct Hin as [u [<- _]].
  destruct (Qcltb u threshold) eqn:E; auto. right. now apply Qcltb_ge.
Qed.


End CDFtFacts.

(** ** CDFt: chunks without positive values *)

(** The chunks [_apply_on_window] hands to [_apply_on_month_and_window]: the
    twelve month strata, or the series as a whole. *)
Definition CDFt_chunks (self : CDFt.t) (obs cm_hist cm_future : list Qc)
    (time_obs time_cm_hist time_cm_future : list Date) :
    list (list Qc * list Qc * list Qc) :=
  if CDFt.apply_by_month self then
    map (fun i_month =>
           (Np.select obs (CDFt.month_is i_month time_obs),
            Np.select cm_hist (CDFt.month_is i_month time_cm_hist),
            Np.select cm_future (CDFt.month_is i_month time_cm_future)))
        month_numbers
  else [(obs, cm_hist, cm_future)].

Definition chunk_lacks_positive (c : list Qc * list Qc * list Qc) : Prop :=
  lacks_positive (fst (fst c)) \/ lacks_positive (snd (fst c)) \/ lacks_positive (snd c).

Section CDFtChunks.
Context {U : Utils} {G : Type} {R : NumpyRandom G}.

Lemma SSR_chunk_fails (self : CDFt.t) (obs cm_hist cm_future : list Qc) (w : World G) :
  CDFt.SSR self = true ->
  chunk_lacks_positive (obs, cm_hist, cm_future) ->
  CDFt._apply_on_month_and_window self obs cm_hist cm_future w
  = (Raise (ValueError msg_min_of_empty), w).
Proof.
  intros Hssr H. unfold chunk_lacks_positive in H. simpl in H.
  unfold CDFt._apply_on_month_and_window, CDFt._apply_SSR_steps_before_adjustment.
  rewrite Hssr, (get_threshold_fails H). reflexivity.
Qed.

Lemma month_is_length (i_month : Z) (time : list Date) :
  length (CDFt.month_is i_month time) = length time.
Proof. unfold CDFt.month_is, month. now rewrite !length_map. Qed.

Variable self : CDFt.t.
Variables obs cm_hist cm_future : list Qc.
Variables time_obs time_cm_hist time_cm_future : list Date.
Hypothesis Hssr : CDFt.SSR self = true.
Hypothesis Hshift : valid_delta_shift self.
Hypothesis Hobs : length time_obs = length obs.
Hypothesis Hhist : length time_cm_hist = length cm_hist.
Hypothesis Hfut : length time_cm_future = length cm_future.

(** One turn of the loop over the months. *)
Let month_body (i_month : Z) (debiased_cm_future : list Qc) : M G (list Qc) :=
  let mask_i_month_in_obs_hist := CDFt.month_is i_month time_obs in
  let mask_i_month_in_cm_hist := CDFt.month_is i_month time_cm_hist in
  let mask_i_month_in_cm_future := CDFt.month_is i_month time_cm_future in
  obs_m <- lift (Np.getitem_mask obs mask_i_month_in_obs_hist) ;;
  cm_hist_m <- lift (Np.getitem_mask cm_hist mask_i_month_in_cm_hist) ;;
  cm_future_m <- lift (Np.getitem_mask cm_future mask_i_month_in_cm_future) ;;
  vals <- CDFt._apply_on_month_and_window self obs_m cm_hist_m cm_future_m ;;
  lift (Np.setitem_mask debiased_cm_future mask_i_month_in_cm_future vals).

Let month_chunk (i_month : Z) : list Qc * list Qc * list Qc :=
  (Np.select obs (CDFt.month_is i_month time_obs),
   Np.select cm_hist (CDFt.month_is i_month time_cm_hist),
   Np.select cm_future (CDFt.month_is i_month time_cm_future)).

Lemma month_body_run (i_month : Z) (acc : list Qc) (w : World G) :
  length acc = length cm_future ->
  (chunk_lacks_positive (month_chunk i_month) /\
   month_body i_month acc w = (Raise (ValueError msg_min_of_empty), w))
  \/ (~ chunk_lacks_positive (month_chunk i_month) /\
      exists acc' w', month_body i_month acc w = (OK acc', w')
                      /\ length acc' = length cm_future).
Proof.
  intros Hacc. unfold month_body, month_chunk, bind, lift.
  rewrite !getitem_mask_ok by (now rewrite month_is_length).
  set (o := Np.select obs _). set (h := Np.select cm_hist _).
  set (f := Np.select cm_future _).
  destruct (lacks_or_has_positive o) as [Lo|Ho];
    [left; split; [now left | rewrite SSR_chunk_fails; auto; now left]|].
  destruct (lacks_or_has_positive h) as [Lh|Hh];
    [left; split; [right; now left | rewrite SSR_chunk_fails; auto; right; now left]|].
  destruct (lacks_or_has_positive f) as [Lf|Hf];
    [left; split; [right; now right | rewrite SSR_chunk_fails; auto; right; now right]|].
  right. split.
  - intros [L|[L|L]]; simpl in L; eauto using has_lacks_positive.
  - destruct (SSR_chunk_spec w Hssr Hshift Ho Hh Hf)
      as [thr [o' [h' [f' [mapped [w' [_ [_ [_ [_ [_ [_ [Lm Erun]]]]]]]]]]]]].
    rewrite Erun. rewrite setitem_mask_ok.
    + do 2 eexists. split; [reflexivity|]. now rewrite put_length.
    + now rewrite month_is_length, Hacc.
    + unfold CDFt._set_values_below_threshold_to_zero. rewrite length_map, Lm.
      unfold f. apply select_length. now rewrite month_is_length.
Qed.

Lemma month_loop_fails (ms : list Z) (acc : list Qc) (w : World G) :
  length acc = length cm_future ->
  Exists (fun i_month => chunk_lacks_positive (month_chunk i_month)) ms ->
  fst (for_in ms month_body acc w) = Raise (ValueError msg_min_of_empty).
Proof.
  revert acc w; induction ms as [|i ms IH]; intros acc w Hacc Hex.
  - inversion Hex.
  - simpl. unfold bind.
    destruct (@month_body_run i acc w Hacc) as [[_ E]|[Hn [acc' [w' [E Hacc']]]]]; rewrite E.
    + reflexivity.
    + apply IH; auto. inversion Hex; subst; [contradiction | assumption].
Qed.


End CDFtChunks.

(** ** Evaluating the model *)

(** The fractions behind a result, for comparing results by computation. *)
Definition result_values (r : result (list Qc)) : option (list Q) :=
  match r with
  | OK l => Some (map this l)
  | Raise _ => None
  end.

Lemma map_this_inj (l l' : list Qc) : map this l = map this l' -> l = l'.
Proof.
  revert l'; induction l as [|q l IH]; intros [|q' l'] H; simpl in *; try discriminate; auto.
  injection H as Hq Hl. f_equal; [now apply Qc_decomp | now apply IH].
Qed.

Lemma result_values_OK (r : result (list Qc)) (l : list Qc) :
  result_values r = Some (map this l) -> r = OK l.
Proof.
  destruct r as [l'|e]; simpl; [|discriminate].
  intros H. injection H as H. f_equal. now apply map_this_inj.
Qed.

(** ** CDFt: the quantile-quantile mapping *)

(** The configuration of the identity case: the defaults, with no shift, no
    [SSR], no running window and no split by month. *)
Definition CDFt_identity_config : CDFt.t :=
  CDFt.mk false "no_shift" false false 17 9 "unknown" "linear_interpolation" "linear".

Lemma CDFt_apply_location_plain {U : Utils} {G : Type} {R : NumpyRandom G}
    (self : CDFt.t) (obs cm_hist cm_future : list Qc) (w : World G) :
  CDFt.running_window_mode self = false ->
  CDFt.apply_by_month self = false ->
  CDFt.SSR self = false ->
  fst (CDFt.apply_location self obs cm_hist cm_future None None None w)
  = CDFt._apply_CDFt_mapping self obs cm_hist cm_future.
Proof.
  intros Hrw Hbm Hssr. unfold CDFt.apply_location, bind at 1 2 3, warning, ret.
  unfold infer_and_create_time_arrays_if_not_given.
  pose proof (infer_time_arrays_obs (length obs) (length cm_hist) (length cm_future)
                None None) as L1.
  pose proof (infer_time_arrays_cm_hist (length obs) (length cm_hist) (length cm_future)
                None None) as L2.
  pose proof (infer_time_arrays_cm_future (length obs) (length cm_hist) (length cm_future)
                None None) as L3.
  destruct (infer_time_arrays _ _ _ None None None) as [[t1 t2] t3]. simpl in L1, L2, L3.
  unfold bind, lift, CDFt._check_time_information_and_raise_error.
  rewrite L1, L2, L3, !Nat.eqb_refl. cbn [negb orb].
  rewrite Hrw. unfold CDFt._apply_on_window. rewrite Hbm.
  unfold CDFt._apply_on_month_and_window. rewrite Hssr. reflexivity.
Qed.

(** C4.  The identity case of CDFt, with [ecdf] and [iecdf] as the
    specification describes their methods [linear_interpolation] and
    [linear]: for [obs = cm_hist = cm_future = [1,2,3,4,5]] and no time
    arrays, [apply_location] returns [[1,2,3,4,5]]; and under this
    configuration the mapping applied to any chunk is
    [iecdf(cm_future, ecdf(cm_hist, iecdf(obs, ecdf(cm_future, cm_future))))]. *)
Theorem CDFt_identity_case :
  (forall (first_year : Z) (kde : list Qc -> Qc -> Qc)
          (quantile : string -> list Qc -> Qc -> Qc)
          (G : Type) (R : NumpyRandom G) (w : World G),
     fst (CDFt.apply_location (U := spec_utils first_year kde quantile)
            CDFt_identity_config
            (map zc [1; 2; 3; 4; 5]%Z) (map zc [1; 2; 3; 4; 5]%Z) (map zc [1; 2; 3; 4; 5]%Z)
            None None None w)
     = OK (map zc [1; 2; 3; 4; 5]%Z))
  /\ (forall (U : Utils) (obs cm_hist cm_future : list Qc),
        CDFt._apply_CDFt_mapping CDFt_identity_config obs cm_hist cm_future
        = (p_future <~ ecdf cm_future cm_future "linear_interpolation" ;;
           q_obs <~ iecdf obs p_future "linear" ;;
           p_hist <~ ecdf cm_hist q_obs "linear_interpolation" ;;
           iecdf cm_future p_hist "linear")).
Proof.
  split.
  - intros first_year kde quantile G R w.
    rewrite CDFt_apply_location_plain by reflexivity.
    apply result_values_OK. vm_compute. reflexivity.
  - intros U obs cm_hist cm_future. reflexivity.
Qed.

(** ** Sample configurations *)

Definition CDFt_SSR_config : CDFt.t :=
  CDFt.mk true "no_shift" false false 17 9 "unknown" "linear_interpolation" "linear".

(** An ISIMIP configuration with a lower bound and threshold only. *)
Definition ISIMIP_config (detrending significance_test : bool)
    (lower_bound lower_threshold upper_bound upper_threshold : float) : ISIMIP.t :=
  ISIMIP.mk "additive" detrending None "unknown"
    lower_bound lower_threshold upper_bound upper_threshold
    false 31 false significance_test true true false true false
    "linear_interpolation" "linear" "isimipv3.0" true 31 1.

(** C9.  For CDFt, QuantileDeltaMapping and ISIMIP: when the size of one of
    the three series differs from the size of its time array (as given, or as
    inferred when one is missing), [apply_location] raises a [ValueError] and
    returns nothing, whatever the later stages would do, and without a draw
    from the random state.  The error is the one about the dimensions of the
    time information; ISIMIP checks the physical range first and may raise its
    [ValueError] instead. *)
Theorem time_size_mismatch_is_fatal {U : Utils} {G : Type} {R : NumpyRandom G}
    {K : ISIMIP.Kernels G} (cdft : CDFt.t) (qdm : QDM.t) (isimip : ISIMIP.t)
    (obs cm_hist cm_future : list Qc) (obs_f cm_hist_f cm_future_f : list float)
    (time_obs time_cm_hist time_cm_future : option (list Date)) (w : World G) :
  (size_mismatch obs cm_hist cm_future
     (times_used obs cm_hist cm_future time_obs time_cm_hist time_cm_future) ->
   (fst (CDFt.apply_location cdft obs cm_hist cm_future
           time_obs time_cm_hist time_cm_future w)
    = Raise (ValueError msg_time_dimensions)
    /\ rng (snd (CDFt.apply_location cdft obs cm_hist cm_future
                   time_obs time_cm_hist time_cm_future w)) = rng w)
   /\ (fst (QDM.apply_location qdm obs cm_hist cm_future
              time_obs time_cm_hist time_cm_future w)
       = Raise (ValueError msg_time_dimensions)
       /\ rng (snd (QDM.apply_location qdm obs cm_hist cm_future
                      time_obs time_cm_hist time_cm_future w)) = rng w))
  /\ (size_mismatch obs_f cm_hist_f cm_future_f
        (times_used obs_f cm_hist_f cm_future_f time_obs time_cm_hist time_cm_future) ->
      (exists msg,
         fst (ISIMIP.apply_location isimip obs_f cm_hist_f cm_future_f
                time_obs time_cm_hist time_cm_future w) = Raise (ValueError msg)
         /\ (ISIMIP._check_reasonable_physical_range isimip obs_f cm_hist_f cm_future_f
             = OK tt -> msg = msg_time_dimensions))
      /\ rng (snd (ISIMIP.apply_location isimip obs_f cm_hist_f cm_future_f
                     time_obs time_cm_hist time_cm_future w)) = rng w).
Proof.
  split.
  - intros H. split; [now apply CDFt_size_mismatch | now apply QDM_size_mismatch].
  - intros H. now apply ISIMIP_size_mismatch.
Qed.

Lemma time_size_mismatch_is_fatal_witness :
  fst (CDFt.apply_location (U := sample_utils) (R := sample_random) CDFt_identity_config
         [zc 1] [zc 1] [zc 1] (Some []) (Some []) (Some []) world0)
  = Raise (ValueError msg_time_dimensions)
  /\ fst (QDM.apply_location (U := sample_utils) sample_qdm
            [zc 1] [zc 1] [zc 1] (Some []) (Some []) (Some []) world0)
     = Raise (ValueError msg_time_dimensions)
  /\ exists msg,
       fst (ISIMIP.apply_location (U := sample_utils) (R := sample_random)
              (K := sample_kernels nat (fun _ _ => (Fin 0%Qc, Fin 1%Qc)))
              (ISIMIP_config false true (Fin 0%Qc) (Fin 1%Qc) PInf PInf)
              [Fin 1%Qc] [Fin 1%Qc] [Fin 1%Qc] (Some []) (Some []) (Some []) world0)
       = Raise (ValueError msg).
Proof.
  destruct (time_size_mismatch_is_fatal
              (U := sample_utils) (R := sample_random)
              (K := sample_kernels nat (fun _ _ => (Fin 0%Qc, Fin 1%Qc)))
              CDFt_identity_config sample_qdm
              (ISIMIP_config false true (Fin 0%Qc) (Fin 1%Qc) PInf PInf)
              [zc 1] [zc 1] [zc 1] [Fin 1%Qc] [Fin 1%Qc] [Fin 1%Qc]
              (Some []) (Some []) (Some []) world0) as [H1 H2].
  destruct H1 as [[Hc _] [Hq _]]; [left; discriminate|].
  destruct H2 as [[msg [Hi _]] _]; [left; discriminate|].
  split; [exact Hc|]. split; [exact Hq|]. exists msg. exact Hi.
Defined.



(** ** Running windows: the targets of one pass *)

(** Every position below [n] occurs in exactly one target, once, and the
    targets hold nothing else. *)
Definition writes_each_position_once (n : nat) (targets : list (list nat)) : Prop :=
  (forall i, (i < n)%nat -> count_occ Nat.eq_dec (concat targets) i = 1%nat)
  /\ (forall i, In i (concat targets) -> (i < n)%nat).

(** A window length or step that the constructors accept: positive and odd. *)
Definition valid_window_size (s : Z) : Prop := (0 < s)%Z /\ Z.odd s = true.

Lemma count_occ_where_true (mask : list bool) (k i : nat) :
  count_occ Nat.eq_dec (Np.where_true k mask) i
  = if (k <=? i)%nat && nth (i - k) mask false then 1%nat else 0%nat.
Proof.
  revert k; induction mask as [|b m IH]; intros k.
  - simpl. destruct (i - k)%nat; now rewrite andb_false_r.
  - cbn [Np.where_true].
    assert (Hrest : count_occ Nat.eq_dec (Np.where_true (S k) m) i
                    = if (k <? i)%nat && nth (i - S k) m false then 1%nat else 0%nat).
    { rewrite IH. reflexivity. }
    destruct (Nat.eq_dec k i) as [->|Hne].
    + rewrite Nat.leb_refl, Nat.sub_diag. cbn [nth andb].
      rewrite Nat.ltb_irrefl in Hrest. cbn [andb] in Hrest.
      destruct b; [rewrite count_occ_cons_eq by reflexivity|]; now rewrite Hrest.
    + assert (Hc : count_occ Nat.eq_dec
                     (if b then k :: Np.where_true (S k) m else Np.where_true (S k) m) i
                   = count_occ Nat.eq_dec (Np.where_true (S k) m) i).
      { destruct b; [now rewrite count_occ_cons_neq|reflexivity]. }
      rewrite Hc, Hrest.
      destruct (Nat.leb_spec k i) as [Hle|Hgt].
      * assert (Hlt : (k <? i)%nat = true) by (apply Nat.ltb_lt; lia).
        rewrite Hlt. replace (i - k)%nat with (S (i - S k)) by lia. reflexivity.
      * assert (Hlt : (k <? i)%nat = false) by (apply Nat.ltb_ge; lia).
        now rewrite Hlt.
Qed.

Lemma In_where_true (mask : list bool) (i : nat) :
  In i (Np.where_true 0 mask) -> (i < length mask)%nat.
Proof.
  intros Hin. apply (count_occ_In Nat.eq_dec) in Hin.
  rewrite count_occ_where_true in Hin. rewrite Nat.sub_0_r in Hin.
  destruct (Nat.lt_ge_cases i (length mask)) as [H|H]; auto.
  rewrite (nth_overflow _ _ H), andb_false_r in Hin. lia.
Qed.

Lemma count_occ_concat_map (B : Type) (f : B -> list nat) (ks : list B) (i : nat) :
  count_occ Nat.eq_dec (concat (map f ks)) i
  = list_sum (map (fun k => count_occ Nat.eq_dec (f k) i) ks).
Proof.
  induction ks as [|k ks IH]; simpl; auto. now rewrite count_occ_app, IH.
Qed.

Lemma list_sum_indicator_zero (B : Type) (p : B -> bool) (ks : list B) :
  (forall k, In k ks -> p k = false) ->
  list_sum (map (fun k => if p k then 1%nat else 0%nat) ks) = 0%nat.
Proof.
  induction ks as [|k ks IH]; intros H; simpl; auto.
  rewrite (H k) by now left. rewrite IH; auto. intros k' Hk'. apply H. now right.
Qed.

Lemma list_sum_indicator (B : Type) (p : B -> bool) (ks : list B) (k0 : B) :
  NoDup ks -> In k0 ks ->
  (forall k, In k ks -> (p k = true <-> k = k0)) ->
  list_sum (map (fun k => if p k then 1%nat else 0%nat) ks) = 1%nat.
Proof.
  induction ks as [|k ks IH]; intros Hnd Hin Hp; [inversion Hin|].
  inversion Hnd as [|? ? Hnotin Hnd']; subst. simpl.
  destruct Hin as [->|Hin].
  - rewrite (proj2 (Hp k0 (or_introl eq_refl)) eq_refl).
    rewrite list_sum_indicator_zero; auto.
    intros k Hk. destruct (p k) eqn:E; auto.
    apply Hp in E; [subst; contradiction | now right].
  - destruct (p k) eqn:E.
    + apply Hp in E; [subst; contradiction | now left].
    + apply IH; auto. intros k' Hk'. apply Hp. now right.
Qed.

Lemma zrange_In (a b k : Z) : In k (SpecUtils.zrange a b) <-> (a <= k <= b)%Z.
Proof.
  unfold SpecUtils.zrange. rewrite in_map_iff. split.
  - intros [j [<- Hj]]. apply in_seq in Hj. lia.
  - intros H. exists (Z.to_nat (k - a)). split; [lia|]. apply in_seq. lia.
Qed.

Lemma zrange_NoDup (a b : Z) : NoDup (SpecUtils.zrange a b).
Proof.
  unfold SpecUtils.zrange. apply Injective_map_NoDup.
  - intros x y H. lia.
  - apply seq_NoDup.
Qed.

(** The window that holds a time unit [y]: the windows of half width
    [s / 2] centred at [b + s / 2 + k s] tile the integers from [b] on. *)
Lemma tile_membership (s b y k : Z) :
  valid_window_size s ->
  ((b + s / 2 + k * s - s / 2 <=? y) && (y <=? b + s / 2 + k * s + s / 2))%Z = true
  <-> k = ((y - b) / s)%Z.
Proof.
  intros [Hpos Hodd].
  assert (Hs : (s = 2 * (s / 2) + 1)%Z).
  { rewrite (Z.div_mod s 2) at 1 by lia. rewrite Zmod_odd, Hodd. reflexivity. }
  rewrite andb_true_iff, !Z.leb_le.
  pose proof (Z.div_mod (y - b) s ltac:(lia)) as Hdm.
  pose proof (Z.mod_pos_bound (y - b) s Hpos) as Hr.
  set (q := ((y - b) / s)%Z) in *. set (r := ((y - b) mod s)%Z) in *.
  split.
  - intros [H1 H2].
    assert (Hlo : (k * s <= s * q + r)%Z) by lia.
    assert (Hhi : (s * q + r < k * s + s)%Z) by lia.
    destruct (Z.lt_trichotomy k q) as [Hlt|[Heq|Hgt]]; auto; exfalso; nia.
  - intros ->. split; nia.
Qed.

Lemma indices_within_count (units : list Z) (c half : Z) (i : nat) :
  (i < length units)%nat ->
  count_occ Nat.eq_dec (SpecUtils.indices_within units c half) i
  = if ((c - half <=? nth i units 0) && (nth i units 0 <=? c + half))%Z
    then 1%nat else 0%nat.
Proof.
  intros Hi. unfold SpecUtils.indices_within.
  rewrite count_occ_where_true, Nat.sub_0_r. cbn [Nat.leb andb].
  rewrite (nth_indep _ false
             ((fun u => ((c - half <=? u) && (u <=? c + half))%Z) 0%Z))
    by now rewrite length_map.
  now rewrite (map_nth (fun u => ((c - half <=? u) && (u <=? c + half))%Z)).
Qed.

(** The day-of-year windows of the specification write every position once. *)
Lemma days_of_year_targets_partition (rw : RunningWindowOverDaysOfYear)
    (days_of_year years : list Z) :
  valid_window_size (window_step_length_in_days rw) ->
  Forall (fun d => (1 <= d <= 366)%Z) days_of_year ->
  writes_each_position_once (length days_of_year)
    (map snd (SpecUtils.RunningWindowOverDaysOfYear_use rw days_of_year years)).
Proof.
  intros Hs Hdays. unfold SpecUtils.RunningWindowOverDaysOfYear_use.
  set (s := window_step_length_in_days rw) in *.
  rewrite map_map. cbn [snd]. split.
  - intros i Hi. rewrite count_occ_concat_map.
    set (d := nth i days_of_year 0%Z).
    assert (Hd : (1 <= d <= 366)%Z).
    { rewrite Forall_forall in Hdays. apply Hdays. now apply nth_In. }
    rewrite (map_ext _
               (fun k => if ((1 + s / 2 + k * s - s / 2 <=? d)
                             && (d <=? 1 + s / 2 + k * s + s / 2))%Z
                         then 1%nat else 0%nat))
      by (intros k; now apply indices_within_count).
    apply (list_sum_indicator _ (k0 := ((d - 1) / s)%Z)).
    + apply zrange_NoDup.
    + apply zrange_In. destruct Hs as [Hpos _]. split.
      * apply Z.div_pos; lia.
      * apply Z.div_le_mono; lia.
    + intros k _. now apply tile_membership.
  - intros i Hin. apply in_concat in Hin. destruct Hin as [l [Hl Hi]].
    apply in_map_iff in Hl. destruct Hl as [k [<- _]].
    apply In_where_true in Hi. now rewrite length_map in Hi.
Qed.

Lemma fold_min_le (y0 : Z) (l : list Z) (y : Z) :
  In y l -> (fold_right Z.min y0 l <= y)%Z.
Proof.
  induction l as [|a l IH]; intros Hin; [inversion Hin|]. simpl.
  destruct Hin as [->|Hin]; [lia | specialize (IH Hin); lia].
Qed.

Lemma fold_max_ge (y0 : Z) (l : list Z) (y : Z) :
  In y l -> (y <= fold_right Z.max y0 l)%Z.
Proof.
  induction l as [|a l IH]; intros Hin; [inversion Hin|]. simpl.
  destruct Hin as [->|Hin]; [lia | specialize (IH Hin); lia].
Qed.

Lemma in1d_nth (years chosen : list Z) (i : nat) :
  (i < length years)%nat ->
  nth i (Np.in1d Z.eqb years chosen) false = existsb (Z.eqb (nth i years 0%Z)) chosen.
Proof.
  intros Hi. unfold Np.in1d.
  rewrite (nth_indep _ false ((fun v => existsb (Z.eqb v) chosen) 0%Z))
    by now rewrite length_map.
  now rewrite (map_nth (fun v => existsb (Z.eqb v) chosen)).
Qed.

Lemma existsb_eqb_In (y : Z) (l : list Z) : existsb (Z.eqb y) l = true <-> In y l.
Proof.
  rewrite existsb_exists. split.
  - intros [x [Hin E]]. apply Z.eqb_eq in E. now subst.
  - intros Hin. exists y. split; auto. apply Z.eqb_refl.
Qed.

(** The year windows of the specification write every position once. *)
Lemma year_targets_partition (rw : RunningWindowOverYears) (years : list Z) :
  valid_window_size (window_step_length_in_years rw) ->
  writes_each_position_once (length years)
    (map (fun w => Np.where_true 0 (SpecUtils.get_if_in_chosen_years years (fst w)))
         (SpecUtils.RunningWindowOverYears_use rw years)).
Proof.
  intros Hs. unfold SpecUtils.RunningWindowOverYears_use.
  destruct years as [|y0 rest] eqn:Ey.
  { split; simpl; [lia | tauto]. }
  rewrite <- Ey. set (first := fold_right Z.min y0 years).
  set (last := fold_right Z.max y0 years).
  set (s := window_step_length_in_years rw) in *.
  rewrite map_map. cbn [fst]. split.
  - intros i Hi. rewrite count_occ_concat_map.
    set (y := nth i years 0%Z).
    assert (Hy : In y years) by now apply nth_In.
    assert (Hlo : (first <= y)%Z) by now apply fold_min_le.
    assert (Hhi : (y <= last)%Z) by now apply fold_max_ge.
    set (p := fun k =>
                existsb (Z.eqb y)
                  (filter (fun y' => ((first <=? y') && (y' <=? last))%Z)
                     (SpecUtils.zrange (first + s / 2 + k * s - s / 2)
                                       (first + s / 2 + k * s + s / 2)))).
    rewrite (map_ext _ (fun k => if p k then 1%nat else 0%nat)).
    + apply (list_sum_indicator _ (k0 := ((y - first) / s)%Z)).
      * apply zrange_NoDup.
      * apply zrange_In. destruct Hs as [Hpos _]. split.
        -- apply Z.div_pos; lia.
        -- apply Z.div_le_mono; lia.
      * intros k _. unfold p.
        rewrite existsb_eqb_In, filter_In, zrange_In, <- (tile_membership first y k Hs).
        rewrite !andb_true_iff, !Z.leb_le. tauto.
    + intros k. unfold SpecUtils.get_if_in_chosen_years.
      rewrite count_occ_where_true, Nat.sub_0_r. cbn [Nat.leb andb].
      rewrite in1d_nth by exact Hi. reflexivity.
  - intros i Hin. apply in_concat in Hin. destruct Hin as [l [Hl Hi]].
    apply in_map_iff in Hl. destruct Hl as [k [<- _]].
    apply In_where_true in Hi.
    unfold SpecUtils.get_if_in_chosen_years, Np.in1d in Hi. now rewrite length_map in Hi.
Qed.

(** The index sets the window loops of [apply_location] assign to: the index
    arrays of the day-of-year windows (ISIMIP, QuantileDeltaMapping), and the
    true positions of the masks of the years to debias (CDFt, and
    QuantileDeltaMapping within one seasonal chunk). *)
Definition ISIMIP_window_targets {U : Utils} (self : ISIMIP.t) (time_cm_future : list Date) :
    list (list nat) :=
  map snd (RunningWindowOverDaysOfYear_use (ISIMIP.running_window self)
             (day_of_year time_cm_future) (year time_cm_future)).

Definition QDM_window_targets {U : Utils} (self : QDM.t) (time_cm_future : list Date) :
    list (list nat) :=
  map snd (RunningWindowOverDaysOfYear_use (QDM.running_window_within_year self)
             (day_of_year time_cm_future) (year time_cm_future)).

Definition QDM_year_window_targets {U : Utils} (self : QDM.t) (years_cm_future : list Z) :
    list (list nat) :=
  map (fun w => Np.where_true 0 (get_if_in_chosen_years years_cm_future (fst w)))
      (RunningWindowOverYears_use (QDM.running_window_over_years_of_cm_future self)
         years_cm_future).

Definition CDFt_window_targets {U : Utils} (self : CDFt.t) (time_cm_future : list Date) :
    list (list nat) :=
  map (fun w => Np.where_true 0 (get_if_in_chosen_years (year time_cm_future) (fst w)))
      (RunningWindowOverYears_use (CDFt.running_window self) (year time_cm_future)).



(** ** ISIMIP step 3: the removed trend *)

Lemma put_repeat_same (A : Type) (v : A) (n m : nat) (mask : list bool) :
  Np.put (repeat v n) mask (repeat v m) = repeat v n.
Proof.
  revert m mask; induction n as [|n IH]; intros m [|b mask]; simpl; auto.
  destruct b; [destruct m|]; simpl; f_equal; auto. apply (IH 0%nat).
Qed.

Lemma nth_error_repeat (A : Type) (v : A) (n i : nat) :
  (i < n)%nat -> nth_error (repeat v n) i = Some v.
Proof.
  revert i; induction n as [|n IH]; intros [|i] H; simpl; try lia; auto.
  apply IH. lia.
Qed.

Lemma fsub_zero (x : float) : fsub x (Fin 0%Qc) = x.
Proof.
  destruct x as [q| | |]; simpl; auto. f_equal.
  change (- 0)%Qc with 0%Qc. apply Qcplus_0_r.
Qed.

Lemma map2_fsub_zeros (x : list float) :
  Np.map2 fsub x (repeat (Fin 0%Qc) (length x)) = x.
Proof.
  induction x as [|a x IH]; simpl; auto. now rewrite fsub_zero, IH.
Qed.

Section Step3Facts.
Context {U : Utils} {G : Type} {K : ISIMIP.Kernels G}.

(** Whatever the regression reports, [_step3_remove_trend] removes nothing
    when [trend_removal_with_significance_test] is off. *)
Lemma step3_remove_trend_test_off (self : ISIMIP.t) (x : list float) (years : list Z) :
  ISIMIP.trend_removal_with_significance_test self = false ->
  length years = length x ->
  ISIMIP._step3_remove_trend self x years = OK (x, Np.zeros_like (Fin 0%Qc) x).
Proof.
  intros Htest Hlen. unfold ISIMIP._step3_remove_trend.
  pose proof (get_years_and_yearly_means_length x years) as Hu.
  destruct (get_years_and_yearly_means x years) as [unique_years annual_means].
  simpl in Hu.
  destruct (ISIMIP.linregress unique_years annual_means) as [slope pvalue].
  rewrite Htest, andb_false_r. unfold Np.zeros_like.
  assert (Hfold : forall (l : list (nat * Z)),
             Forall (fun p => (fst p < length years)%nat) l ->
             fold_left
               (fun acc '(index_unique_year, unique_year) =>
                  trend <~ acc ;;
                  match nth_error (repeat (Fin 0%Qc) (length years)) index_unique_year with
                  | Some v => Np.fill_mask trend (map (fun y => (y =? unique_year)%Z) years) v
                  | None => Raise (IndexError "index is out of bounds")
                  end)
               l (OK (repeat (Fin 0%Qc) (length x)))
             = OK (repeat (Fin 0%Qc) (length x))).
  { induction l as [|[i y] l IH]; intros Hall; simpl; auto.
    inversion Hall as [|? ? Hi Hall']; subst. simpl in Hi.
    rewrite nth_error_repeat by exact Hi.
    rewrite fill_mask_ok by (now rewrite length_map, repeat_length).
    rewrite put_repeat_same. now apply IH. }
  rewrite Hfold.
  - cbn [rbind]. now rewrite map2_fsub_zeros.
  - apply Forall_forall. intros [i y] Hin. apply in_combine_l in Hin.
    apply in_seq in Hin. simpl. lia.
Qed.

End Step3Facts.

(** A float as a fraction or a tag, for comparing floats by computation. *)
Definition float_repr (x : float) : Q + nat :=
  match x with
  | Fin q => inl (this q)
  | PInf => inr 0%nat
  | NInf => inr 1%nat
  | NaN => inr 2%nat
  end.

Lemma float_repr_inj (l l' : list float) : map float_repr l = map float_repr l' -> l = l'.
Proof.
  revert l'; induction l as [|x l IH]; intros [|x' l'] H; simpl in *; try discriminate; auto.
  injection H as Hx Hl. f_equal; [|now apply IH].
  destruct x, x'; simpl in Hx; try discriminate; auto.
  f_equal. apply Qc_decomp. congruence.
Qed.

(** Step 3 as the specification words it: the trend counts as zero exactly
    when the significance test is on and the p-value is at least 0.05;
    otherwise [slope * (year - mean(year))] is subtracted from each sample. *)
Definition step3_remove_trend_as_specified {U : Utils} {G : Type} {K : ISIMIP.Kernels G}
    (self : ISIMIP.t) (x : list float) (years : list Z) :
    result (list float * list float) :=
  let '(unique_years, annual_means) := get_years_and_yearly_means x years in
  let '(slope, pvalue) := ISIMIP.linregress unique_years annual_means in
  let annual_trend :=
    if ISIMIP.trend_removal_with_significance_test self && fleb (Fin (qc 5 100)) pvalue
    then Np.zeros_like (Fin 0%Qc) years
    else map (fun y => fmul slope (fsub (Fin (zc y)) (Fin (mean (map zc unique_years)))))
             unique_years in
  trend <~
    fold_left
      (fun acc '(index_unique_year, unique_year) =>
         trend <~ acc ;;
         match nth_error annual_trend index_unique_year with
         | Some v => Np.fill_mask trend (map (fun y => (y =? unique_year)%Z) years) v
         | None => Raise (IndexError "index is out of bounds")
         end)
      (combine (seq 0 (length unique_years)) unique_years)
      (OK (Np.zeros_like (Fin 0%Qc) x)) ;;
  OK (Np.map2 fsub x trend, trend).

Lemma fltb_fleb (a b : float) :
  isnan a = false -> isnan b = false -> fltb a b = negb (fleb b a).
Proof.
  destruct a, b; simpl; intros; try discriminate; auto.
Qed.

(** With the significance test on, the source and the specification agree
    (for a p-value that is a number). *)
Lemma step3_agrees_when_test_on {U : Utils} {G : Type} {K : ISIMIP.Kernels G}
    (self : ISIMIP.t) (x : list float) (years : list Z) :
  ISIMIP.trend_removal_with_significance_test self = true ->
  isnan (snd (ISIMIP.linregress (fst (get_years_and_yearly_means x years))
                                (snd (get_years_and_yearly_means x years)))) = false ->
  ISIMIP._step3_remove_trend self x years = step3_remove_trend_as_specified self x years.
Proof.
  intros Htest Hnan. unfold ISIMIP._step3_remove_trend, step3_remove_trend_as_specified.
  destruct (get_years_and_yearly_means x years) as [unique_years annual_means].
  simpl in Hnan.
  destruct (ISIMIP.linregress unique_years annual_means) as [slope pvalue].
  simpl in Hnan. rewrite Htest, andb_true_r. cbn [andb].
  rewrite (fltb_fleb pvalue (Fin (qc 5 100)) Hnan eq_refl).
  destruct (fleb (Fin (qc 5 100)) pvalue); reflexivity.
Qed.

(** The series of the failing input of step 3: the values 0, 0, 1, 1, 2, 2 in
    the years 2000, 2000, 2001, 2001, 2002, 2002.  The annual means 0, 1, 2
    have slope 1 against the years. *)
Definition trend_series : list float := map (fun z => Fin (zc z)) [0; 0; 1; 1; 2; 2]%Z.
Definition trend_years : list Z := [2000; 2000; 2001; 2001; 2002; 2002]%Z.

(** C1 (the source departs from the claim).  [detrending] on and
    [trend_removal_with_significance_test] off, a regression of slope 1 with
    any p-value: [step3] returns the three series unchanged and a zero trend,
    where the specification subtracts [slope * (year - mean(year))], that is
    -1, -1, 0, 0, 1, 1, and leaves the series at 1 everywhere. *)
Theorem step3_test_off_removes_no_trend (pvalue : float) :
  let K := sample_kernels nat (fun _ _ => (Fin 1%Qc, pvalue)) in
  let self := ISIMIP_config true false (Fin 0%Qc) (Fin 1%Qc) PInf PInf in
  ISIMIP.step3 (U := sample_utils) self trend_series trend_series trend_series
    trend_years trend_years trend_years
  = OK (trend_series, trend_series, trend_series, repeat (Fin 0%Qc) 6)
  /\ exists detrended trend,
       step3_remove_trend_as_specified (U := sample_utils) self trend_series trend_years
       = OK (detrended, trend)
       /\ map float_repr trend = [inl (-1 # 1); inl (-1 # 1); inl 0; inl 0; inl 1; inl 1]%Q
       /\ map float_repr detrended = [inl 1; inl 1; inl 1; inl 1; inl 1; inl 1]%Q.
Proof.
  intros K self. split.
  - unfold ISIMIP.step3. change (ISIMIP.detrending self) with true. cbn iota.
    rewrite (step3_remove_trend_test_off (U := sample_utils) (K := K) self
               trend_series trend_years eq_refl eq_refl).
    reflexivity.
  - unfold step3_remove_trend_as_specified.
    change (ISIMIP.trend_removal_with_significance_test self) with false.
    cbn [andb]. do 2 eexists. split; [vm_compute; reflexivity|].
    split; vm_compute; reflexivity.
Qed.

(** ** ISIMIP step 6: scaling the numbers of entries set to the bounds *)

(** The scaling as the specification words it: both numbers are multiplied by
    the one factor [size / (nr_lower + nr_upper)] and rounded. *)
Definition scale_nr_of_entries_as_specified
    (nr_of_entries_to_set_to_lower_bound nr_of_entries_to_set_to_upper_bound : Z)
    (size_cm_future : nat) : result (Z * Z) :=
  q_lower <~ ISIMIP.py_truediv (nr_of_entries_to_set_to_lower_bound * Z.of_nat size_cm_future)
               (nr_of_entries_to_set_to_lower_bound + nr_of_entries_to_set_to_upper_bound) ;;
  q_upper <~ ISIMIP.py_truediv (nr_of_entries_to_set_to_upper_bound * Z.of_nat size_cm_future)
               (nr_of_entries_to_set_to_lower_bound + nr_of_entries_to_set_to_upper_bound) ;;
  OK (round_half_even q_lower, round_half_even q_upper).

(** The failing input of the scaling: thresholds 1 and 9, bounds 0 and 10, ten
    values per series.  Eight values of each series are at the lower bound;
    two observations and two future values are at the upper bound, no
    historical model value is. *)
Definition scaling_config : ISIMIP.t :=
  ISIMIP_config false true (Fin 0%Qc) (Fin 1%Qc) (Fin (zc 10)) (Fin (zc 9)).
Definition floats (l : list Z) : list float := map (fun z => Fin (zc z)) l.
Definition scaling_obs_hist : list float := floats [0; 0; 0; 0; 0; 0; 0; 0; 10; 10]%Z.
Definition scaling_cm_hist : list float := floats [0; 0; 0; 0; 0; 0; 0; 0; 5; 5]%Z.
Definition scaling_cm_future : list float := floats [0; 10; 0; 0; 10; 0; 0; 0; 0; 0]%Z.

(** C2 (the source departs from the claim).  On the failing input step 6
    computes 8 entries for the lower bound and 4 for the upper bound, 12 for
    10 values.  [_step6_scale_nr_of_entries_to_set_to_bounds] returns 7 and 4:
    the second number is divided by the new first number plus itself, 11, not
    by 12.  The two numbers still exceed the size; scaled by the one factor
    10/12 they would be 7 and 3.  The array returned by [step6] holds four
    entries at the upper bound and six at the lower bound. *)
Theorem step6_scaling_uses_updated_lower_count :
  let sorted := Np.sort fsortleb in
  ISIMIP._step6_get_nr_of_entries_to_set_to_bound scaling_config
    (ISIMIP._get_mask_for_values_beyond_lower_threshold scaling_config (sorted scaling_obs_hist))
    (ISIMIP._get_mask_for_values_beyond_lower_threshold scaling_config (sorted scaling_cm_hist))
    (ISIMIP._get_mask_for_values_beyond_lower_threshold scaling_config
       (sorted scaling_cm_future)) = OK 8%Z
  /\ ISIMIP._step6_get_nr_of_entries_to_set_to_bound scaling_config
       (ISIMIP._get_mask_for_values_beyond_upper_threshold scaling_config
          (sorted scaling_obs_hist))
       (ISIMIP._get_mask_for_values_beyond_upper_threshold scaling_config
          (sorted scaling_cm_hist))
       (ISIMIP._get_mask_for_values_beyond_upper_threshold scaling_config
          (sorted scaling_cm_future)) = OK 4%Z
  /\ ISIMIP._step6_scale_nr_of_entries_to_set_to_bounds 8 4 10 = OK (7, 4)%Z
  /\ scale_nr_of_entries_as_specified 8 4 10 = OK (7, 3)%Z
  /\ (forall pvalue : float,
        exists output w',
          ISIMIP.step6 (K := sample_kernels nat (fun _ _ => (Fin 1%Qc, pvalue)))
            scaling_config scaling_obs_hist scaling_obs_hist scaling_cm_hist
            scaling_cm_future world0 = (OK output, w')
          /\ map float_repr output
             = [inl 0; inl 10; inl 0; inl 0; inl 10; inl 0; inl 0; inl 0; inl 10; inl 10]%Q).
Proof.
  intros sorted.
  split; [vm_compute; reflexivity|]. split; [vm_compute; reflexivity|].
  split; [vm_compute; reflexivity|]. split; [vm_compute; reflexivity|].
  intros pvalue. do 2 eexists. split; [vm_compute; reflexivity|].
  vm_compute. reflexivity.
Qed.

(** ** Randomness *)

(** A computation whose result and final generator state depend on the world
    only through the state of NumPy's global generator. *)
Definition reproducible {G A : Type} (m : M G A) : Prop :=
  forall w1 w2 : World G,
    rng w1 = rng w2 ->
    fst (m w1) = fst (m w2) /\ rng (snd (m w1)) = rng (snd (m w2)).

Section Reproducible.
Context {G : Type}.

Lemma reproducible_ret (A : Type) (a : A) : reproducible (G := G) (ret a).
Proof. intros w1 w2 H. simpl. auto. Qed.

Lemma reproducible_raise (A : Type) (e : exn) : reproducible (G := G) (A := A) (raise e).
Proof. intros w1 w2 H. simpl. auto. Qed.

Lemma reproducible_lift (A : Type) (r : result A) : reproducible (G := G) (lift r).
Proof. intros w1 w2 H. simpl. auto. Qed.

Lemma reproducible_warning (msg : string) : reproducible (G := G) (warning msg).
Proof. intros w1 w2 H. simpl. auto. Qed.

Lemma reproducible_bind (A B : Type) (m : M G A) (k : A -> M G B) :
  reproducible m -> (forall a, reproducible (k a)) -> reproducible (bind m k).
Proof.
  intros Hm Hk w1 w2 H. unfold bind.
  destruct (Hm w1 w2 H) as [Hr Hw].
  destruct (m w1) as [r1 w1'], (m w2) as [r2 w2']. simpl in Hr, Hw. subst r2.
  destruct r1 as [a|e]; [now apply Hk | simpl; auto].
Qed.

Lemma reproducible_for_in (W A : Type) (ws : list W) (body : W -> A -> M G A) (acc : A) :
  (forall w a, reproducible (body w a)) -> reproducible (for_in ws body acc).
Proof.
  intros Hbody. revert acc; induction ws as [|w ws IH]; intros acc; simpl.
  - apply reproducible_ret.
  - apply reproducible_bind; auto.
Qed.

Context {R : NumpyRandom G}.

Lemma reproducible_uniform (low high : Qc) (size : nat) :
  reproducible (np_random_uniform low high size).
Proof.
  intros w1 w2 H. unfold np_random_uniform. rewrite H.
  destruct (uniform_sample low high size (rng w2)). simpl. auto.
Qed.

Lemma reproducible_random (size : nat) : reproducible (np_random_random size).
Proof.
  intros w1 w2 H. unfold np_random_random. rewrite H.
  destruct (random_sample size (rng w2)). simpl. auto.
Qed.

End Reproducible.

Ltac reproducible_step :=
  first
    [ apply reproducible_ret
    | apply reproducible_raise
    | apply reproducible_lift
    | apply reproducible_warning
    | apply reproducible_uniform
    | apply reproducible_random
    | apply reproducible_for_in; intros
    | apply reproducible_bind; [|intros]
    | match goal with
      | |- reproducible (if ?c then _ else _) => destruct c
      | |- reproducible (match ?x with _ => _ end) => destruct x
      | |- context [let '(_, _) := ?x in _] => is_var x; destruct x
      end ].

Section RandomnessFacts.
Context {U : Utils} {G : Type} {R : NumpyRandom G} {K : ISIMIP.Kernels G}.

Lemma CDFt_apply_on_month_and_window_reproducible (self : CDFt.t)
    (obs cm_hist cm_future : list Qc) :
  reproducible (CDFt._apply_on_month_and_window self obs cm_hist cm_future).
Proof.
  unfold CDFt._apply_on_month_and_window, CDFt._apply_SSR_steps_before_adjustment,
    CDFt._randomize_zero_values_between_zero_and_threshold.
  repeat reproducible_step.
Qed.

Lemma CDFt_apply_on_window_reproducible (self : CDFt.t) (obs cm_hist cm_future : list Qc)
    (time_obs time_cm_hist time_cm_future : list Date) :
  reproducible (CDFt._apply_on_window self obs cm_hist cm_future
                  time_obs time_cm_hist time_cm_future).
Proof.
  unfold CDFt._apply_on_window.
  repeat first [apply CDFt_apply_on_month_and_window_reproducible | reproducible_step].
Qed.

Lemma CDFt_apply_location_reproducible (self : CDFt.t) (obs cm_hist cm_future : list Qc)
    (time_obs time_cm_hist time_cm_future : option (list Date)) :
  reproducible (CDFt.apply_location self obs cm_hist cm_future
                  time_obs time_cm_hist time_cm_future).
Proof.
  unfold CDFt.apply_location.
  repeat first [apply CDFt_apply_on_window_reproducible | reproducible_step].
Qed.

Lemma ISIMIP_step2_reproducible (self : ISIMIP.t) (obs_hist cm_hist cm_future : list float) :
  reproducible (ISIMIP.step2 self obs_hist cm_hist cm_future).
Proof.
  unfold ISIMIP.step2, ISIMIP._step2_impute_values.
  repeat reproducible_step.
Qed.

Lemma ISIMIP_step4_reproducible (self : ISIMIP.t) (obs_hist cm_hist cm_future : list float) :
  reproducible (ISIMIP.step4 self obs_hist cm_hist cm_future).
Proof.
  unfold ISIMIP.step4, ISIMIP._step4_randomize_values_between_lower_threshold_and_bound,
    ISIMIP._step4_randomize_values_between_upper_threshold_and_bound,
    ISIMIP.np_random_uniform_float.
  repeat reproducible_step.
Qed.

End RandomnessFacts.


(** The inputs of the two runs below. *)
Definition ssr_obs : list Qc := map zc [0; 5; 6]%Z.
Definition ssr_cm_hist : list Qc := map zc [0; 4; 8]%Z.
Definition ssr_cm_future : list Qc := map zc [1; 2; 3]%Z.

Definition ssr_run : M nat (list Qc) :=
  CDFt.apply_location (U := sample_utils) (R := sample_random) CDFt_SSR_config
    ssr_obs ssr_cm_hist ssr_cm_future None None None.



(** ** Sorting and the permutation that undoes it *)

Section SortFacts.
Variable A : Type.
Variable leb : A -> A -> bool.
Hypothesis leb_total : forall a b, leb a b = false -> leb b a = true.

Let R (a b : A) : Prop := leb a b = true.

Lemma insert_sorted_HdRel (a b : A) (l : list A) :
  R b a -> HdRel R b l -> HdRel R b (Np.insert_sorted leb a l).
Proof.
  intros Hba Hl. destruct l as [|c l]; simpl.
  - now constructor.
  - destruct (leb a c); constructor; auto. now inversion Hl.
Qed.

Lemma insert_sorted_Sorted (a : A) (l : list A) :
  Sorted R l -> Sorted R (Np.insert_sorted leb a l).
Proof.
  induction 1 as [|b l Hs IH Hhd]; simpl.
  - repeat constructor.
  - destruct (leb a b) eqn:E.
    + constructor; [now constructor | now constructor].
    + constructor; auto. apply insert_sorted_HdRel; auto. now apply leb_total.
Qed.

Lemma sort_Sorted (l : list A) : Sorted R (Np.sort leb l).
Proof.
  induction l as [|a l IH]; simpl; [constructor | now apply insert_sorted_Sorted].
Qed.

End SortFacts.

Lemma Sorted_map_fst (l : list (nat * nat)) :
  Sorted (fun p q => (fst p <=? fst q)%nat = true) l -> Sorted le (map fst l).
Proof.
  induction 1 as [|p l Hs IH Hhd]; simpl; constructor; auto.
  destruct Hhd as [|q l' Hpq]; simpl; constructor. now apply Nat.leb_le.
Qed.

Lemma sorted_NoDup_strict (l : list nat) :
  Sorted le l -> NoDup l -> StronglySorted lt l.
Proof.
  intros Hs Hnd. apply Sorted_StronglySorted in Hs; [|exact Nat.le_trans].
  induction Hs as [|a l Hs IH Hall]; constructor.
  - apply IH. now inversion Hnd.
  - inversion Hnd as [|? ? Hnotin _]; subst.
    rewrite Forall_forall in *. intros x Hx. specialize (Hall x Hx).
    assert (a <> x) by (intros ->; contradiction). lia.
Qed.

Lemma strictly_sorted_unique (l l' : list nat) :
  StronglySorted lt l -> StronglySorted lt l' -> Permutation l l' -> l = l'.
Proof.
  intros Hl. revert l'. induction Hl as [|a l Hs IH Hall]; intros l' Hl' Hp.
  - now apply Permutation_nil in Hp.
  - destruct Hl' as [|b l' Hs' Hall'].
    + apply Permutation_sym, Permutation_nil in Hp. discriminate.
    + assert (a = b).
      { rewrite Forall_forall in Hall, Hall'.
        assert (Ha : In a (b :: l')) by (eapply Permutation_in; [exact Hp | now left]).
        assert (Hb : In b (a :: l))
          by (eapply Permutation_in; [apply Permutation_sym; exact Hp | now left]).
        destruct Ha as [Ha|Ha]; auto. destruct Hb as [Hb|Hb]; auto.
        specialize (Hall b Hb). specialize (Hall' a Ha). lia. }
      subst b. f_equal. apply IH; auto. now apply Permutation_cons_inv in Hp.
Qed.

Lemma seq_strictly_sorted (a n : nat) : StronglySorted lt (seq a n).
Proof.
  revert a; induction n as [|n IH]; intros a; simpl; constructor; auto.
  apply Forall_forall. intros x Hx. apply in_seq in Hx. lia.
Qed.

Lemma In_combine_seq (p : list nat) (s a j : nat) :
  In (a, j) (combine p (seq s (length p))) -> (s <= j)%nat /\ nth_error p (j - s) = Some a.
Proof.
  revert s; induction p as [|b p IH]; intros s Hin; simpl in *; [tauto|].
  destruct Hin as [E|Hin].
  - injection E as -> ->. rewrite Nat.sub_diag. auto.
  - apply IH in Hin. destruct Hin as [Hle Hn]. split; [lia|].
    replace (j - s)%nat with (S (j - S s)) by lia. exact Hn.
Qed.

(** [np.argsort] of a permutation of [0 .. n-1] is its inverse. *)
Lemma argsort_inverse (p : list nat) (j : nat) :
  Permutation p (seq 0 (length p)) -> (j < length p)%nat ->
  nth (nth j p 0%nat) (Np.argsort Nat.leb p) 0%nat = j.
Proof.
  intros Hp Hj. unfold Np.argsort.
  set (q := Np.sort (fun a b : nat * nat => (fst a <=? fst b)%nat)
                    (combine p (seq 0 (length p)))).
  assert (Hq : Permutation (combine p (seq 0 (length p))) q) by apply sort_perm.
  assert (Hlen : length q = length p).
  { unfold q. rewrite sort_length, length_combine, length_seq. apply Nat.min_id. }
  assert (Hnd : NoDup p).
  { eapply Permutation_NoDup; [apply Permutation_sym; exact Hp | apply seq_NoDup]. }
  assert (Hfst : map fst q = seq 0 (length p)).
  { assert (Hperm : Permutation (map fst q) p).
    { eapply perm_trans; [apply Permutation_map, Permutation_sym, Hq|].
      rewrite map_fst_combine; auto. now rewrite length_seq. }
    apply strictly_sorted_unique.
    - apply sorted_NoDup_strict.
      + apply Sorted_map_fst. unfold q. apply sort_Sorted.
        intros a b H. apply Nat.leb_le. apply Nat.leb_gt in H. lia.
      + eapply Permutation_NoDup; [apply Permutation_sym; exact Hperm | exact Hnd].
    - apply seq_strictly_sorted.
    - eapply perm_trans; [exact Hperm | exact Hp]. }
  set (k := nth j p 0%nat).
  assert (Hk : (k < length p)%nat).
  { assert (Hin : In k (seq 0 (length p))).
    { eapply Permutation_in; [exact Hp | now apply nth_In]. }
    apply in_seq in Hin. lia. }
  assert (Hpair : nth k q (0%nat, 0%nat) = (k, nth k (map snd q) 0%nat)).
  { rewrite (surjective_pairing (nth k q (0%nat, 0%nat))). f_equal.
    - transitivity (nth k (map fst q) 0%nat).
      + symmetry. exact (map_nth fst q (0%nat, 0%nat) k).
      + rewrite Hfst. now apply seq_nth.
    - symmetry. exact (map_nth snd q (0%nat, 0%nat) k). }
  assert (Hin : In (k, nth k (map snd q) 0%nat) (combine p (seq 0 (length p)))).
  { eapply Permutation_in; [apply Permutation_sym; exact Hq|].
    rewrite <- Hpair. apply nth_In. now rewrite Hlen. }
  apply In_combine_seq in Hin. destruct Hin as [_ Hn]. rewrite Nat.sub_0_r in Hn.
  set (j' := nth k (map snd q) 0%nat) in *.
  assert (Hj' : (j' < length p)%nat).
  { apply nth_error_Some. congruence. }
  apply (proj1 (NoDup_nth p 0%nat) Hnd); auto.
  apply nth_error_nth with (d := 0%nat) in Hn. exact Hn.
Qed.

(** ** Counting and rounding *)

Lemma round_half_even_zc (z : Z) : round_half_even (zc z) = z.
Proof.
  unfold round_half_even.
  assert (Hf : Qfloor (zc z) = z).
  { unfold zc, Q2Qc. cbn [this]. rewrite (Qfloor_comp _ _ (Qred_correct (inject_Z z))).
    apply Qfloor_Z. }
  rewrite Hf. replace (zc z - zc z)%Qc with 0%Qc by ring. reflexivity.
Qed.

Lemma fsign_nc (n : nat) : n <> 0%nat -> fsign (nc n) = Gt.
Proof.
  intros Hn. unfold fsign. apply Qcgt_alt.
  pose proof (Qred_correct (inject_Z (Z.of_nat n))) as E.
  unfold Qclt, nc, zc, Q2Qc, this. rewrite E.
  unfold Qlt. simpl. lia.
Qed.

Lemma nc_nonzero (n : nat) : n <> 0%nat -> nc n <> 0%Qc.
Proof.
  intros Hn E. pose proof (fsign_nc Hn) as H. rewrite E in H. discriminate.
Qed.

Lemma count_true_le_length (mask : list bool) : (Np.count_true mask <= length mask)%nat.
Proof. unfold Np.count_true. apply filter_length_le. Qed.

Lemma count_true_perm (m m' : list bool) :
  Permutation m m' -> Np.count_true m = Np.count_true m'.
Proof.
  intros H. unfold Np.count_true. apply Permutation_length.
  induction H as [|x l l' H IH|x y l|l l' l'' H1 IH1 H2 IH2]; simpl.
  - constructor.
  - destruct x; auto.
  - destruct x, y; auto using perm_swap, Permutation_refl.
  - eapply perm_trans; eauto.
Qed.

Lemma count_true_map_all (A : Type) (f : A -> bool) (l : list A) (b : bool) :
  Forall (fun v => f v = b) l ->
  Np.count_true (map f l) = if b then length l else 0%nat.
Proof.
  unfold Np.count_true. induction 1 as [|v l Hv _ IH]; simpl.
  - now destruct b.
  - rewrite Hv. destruct b; simpl; now rewrite IH.
Qed.

Lemma count_true_disjoint (A : Type) (f g : A -> bool) (l : list A) :
  (forall v, f v = true -> g v = false) ->
  (Np.count_true (map f l) + Np.count_true (map g l) <= length l)%nat.
Proof.
  intros Hfg. unfold Np.count_true. induction l as [|v l IH]; simpl; auto.
  destruct (f v) eqn:Ef.
  - rewrite (Hfg v Ef). simpl. lia.
  - destruct (g v); simpl; lia.
Qed.

Lemma percent_value (mask : list bool) :
  mask <> [] ->
  ISIMIP._step6_calculate_percent_values_beyond_threshold mask
  = Fin (nc (Np.count_true mask) / nc (length mask))%Qc.
Proof.
  intros Hne. unfold ISIMIP._step6_calculate_percent_values_beyond_threshold, fdiv.
  rewrite fsign_nc; auto. destruct mask; [congruence | discriminate].
Qed.

Lemma percent_all_true (mask : list bool) :
  mask <> [] -> Np.count_true mask = length mask ->
  ISIMIP._step6_calculate_percent_values_beyond_threshold mask = Fin 1%Qc.
Proof.
  intros Hne Hall. rewrite percent_value, Hall by exact Hne. f_equal.
  apply Qcmult_inv_r. apply nc_nonzero. destruct mask; [congruence | discriminate].
Qed.

Lemma percent_all_false (mask : list bool) :
  mask <> [] -> Np.count_true mask = 0%nat ->
  ISIMIP._step6_calculate_percent_values_beyond_threshold mask = Fin 0%Qc.
Proof.
  intros Hne Hall. rewrite percent_value, Hall by exact Hne. f_equal.
  change (nc 0) with 0%Qc. unfold Qcdiv. apply Qcmult_0_l.
Qed.

(** [round(size * (k / size))] is [k]. *)
Lemma round_size_times_percent (mask : list bool) :
  mask <> [] ->
  py_round (fmul (Fin (nc (length mask)))
                 (ISIMIP._step6_calculate_percent_values_beyond_threshold mask))
  = OK (Z.of_nat (Np.count_true mask)).
Proof.
  intros Hne. rewrite percent_value by exact Hne. cbn [fmul py_round].
  rewrite Qcmult_div_r.
  - unfold nc. now rewrite round_half_even_zc.
  - apply nc_nonzero. destruct mask; [congruence | discriminate].
Qed.

Lemma P_obs_future_equal_frequencies (P : float) :
  ISIMIP._step6_get_P_obs_future (Fin 1%Qc) (Fin 1%Qc) P = P
  /\ ISIMIP._step6_get_P_obs_future (Fin 0%Qc) (Fin 0%Qc) P = P.
Proof. split; reflexivity. Qed.

(** ** Masks and assignments *)

Lemma put_nth_false (A : Type) (x : list A) (mask : list bool) (vals : list A)
    (j : nat) (d : A) :
  nth j mask false = false -> nth j (Np.put x mask vals) d = nth j x d.
Proof.
  revert mask vals j; induction x as [|a x IH]; intros [|b mask] vals j H; simpl; auto.
  destruct j as [|j]; simpl in *.
  - subst b. reflexivity.
  - destruct b; [destruct vals|]; simpl; now apply IH.
Qed.

Lemma put_repeat_nth_true (A : Type) (x : list A) (mask : list bool) (v : A)
    (m j : nat) (d : A) :
  (j < length x)%nat -> (Np.count_true mask <= m)%nat ->
  nth j mask false = true -> nth j (Np.put x mask (repeat v m)) d = v.
Proof.
  revert mask m j; induction x as [|a x IH]; intros [|b mask] m j Hj Hm H;
    simpl in *; try lia; try (destruct j; discriminate).
  unfold Np.count_true in *. simpl in Hm.
  destruct j as [|j]; simpl in H.
  - subst b. simpl in Hm. destruct m; [lia | reflexivity].
  - destruct b; simpl in Hm.
    + destruct m; [lia|]. simpl. apply IH; auto; lia.
    + simpl. apply IH; auto; lia.
Qed.

Lemma getitem_index_ok (A : Type) (x : list A) (idx : list nat) (d : A) :
  Forall (fun i => (i < length x)%nat) idx ->
  Np.getitem_index x idx = OK (map (fun i => nth i x d) idx).
Proof.
  induction 1 as [|i idx Hi _ IH]; simpl; auto.
  destruct (nth_error x i) as [a|] eqn:E.
  - rewrite IH. cbn [rbind]. f_equal. f_equal.
    symmetry. now apply nth_error_nth.
  - apply nth_error_None in E. lia.
Qed.

Lemma argsort_in_range (A : Type) (leb : A -> A -> bool) (x : list A) :
  Forall (fun i => (i < length x)%nat) (Np.argsort leb x).
Proof.
  apply Forall_forall. intros i Hi.
  apply (Permutation_in _ (argsort_perm leb x)) in Hi. apply in_seq in Hi. lia.
Qed.

Lemma map_nth_seq (A : Type) (l : list A) (d : A) :
  map (fun i => nth i l d) (seq 0 (length l)) = l.
Proof.
  induction l as [|a l IH]; simpl; auto. f_equal.
  rewrite <- seq_shift, map_map. exact IH.
Qed.

(** The sorted array is a permutation of the array. *)
Lemma take_argsort_perm (A : Type) (leb : A -> A -> bool) (x : list A) (d : A) :
  Permutation (map (fun i => nth i x d) (Np.argsort leb x)) x.
Proof.
  eapply perm_trans.
  - apply Permutation_map. apply argsort_perm.
  - rewrite map_nth_seq. apply Permutation_refl.
Qed.

Lemma bind_ret_l (G A B : Type) (a : A) (k : A -> M G B) : bind (ret a) k = k a.
Proof. reflexivity. Qed.

Lemma bind_lift_OK (G A B : Type) (a : A) (k : A -> M G B) : bind (lift (OK a)) k = k a.
Proof. reflexivity. Qed.

Lemma nth_map_seq (B : Type) (f : nat -> B) (n j : nat) (d : B) :
  (j < n)%nat -> nth j (map f (seq 0 n)) d = f j.
Proof.
  intros Hj. rewrite (nth_indep _ d (f 0%nat)) by now rewrite length_map, length_seq.
  rewrite (map_nth f). now rewrite seq_nth.
Qed.

Lemma slice_bound_of_nat (k n : nat) :
  (k <= n)%nat -> ISIMIP.slice_bound (Z.of_nat k) n = k.
Proof.
  intros H. unfold ISIMIP.slice_bound.
  destruct (Z.ltb_spec (Z.of_nat k) 0); [lia|]. rewrite Nat2Z.id. lia.
Qed.

Lemma slice_bound_from_end (k n : nat) :
  (k <= n)%nat -> ISIMIP.slice_bound (Z.of_nat n - Z.of_nat k) n = (n - k)%nat.
Proof.
  intros H. unfold ISIMIP.slice_bound.
  destruct (Z.ltb_spec (Z.of_nat n - Z.of_nat k) 0); lia.
Qed.

(** Between a value at most the lower threshold and a larger upper threshold. *)
Lemma below_lower_not_above_upper (v lower upper : float) :
  fleb v lower = true -> fltb lower upper = true -> fleb upper v = false.
Proof.
  destruct v as [a| | |], lower as [b| | |], upper as [c| | |];
    simpl; intros H1 H2; try discriminate; auto.
  apply Qcleb_le in H1. apply Qcltb_lt in H2.
  destruct (Qcleb c a) eqn:E; auto. apply Qcleb_le in E.
  exfalso. apply (Qclt_not_le _ _ H2). eapply Qcle_trans; eauto.
Qed.

(** ** Step 6: forcing entries to the lower bound *)

Lemma count_true_below (k s n : nat) :
  Np.count_true (map (fun i => (i <? k)%nat) (seq s n)) = Nat.min (k - s) n.
Proof.
  unfold Np.count_true. revert s; induction n as [|n IH]; intros s; simpl; [lia|].
  destruct (Nat.ltb_spec s k); simpl; rewrite IH; lia.
Qed.

Lemma nth_map_negb (l : list bool) (j : nat) :
  (j < length l)%nat -> nth j (map negb l) false = negb (nth j l false).
Proof.
  intros Hj. change false with (negb true) at 1. rewrite map_nth.
  f_equal. now apply nth_indep.
Qed.

Lemma bind_run (G A B : Type) (m : M G A) (k : A -> M G B) (a : A) (w w1 : World G) :
  m w = (OK a, w1) -> bind m k w = k a w1.
Proof. intros E. unfold bind. now rewrite E. Qed.

(** The sorting permutation of step 6, the sorted series and the number of
    its values at or below the lower threshold. *)
Definition step6_order (cm_future : list float) : list nat :=
  Np.argsort fsortleb cm_future.

Definition step6_sorted (cm_future : list float) : list float :=
  map (fun i => nth i cm_future NaN) (step6_order cm_future).

Definition step6_nr_below (self : ISIMIP.t) (cm_future : list float) : nat :=
  Np.count_true
    (ISIMIP._get_mask_for_values_beyond_lower_threshold self (step6_sorted cm_future)).

Lemma step6_sorted_ok (cm_future : list float) :
  Np.getitem_index cm_future (Np.argsort fsortleb cm_future)
  = OK (step6_sorted cm_future).
Proof. apply getitem_index_ok. apply argsort_in_range. Qed.

Lemma step6_sorted_length (cm_future : list float) :
  length (step6_sorted cm_future) = length cm_future.
Proof. unfold step6_sorted, step6_order. now rewrite length_map, argsort_length. Qed.

Lemma map_nonempty (A B : Type) (f : A -> B) (l : list A) : l <> [] -> map f l <> [].
Proof. destruct l; [congruence | discriminate]. Qed.

Lemma sort_nonempty (l : list float) : l <> [] -> Np.sort fsortleb l <> [].
Proof.
  intros H E. apply (f_equal (@length _)) in E. rewrite sort_length in E.
  destruct l; [congruence | discriminate].
Qed.

Lemma step6_sorted_nonempty (cm_future : list float) :
  cm_future <> [] -> step6_sorted cm_future <> [].
Proof.
  intros H E. apply (f_equal (@length _)) in E. rewrite step6_sorted_length in E.
  destruct cm_future; [congruence | discriminate].
Qed.

(** When the historical frequencies of values beyond a threshold agree (both
    one, or both zero), the future count is the count of the model itself. *)
Lemma nr_of_entries_equal_frequencies (self : ISIMIP.t) (m1 m2 m3 : list bool) (b : bool) :
  ISIMIP.adjust_frequencies_of_values_beyond_thresholds self = true ->
  m1 <> [] -> m2 <> [] -> m3 <> [] ->
  Np.count_true m1 = (if b then length m1 else 0%nat) ->
  Np.count_true m2 = (if b then length m2 else 0%nat) ->
  ISIMIP._step6_get_nr_of_entries_to_set_to_bound self m1 m2 m3
  = OK (Z.of_nat (Np.count_true m3)).
Proof.
  intros Hadj H1 H2 H3 C1 C2. unfold ISIMIP._step6_get_nr_of_entries_to_set_to_bound.
  rewrite Hadj. cbv zeta. destruct b.
  - rewrite (percent_all_true H1 C1), (percent_all_true H2 C2).
    rewrite (proj1 (P_obs_future_equal_frequencies _)).
    now apply round_size_times_percent.
  - rewrite (percent_all_false H1 C1), (percent_all_false H2 C2).
    rewrite (proj2 (P_obs_future_equal_frequencies _)).
    now apply round_size_times_percent.
Qed.

Lemma count_true_map_sorted (f : float -> bool) (l : list float) (b : bool) :
  Forall (fun v => f v = b) l ->
  Np.count_true (map f (Np.sort fsortleb l))
  = if b then length (map f (Np.sort fsortleb l)) else 0%nat.
Proof.
  intros H. rewrite length_map. apply count_true_map_all.
  exact (Permutation_Forall (sort_perm fsortleb l) H).
Qed.

Lemma lower_mask_length (nr : Z) (x : list float) :
  length (ISIMIP._step6_get_mask_for_entries_to_set_to_lower_bound nr x) = length x.
Proof.
  unfold ISIMIP._step6_get_mask_for_entries_to_set_to_lower_bound.
  now rewrite length_map, length_seq.
Qed.

Lemma upper_mask_length (nr : Z) (x : list float) :
  length (ISIMIP._step6_get_mask_for_entries_to_set_to_upper_bound nr x) = length x.
Proof.
  unfold ISIMIP._step6_get_mask_for_entries_to_set_to_upper_bound.
  now rewrite length_map, length_seq.
Qed.

Lemma lower_mask_nth (k : nat) (x : list float) (j : nat) :
  (k <= length x)%nat -> (j < length x)%nat ->
  nth j (ISIMIP._step6_get_mask_for_entries_to_set_to_lower_bound (Z.of_nat k) x) false
  = (j <? k)%nat.
Proof.
  intros Hk Hj. unfold ISIMIP._step6_get_mask_for_entries_to_set_to_lower_bound.
  rewrite nth_map_seq by exact Hj. now rewrite slice_bound_of_nat.
Qed.

Lemma upper_mask_nth (k : nat) (x : list float) (j : nat) :
  (k <= length x)%nat -> (j < length x)%nat ->
  nth j (ISIMIP._step6_get_mask_for_entries_to_set_to_upper_bound (Z.of_nat k) x) false
  = (length x - k <=? j)%nat.
Proof.
  intros Hk Hj. unfold ISIMIP._step6_get_mask_for_entries_to_set_to_upper_bound.
  rewrite nth_map_seq by exact Hj. now rewrite slice_bound_from_end.
Qed.

(** [mask[0:k] = True] marks exactly [k] entries. *)
Lemma lower_mask_count (k : nat) (x : list float) :
  (k <= length x)%nat ->
  Np.count_true (ISIMIP._step6_get_mask_for_entries_to_set_to_lower_bound (Z.of_nat k) x)
  = k.
Proof.
  intros Hk. unfold ISIMIP._step6_get_mask_for_entries_to_set_to_lower_bound.
  rewrite slice_bound_of_nat by exact Hk. rewrite count_true_below. lia.
Qed.

(** The three assignments of step 6 on the sorted series: the first [kl]
    entries hold the lower bound after them, whatever is written between the
    bounds. *)
Lemma forced_entries_survive (x : list float) (kl ku : nat) (lower upper : float)
    (vals : list float) (j : nat) :
  (kl + ku <= length x)%nat -> (j < kl)%nat ->
  let mask_lower := ISIMIP._step6_get_mask_for_entries_to_set_to_lower_bound (Z.of_nat kl) x in
  let mask_upper := ISIMIP._step6_get_mask_for_entries_to_set_to_upper_bound (Z.of_nat ku) x in
  let mask_rest := Np.map2 andb (map negb mask_lower) (map negb mask_upper) in
  let m1 := Np.put x mask_lower (repeat lower (Np.count_true mask_lower)) in
  let m2 := Np.put m1 mask_upper (repeat upper (Np.count_true mask_upper)) in
  nth j m2 NaN = lower /\ nth j (Np.put m2 mask_rest vals) NaN = lower.
Proof.
  intros Hsum Hj mask_lower mask_upper mask_rest m1 m2.
  assert (HL : nth j mask_lower false = true).
  { unfold mask_lower. rewrite lower_mask_nth by lia. apply Nat.ltb_lt; lia. }
  assert (HU : nth j mask_upper false = false).
  { unfold mask_upper. rewrite upper_mask_nth by lia. apply Nat.leb_gt; lia. }
  assert (H2 : nth j m2 NaN = lower).
  { unfold m2. rewrite put_nth_false by exact HU.
    unfold m1. apply put_repeat_nth_true; [lia | lia | exact HL]. }
  split; [exact H2|].
  rewrite put_nth_false; [exact H2|].
  unfold mask_rest. rewrite map2_nth.
  - rewrite nth_map_negb, HL; [reflexivity|].
    unfold mask_lower. rewrite lower_mask_length. lia.
  - rewrite length_map. unfold mask_lower. rewrite lower_mask_length. lia.
  - rewrite length_map. unfold mask_upper. rewrite upper_mask_length. lia.
Qed.

(** Undoing the sorting puts the entry of sorted position [j] back at the
    position it came from. *)
Lemma unsort_entry (cm_future mapped : list float) (j : nat) :
  length mapped = length cm_future -> (j < length cm_future)%nat ->
  let order := step6_order cm_future in
  nth (nth j order 0%nat) (map (fun i => nth i mapped NaN) (Np.argsort Nat.leb order)) NaN
  = nth j mapped NaN.
Proof.
  intros Hlen Hj order.
  assert (Hord : length order = length cm_future) by apply argsort_length.
  assert (Hperm : Permutation order (seq 0 (length order))).
  { rewrite Hord. apply argsort_perm. }
  assert (Hin : (nth j order 0%nat < length order)%nat).
  { assert (In (nth j order 0%nat) order) as Hi by (apply nth_In; lia).
    apply (Permutation_in _ Hperm) in Hi. apply in_seq in Hi. lia. }
  rewrite (nth_indep _ NaN (nth 0%nat mapped NaN))
    by (rewrite length_map, argsort_length; exact Hin).
  rewrite (map_nth (fun i => nth i mapped NaN)).
  rewrite argsort_inverse; [reflexivity | exact Hperm | lia].
Qed.

Section Step6Facts.
Context {G : Type} {K : ISIMIP.Kernels G}.
Variable self : ISIMIP.t.
Variables obs_hist obs_future cm_hist cm_future : list float.

(** The mapping between the thresholds returns as many values as it is given
    to adjust. *)
Definition adjusts_in_place : Prop :=
  forall (a b c d e : list float) (w : World G),
    exists vals w',
      ISIMIP._step6_adjust_values_between_thresholds self a b c d e w = (OK vals, w')
      /\ length vals = length d.

(** A run of step 6 with [kl] entries for the lower and [ku] for the upper
    bound that fit into the series. *)
Lemma step6_run (kl ku : nat) (w : World G) :
  adjusts_in_place ->
  (kl + ku <= length cm_future)%nat ->
  (if ISIMIP.has_lower_threshold self then
     lift (ISIMIP._step6_get_nr_of_entries_to_set_to_bound self
             (ISIMIP._get_mask_for_values_beyond_lower_threshold self
                (Np.sort fsortleb obs_hist))
             (ISIMIP._get_mask_for_values_beyond_lower_threshold self
                (Np.sort fsortleb cm_hist))
             (ISIMIP._get_mask_for_values_beyond_lower_threshold self
                (step6_sorted cm_future)))
   else ret 0%Z) = (ret (Z.of_nat kl) : M G Z) ->
  (if ISIMIP.has_upper_threshold self then
     lift (ISIMIP._step6_get_nr_of_entries_to_set_to_bound self
             (ISIMIP._get_mask_for_values_beyond_upper_threshold self
                (Np.sort fsortleb obs_hist))
             (ISIMIP._get_mask_for_values_beyond_upper_threshold self
                (Np.sort fsortleb cm_hist))
             (ISIMIP._get_mask_for_values_beyond_upper_threshold self
                (step6_sorted cm_future)))
   else ret 0%Z) = (ret (Z.of_nat ku) : M G Z) ->
  exists output w',
    ISIMIP.step6 self obs_hist obs_future cm_hist cm_future w = (OK output, w')
    /\ length output = length cm_future
    /\ forall j, (j < kl)%nat ->
         nth (nth j (step6_order cm_future) 0%nat) output NaN = ISIMIP.lower_bound self.
Proof.
  intros Hk Hsum HL HU.
  pose proof (step6_sorted_length cm_future) as Hlen.
  unfold ISIMIP.step6. cbv zeta.
  rewrite step6_sorted_ok, bind_lift_OK. cbv beta.
  rewrite HL, bind_ret_l. cbv beta. rewrite HU, bind_ret_l. cbv beta.
  replace (Z.of_nat (length (step6_sorted cm_future)) <? Z.of_nat kl + Z.of_nat ku)%Z
    with false by (symmetry; apply Z.ltb_ge; lia).
  rewrite bind_ret_l. cbv beta iota.
  set (mask_lower := ISIMIP._step6_get_mask_for_entries_to_set_to_lower_bound _ _).
  set (mask_upper := ISIMIP._step6_get_mask_for_entries_to_set_to_upper_bound _ _).
  rewrite fill_mask_ok by apply lower_mask_length.
  rewrite bind_lift_OK. cbv beta.
  rewrite fill_mask_ok by (rewrite put_length; apply upper_mask_length).
  rewrite bind_lift_OK. cbv beta.
  set (m1 := Np.put (step6_sorted cm_future) mask_lower _).
  set (m2 := Np.put m1 mask_upper _).
  set (mask_rest := Np.map2 andb (map negb mask_lower) (map negb mask_upper)).
  assert (Hm2 : length m2 = length cm_future).
  { unfold m2, m1. now rewrite !put_length. }
  assert (Hrest : length mask_rest = length m2).
  { unfold mask_rest. rewrite map2_length; rewrite !length_map;
      unfold mask_lower, mask_upper; rewrite ?lower_mask_length, ?upper_mask_length; lia. }
  assert (Hrev : forall mapped : list float, length mapped = length cm_future ->
            Np.getitem_index mapped (Np.argsort Nat.leb (Np.argsort fsortleb cm_future))
            = OK (map (fun i => nth i mapped NaN)
                      (Np.argsort Nat.leb (step6_order cm_future)))).
  { intros mapped Hm. apply getitem_index_ok. rewrite Hm.
    rewrite <- (argsort_length fsortleb cm_future). apply argsort_in_range. }
  destruct (existsb (fun b => b) mask_rest).
  - destruct (Hk (ISIMIP._get_values_between_thresholds self (Np.sort fsortleb obs_hist))
                 (ISIMIP._get_values_between_thresholds self (Np.sort fsortleb obs_future))
                 (ISIMIP._get_values_between_thresholds self (Np.sort fsortleb cm_hist))
                 (Np.select m2 mask_rest)
                 (ISIMIP._get_values_between_thresholds self (step6_sorted cm_future)) w)
      as (vals & w1 & Ek & Hvals).
    rewrite select_length in Hvals by exact Hrest.
    exists (map (fun i => nth i (Np.put m2 mask_rest vals) NaN)
                (Np.argsort Nat.leb (step6_order cm_future))), w1.
    split; [|split].
    + unfold bind. rewrite Ek. cbv beta iota.
      unfold lift. rewrite (setitem_mask_ok _ _ _ Hrest Hvals).
      rewrite Hrev; [reflexivity|]. now rewrite put_length.
    + unfold step6_order. now rewrite length_map, !argsort_length.
    + intros j Hj. rewrite unsort_entry; [| now rewrite put_length | lia].
      destruct (@forced_entries_survive (step6_sorted cm_future) kl ku
                  (ISIMIP.lower_bound self) (ISIMIP.upper_bound self) vals j)
        as [_ F]; [lia | lia | exact F].
  - exists (map (fun i => nth i m2 NaN) (Np.argsort Nat.leb (step6_order cm_future))), w.
    split; [|split].
    + rewrite bind_ret_l. unfold lift. now rewrite Hrev.
    + unfold step6_order. now rewrite length_map, !argsort_length.
    + intros j Hj. rewrite unsort_entry; [| exact Hm2 | lia].
      destruct (@forced_entries_survive (step6_sorted cm_future) kl ku
                  (ISIMIP.lower_bound self) (ISIMIP.upper_bound self) [] j)
        as [F _]; [lia | lia | exact F].
Qed.

End Step6Facts.


(** A configuration with both thresholds and series whose historical values
    lie at or below the lower threshold. *)
Definition forcing_config : ISIMIP.t :=
  ISIMIP_config false false (Fin 0%Qc) (Fin (zc 2)) (Fin (zc 10)) (Fin (zc 8)).
Definition forcing_obs_hist : list float := floats [0; 1]%Z.
Definition forcing_cm_hist : list float := floats [1; 2]%Z.
Definition forcing_cm_future : list float := floats [3; 0; 9; 1]%Z.


(** * Further properties of the sources *)

Unset Implicit Arguments.

(** ** Comparisons *)

Lemma Qcltb_negb (x y : Qc) : Qcltb x y = negb (Qcleb y x).
Proof. reflexivity. Qed.

Lemma Qcleb_total (x y : Qc) : Qcleb x y = false -> Qcleb y x = true.
Proof.
  intros H. apply Qcleb_le. apply Qclt_le_weak. apply Qcltb_lt.
  rewrite Qcltb_negb, H. reflexivity.
Qed.

Lemma Qcleb_trans (x y z : Qc) :
  Qcleb x y = true -> Qcleb y z = true -> Qcleb x z = true.
Proof.
  intros H1 H2. apply Qcleb_le in H1. apply Qcleb_le in H2. apply Qcleb_le.
  eapply Qcle_trans; eauto.
Qed.

Lemma Qcleb_refl (x : Qc) : Qcleb x x = true.
Proof. apply Qcleb_le. apply Qcle_refl. Qed.

(** ** ISIMIP: the masks of the thresholds *)

(** Where the lower threshold lies below the upper one, a value is at or
    below the lower threshold, strictly between the two, or at or above the
    upper one, and only one of the three; a NaN is none of them. *)
Lemma threshold_classes (lower upper v : float) :
  fltb lower upper = true ->
  (Nat.b2n (fleb v lower) + Nat.b2n (fltb lower v && fltb v upper)
   + Nat.b2n (fleb upper v) + Nat.b2n (isnan v) = 1)%nat.
Proof.
  intros H.
  destruct v as [a| | |], lower as [l| | |], upper as [u| | |];
    simpl in *; try discriminate; try reflexivity;
    rewrite ?Qcltb_negb in *;
    repeat match goal with
           | |- context [Qcleb ?p ?q] => destruct (Qcleb p q) eqn:?
           end; simpl in *; try reflexivity; try discriminate.
  - exfalso. assert (Hul : Qcleb u l = true) by (eapply Qcleb_trans; eauto).
    rewrite Hul in H. discriminate H.
Qed.

Lemma nth_map_any (A B : Type) (f : A -> B) (l : list A) (i : nat) (d : B) (d' : A) :
  (i < length l)%nat -> nth i (map f l) d = f (nth i l d').
Proof.
  intros Hi. rewrite (nth_indep _ d (f d')) by now rewrite length_map.
  apply map_nth.
Qed.

Lemma count_true_cons (b : bool) (m : list bool) :
  Np.count_true (b :: m) = (Nat.b2n b + Np.count_true m)%nat.
Proof. unfold Np.count_true. destruct b; reflexivity. Qed.

(** X1.  With the lower threshold below the upper one, the three masks
    [x <= lower_threshold], [lower_threshold < x < upper_threshold] and
    [x >= upper_threshold] split the values of an array: at each position
    exactly one of the three holds, or the value is NaN and none holds; so the
    three counts and the number of NaNs add up to the size of the array. *)
Theorem thresholds_split_the_values (self : ISIMIP.t) (x : list float) :
  fltb (ISIMIP.lower_threshold self) (ISIMIP.upper_threshold self) = true ->
  (forall i, (i < length x)%nat ->
     (Nat.b2n (nth i (ISIMIP._get_mask_for_values_beyond_lower_threshold self x) false)
      + Nat.b2n (nth i (ISIMIP._get_mask_for_values_between_thresholds self x) false)
      + Nat.b2n (nth i (ISIMIP._get_mask_for_values_beyond_upper_threshold self x) false)
      + Nat.b2n (isnan (nth i x NaN)) = 1)%nat)
  /\ (Np.count_true (ISIMIP._get_mask_for_values_beyond_lower_threshold self x)
      + Np.count_true (ISIMIP._get_mask_for_values_between_thresholds self x)
      + Np.count_true (ISIMIP._get_mask_for_values_beyond_upper_threshold self x)
      + Np.count_true (map isnan x) = length x)%nat.
Proof.
  intros H.
  unfold ISIMIP._get_mask_for_values_beyond_lower_threshold,
    ISIMIP._get_mask_for_values_between_thresholds,
    ISIMIP._get_mask_for_values_beyond_upper_threshold.
  split.
  - intros i Hi. rewrite !(nth_map_any _ _ _ x i false NaN Hi).
    exact (threshold_classes _ _ _ H).
  - induction x as [|v x IH]; [reflexivity|].
    cbn [map length]. rewrite !count_true_cons.
    pose proof (threshold_classes _ _ v H) as Hv. lia.
Qed.

Lemma thresholds_split_the_values_witness :
  let x := [Fin 0%Qc; Fin (zc 2); Fin (zc 5); NaN; Fin (zc 8); PInf] in
  ISIMIP._get_mask_for_values_beyond_lower_threshold forcing_config x
  = [true; true; false; false; false; false]
  /\ ISIMIP._get_mask_for_values_between_thresholds forcing_config x
     = [false; false; true; false; false; false]
  /\ ISIMIP._get_mask_for_values_beyond_upper_threshold forcing_config x
     = [false; false; false; false; true; true]
  /\ (Np.count_true (ISIMIP._get_mask_for_values_beyond_lower_threshold forcing_config x)
      + Np.count_true (ISIMIP._get_mask_for_values_between_thresholds forcing_config x)
      + Np.count_true (ISIMIP._get_mask_for_values_beyond_upper_threshold forcing_config x)
      + Np.count_true (map isnan x) = length x)%nat.
Proof.
  intros x.
  split; [reflexivity|]. split; [reflexivity|]. split; [reflexivity|].
  apply (thresholds_split_the_values forcing_config x). reflexivity.
Defined.

(** ** ISIMIP: the reasonable physical range *)

(** Not below [lo] and not above [hi]: a NaN, or a value of [[lo, hi]]. *)
Definition within_range (lo hi v : float) : Prop :=
  isnan v = true \/ (fleb lo v = true /\ fleb v hi = true).

Lemma not_outside_within (lo hi v : float) :
  fltb lo hi = true ->
  fltb v lo || fltb hi v = false <-> within_range lo hi v.
Proof.
  intros H. unfold within_range.
  destruct v as [a| | |], lo as [l| | |], hi as [u| | |];
    simpl in *; try discriminate;
    rewrite ?Qcltb_negb in *;
    repeat match goal with
           | |- context [Qcleb ?p ?q] => destruct (Qcleb p q) eqn:?
           end; simpl; split; intros; auto;
    try discriminate;
    repeat match goal with
           | Hx : _ \/ _ |- _ => destruct Hx
           | Hx : _ /\ _ |- _ => destruct Hx
           end; try discriminate; auto.
Qed.

Lemma out_of_range_false (lo hi : float) (x : list float) :
  fltb lo hi = true ->
  ISIMIP.out_of_range (lo, hi) x = false <-> Forall (within_range lo hi) x.
Proof.
  intros H. unfold ISIMIP.out_of_range. cbn [fst snd].
  induction x as [|v x IH]; cbn [existsb].
  - split; auto.
  - rewrite orb_false_iff, IH, (not_outside_within lo hi v H). split.
    + intros [Hv Hx]. now constructor.
    + intros Hx. inversion Hx; subst. now split.
Qed.

(** X2.  The check of the reasonable physical range [[lo, hi]] with
    [lo < hi] passes exactly when every value of the three series is a NaN or
    lies in the closed interval: the two ends are accepted, and a NaN is never
    reported. *)
Theorem physical_range_check_accepts (self : ISIMIP.t) (lo hi : float)
    (obs_hist cm_hist cm_future : list float) :
  ISIMIP.reasonable_physical_range self = Some (lo, hi) ->
  fltb lo hi = true ->
  ISIMIP._check_reasonable_physical_range self obs_hist cm_hist cm_future = OK tt
  <-> Forall (within_range lo hi) obs_hist
      /\ Forall (within_range lo hi) cm_hist
      /\ Forall (within_range lo hi) cm_future.
Proof.
  intros Hr H. unfold ISIMIP._check_reasonable_physical_range. rewrite Hr.
  rewrite <- !(out_of_range_false lo hi _ H).
  destruct (ISIMIP.out_of_range (lo, hi) obs_hist);
    [split; [discriminate | intros [E _]; discriminate E]|].
  destruct (ISIMIP.out_of_range (lo, hi) cm_hist);
    [split; [discriminate | intros [_ [E _]]; discriminate E]|].
  destruct (ISIMIP.out_of_range (lo, hi) cm_future);
    [split; [discriminate | intros [_ [_ E]]; discriminate E]|].
  split; auto.
Qed.

(** The settings of the variable [tas]: unbounded, detrended, with the
    reasonable physical range [[0, 400]]. *)
Definition tas_config : ISIMIP.t :=
  ISIMIP.mk "additive" true (Some (Fin 0%Qc, Fin (zc 400))) "tas"
    NInf NInf PInf PInf
    false 31 false true true true false true false
    "linear_interpolation" "linear" "isimipv3.0" true 31 1.

Lemma physical_range_check_accepts_witness :
  ISIMIP._check_reasonable_physical_range tas_config
    [Fin 0%Qc; NaN] [Fin (zc 400)] [Fin (zc 273)] = OK tt
  <-> Forall (within_range (Fin 0%Qc) (Fin (zc 400))) [Fin 0%Qc; NaN]
      /\ Forall (within_range (Fin 0%Qc) (Fin (zc 400))) [Fin (zc 400)]
      /\ Forall (within_range (Fin 0%Qc) (Fin (zc 400))) [Fin (zc 273)].
Proof.
  apply (physical_range_check_accepts tas_config (Fin 0%Qc) (Fin (zc 400)));
    reflexivity.
Defined.

(** X3.  [ISIMIP.apply_location] checks the physical range before anything
    else: a value of [obs] below the range or above it ends the call with the
    [ValueError] about [obs_hist], whatever the other arguments are (missing
    or ill-sized time arrays included), without a warning and without a draw
    from the random state. *)
Theorem physical_range_is_checked_first {U : Utils} {G : Type} {R : NumpyRandom G}
    {K : ISIMIP.Kernels G} (self : ISIMIP.t) (lo hi : float)
    (obs cm_hist cm_future : list float)
    (time_obs time_cm_hist time_cm_future : option (list Date)) (w : World G) :
  ISIMIP.reasonable_physical_range self = Some (lo, hi) ->
  Exists (fun v => fltb v lo = true \/ fltb hi v = true) obs ->
  ISIMIP.apply_location self obs cm_hist cm_future
    time_obs time_cm_hist time_cm_future w
  = (Raise (ValueError "Values of obs_hist lie outside the reasonable physical range"), w).
Proof.
  intros Hr Hex. unfold ISIMIP.apply_location, ISIMIP._check_reasonable_physical_range.
  rewrite Hr.
  assert (E : ISIMIP.out_of_range (lo, hi) obs = true).
  { unfold ISIMIP.out_of_range. apply existsb_exists.
    apply Exists_exists in Hex. destruct Hex as (v & Hin & Hv).
    exists v. split; [exact Hin|]. cbn [fst snd].
    destruct Hv as [Hv|Hv]; rewrite Hv; auto using orb_true_r. }
  rewrite E. reflexivity.
Qed.

Lemma physical_range_is_checked_first_witness :
  ISIMIP.apply_location (U := sample_utils) (R := sample_random)
    (K := sample_kernels nat (fun _ _ => (Fin 0%Qc, Fin 1%Qc)))
    tas_config [Fin (zc 273); Fin (zc 401)] [Fin (zc 280)] [] None None None world0
  = (Raise (ValueError "Values of obs_hist lie outside the reasonable physical range"),
     world0).
Proof.
  apply (@physical_range_is_checked_first sample_utils nat sample_random
           (sample_kernels nat (fun _ _ => (Fin 0%Qc, Fin 1%Qc)))
           tas_config (Fin 0%Qc) (Fin (zc 400))).
  - reflexivity.
  - apply Exists_cons_tl. apply Exists_cons_hd. right. reflexivity.
Defined.

(** ** The size of what [apply_location] returns *)

Lemma bind_OK_inv (G A B : Type) (m : M G A) (k : A -> M G B) (w w' : World G) (b : B) :
  bind m k w = (OK b, w') ->
  exists a w1, m w = (OK a, w1) /\ k a w1 = (OK b, w').
Proof.
  unfold bind. destruct (m w) as [[a|e] w1]; intros H; [|discriminate].
  now exists a, w1.
Qed.

Lemma lift_OK_inv (G A : Type) (r : result A) (w w' : World G) (a : A) :
  lift r w = (OK a, w') -> r = OK a /\ w' = w.
Proof. unfold lift. intros H. injection H as -> ->. now split. Qed.

Lemma rbind_OK_inv (A B : Type) (r : result A) (k : A -> result B) (b : B) :
  rbind r k = OK b -> exists a, r = OK a /\ k a = OK b.
Proof. destruct r as [a|e]; simpl; intros H; [now exists a | discriminate]. Qed.

(** A property of the accumulator that every turn of a loop keeps holds of
    what the loop returns. *)
Lemma for_in_invariant (G W A : Type) (P : A -> Prop) (body : W -> A -> M G A)
    (ws : list W) :
  (forall x a w a' w', In x ws -> P a -> body x a w = (OK a', w') -> P a') ->
  forall acc w out w', P acc -> for_in ws body acc w = (OK out, w') -> P out.
Proof.
  induction ws as [|x ws IH]; intros Hbody acc w out w' Hacc H; simpl in H.
  - unfold ret in H. now injection H as <- _.
  - apply bind_OK_inv in H. destruct H as (a & w1 & H1 & H2).
    apply (IH (fun y b w0 b' w0' Hy => Hbody y b w0 b' w0' (or_intror Hy)) a w1 out w').
    + exact (Hbody x acc w a w1 (or_introl eq_refl) Hacc H1).
    + exact H2.
Qed.

Lemma fold_result_invariant (W A : Type) (P : A -> Prop)
    (body : result A -> W -> result A) (ws : list W) :
  (forall e x, body (Raise e) x = Raise e) ->
  (forall x a a', In x ws -> P a -> body (OK a) x = OK a' -> P a') ->
  forall acc out, P acc -> fold_left body ws (OK acc) = OK out -> P out.
Proof.
  intros Hraise. induction ws as [|x ws IH]; intros Hbody acc out Hacc H; simpl in H.
  - now injection H as <-.
  - destruct (body (OK acc) x) as [a|e] eqn:E.
    + apply (IH (fun y b b' Hy => Hbody y b b' (or_intror Hy)) a out); auto.
      exact (Hbody x acc a (or_introl eq_refl) Hacc E).
    + exfalso. clear - Hraise H. induction ws as [|y ws IH]; simpl in H.
      * discriminate.
      * rewrite Hraise in H. auto.
Qed.

Lemma setitem_mask_length (A : Type) (x : list A) (mask : list bool) (vals y : list A) :
  Np.setitem_mask x mask vals = OK y -> length y = length x.
Proof.
  unfold Np.setitem_mask. destruct (negb _); [discriminate|].
  destruct (_ =? _)%nat.
  - intros H. injection H as <-. apply put_length.
  - destruct vals as [|v [|? ?]]; try discriminate.
    intros H. injection H as <-. apply put_length.
Qed.

Lemma set_nth_length (A : Type) (i : nat) (v : A) (x : list A) :
  length (Np.set_nth i v x) = length x.
Proof.
  revert i; induction x as [|a x IH]; intros [|i]; simpl; auto.
Qed.

Lemma put_index_length (A : Type) (idx : list nat) (x vals : list A) :
  length (Np.put_index x idx vals) = length x.
Proof.
  revert x vals; induction idx as [|i idx IH]; intros x [|v vals]; simpl; auto.
  now rewrite IH, set_nth_length.
Qed.

Lemma setitem_index_length (A : Type) (x : list A) (idx : list nat) (vals y : list A) :
  Np.setitem_index x idx vals = OK y -> length y = length x.
Proof.
  unfold Np.setitem_index. destruct (negb _); [discriminate|].
  destruct (_ =? _)%nat.
  - intros H. injection H as <-. apply put_index_length.
  - destruct vals as [|v [|? ?]]; try discriminate.
    intros H. injection H as <-. apply put_index_length.
Qed.

Lemma getitem_index_length (A : Type) (x : list A) (idx : list nat) (y : list A) :
  Np.getitem_index x idx = OK y -> length y = length idx.
Proof.
  revert y; induction idx as [|i idx IH]; intros y H; simpl in H.
  - now injection H as <-.
  - destruct (nth_error x i); [|discriminate].
    apply rbind_OK_inv in H. destruct H as (r & Hr & H).
    injection H as <-. simpl. f_equal. now apply IH.
Qed.

(** Takes a chain of binds that returned apart, down to its last call. *)
Ltac last_call H :=
  repeat first
    [ apply bind_OK_inv in H; destruct H as (? & ? & _ & H); cbv beta in H
    | match type of H with
      | context [match ?p with pair _ _ => _ end] => is_var p; destruct p
      end ].

(** X4.  What [ISIMIP.apply_location] returns has the size of [cm_future]
    (without the scaling by the annual cycle of upper bounds of steps 1 and
    8): in the running-window mode and in the month mode, for any data and
    time arrays with which the call returns. *)
Theorem ISIMIP_apply_location_size {U : Utils} {G : Type} {R : NumpyRandom G}
    {K : ISIMIP.Kernels G} (self : ISIMIP.t) (obs cm_hist cm_future : list float)
    (time_obs time_cm_hist time_cm_future : option (list Date))
    (w w' : World G) (debiased : list float) :
  ISIMIP.scale_by_annual_cycle_of_upper_bounds self = false ->
  ISIMIP.apply_location self obs cm_hist cm_future
    time_obs time_cm_hist time_cm_future w = (OK debiased, w') ->
  length debiased = length cm_future.
Proof.
  intros Hscale H. unfold ISIMIP.apply_location in H.
  apply bind_OK_inv in H. destruct H as (? & ? & _ & H).
  apply bind_OK_inv in H. destruct H as ([[t1 t2] t3] & ? & _ & H).
  apply bind_OK_inv in H. destruct H as (? & ? & _ & H).
  unfold ISIMIP.step1 in H. rewrite Hscale in H.
  apply bind_OK_inv in H. destruct H as (acc & w2 & Hloop & H).
  apply lift_OK_inv in H. destruct H as [H _].
  unfold ISIMIP.step8 in H. rewrite Hscale in H. injection H as <-.
  assert (Hzero : length (Np.zeros_like (Fin 0%Qc) cm_future) = length cm_future)
    by apply repeat_length.
  destruct (ISIMIP.running_window_mode self).
  - refine (for_in_invariant _ _ _ (fun a => length a = length cm_future) _ _ _
              _ _ _ _ Hzero Hloop).
    intros [center idx] a w0 a' w0' _ Ha Hbody.
    last_call Hbody. apply lift_OK_inv in Hbody. destruct Hbody as [Hbody _].
    apply setitem_index_length in Hbody. congruence.
  - refine (for_in_invariant _ _ _ (fun a => length a = length cm_future) _ _ _
              _ _ _ _ Hzero Hloop).
    intros i_month a w0 a' w0' _ Ha Hbody.
    last_call Hbody. apply lift_OK_inv in Hbody. destruct Hbody as [Hbody _].
    apply setitem_mask_length in Hbody. congruence.
Qed.

Lemma ISIMIP_apply_location_size_witness :
  exists debiased w',
    ISIMIP.apply_location (U := sample_utils) (R := sample_random)
      (K := sample_kernels nat (fun _ _ => (Fin 0%Qc, Fin 1%Qc)))
      tas_config (floats [0; 1; 3]%Z) (floats [1; 2; 5]%Z) (floats [3; 0; 9; 1]%Z)
      None None None world0 = (OK debiased, w')
    /\ length debiased = length (floats [3; 0; 9; 1]%Z).
Proof.
  do 2 eexists. split; [vm_compute; reflexivity|].
  eapply (ISIMIP_apply_location_size (U := sample_utils) (R := sample_random)
            (K := sample_kernels nat (fun _ _ => (Fin 0%Qc, Fin 1%Qc)))
            tas_config (floats [0; 1; 3]%Z) (floats [1; 2; 5]%Z)
            (floats [3; 0; 9; 1]%Z) None None None world0);
    [reflexivity | vm_compute; reflexivity].
Defined.

Section SizeFacts.
Context {U : Utils} {G : Type} {R : NumpyRandom G}.

Lemma ecdf_OK_length (x y : list Qc) (m : string) (r : list Qc) :
  ecdf x y m = OK r -> length r = length y.
Proof.
  unfold ecdf. destruct x; [discriminate|]. intros H. injection H as <-.
  apply ecdf_values_length.
Qed.

Lemma iecdf_OK_length (x p : list Qc) (m : string) (r : list Qc) :
  iecdf x p m = OK r -> length r = length p.
Proof.
  unfold iecdf. destruct x; [discriminate|]. intros H. injection H as <-.
  apply iecdf_values_length.
Qed.

Lemma CDFt_mapping_length (self : CDFt.t) (obs cm_hist cm_future mapped : list Qc) :
  CDFt._apply_CDFt_mapping self obs cm_hist cm_future = OK mapped ->
  length mapped = length cm_future.
Proof.
  unfold CDFt._apply_CDFt_mapping. intros H.
  apply rbind_OK_inv in H. destruct H as ([h f] & Hshift & H).
  assert (Hf : length f = length cm_future).
  { destruct (_ =? _)%string; [injection Hshift as _ <-; apply length_map|].
    destruct (_ =? _)%string; [injection Hshift as _ <-; apply length_map|].
    destruct (_ =? _)%string; [now injection Hshift as _ <- | discriminate]. }
  apply rbind_OK_inv in H. destruct H as (p_future & H1 & H).
  apply rbind_OK_inv in H. destruct H as (q_obs & H2 & H).
  apply rbind_OK_inv in H. destruct H as (p_hist & H3 & H).
  apply ecdf_OK_length in H1, H3. apply iecdf_OK_length in H2, H. congruence.
Qed.

Lemma np_random_uniform_length (lo hi : Qc) (n : nat) (w w' : World G) (draws : list Qc) :
  np_random_uniform lo hi n w = (OK draws, w') -> length draws = n.
Proof.
  rewrite np_random_uniform_run. intros H. injection H as <- _.
  apply uniform_sample_length.
Qed.

Lemma randomize_zero_values_length (x : list Qc) (threshold : Qc) (w w' : World G)
    (x' : list Qc) :
  CDFt._randomize_zero_values_between_zero_and_threshold x threshold w = (OK x', w') ->
  length x' = length x.
Proof.
  unfold CDFt._randomize_zero_values_between_zero_and_threshold. intros H.
  apply bind_OK_inv in H. destruct H as (draws & w1 & Hd & H).
  apply np_random_uniform_length in Hd. unfold ret in H. injection H as <- _.
  apply where3_length; [apply length_map | exact Hd].
Qed.

Lemma CDFt_month_and_window_length (self : CDFt.t) (obs cm_hist cm_future : list Qc)
    (w w' : World G) (out : list Qc) :
  CDFt._apply_on_month_and_window self obs cm_hist cm_future w = (OK out, w') ->
  length out = length cm_future.
Proof.
  unfold CDFt._apply_on_month_and_window. destruct (CDFt.SSR self); intros H.
  - apply bind_OK_inv in H. destruct H as ([[[o h] f] threshold] & w1 & Hb & H).
    apply bind_OK_inv in H. destruct H as (mapped & w2 & Hm & H).
    apply lift_OK_inv in Hm. destruct Hm as [Hm _]. apply CDFt_mapping_length in Hm.
    unfold ret in H. injection H as <- _.
    unfold CDFt._apply_SSR_steps_after_adjustment,
      CDFt._set_values_below_threshold_to_zero. rewrite length_map, Hm.
    unfold CDFt._apply_SSR_steps_before_adjustment in Hb.
    apply bind_OK_inv in Hb. destruct Hb as (? & ? & _ & Hb).
    apply bind_OK_inv in Hb. destruct Hb as (? & ? & _ & Hb).
    apply bind_OK_inv in Hb. destruct Hb as (? & ? & _ & Hb).
    apply bind_OK_inv in Hb. destruct Hb as (f' & ? & Hf & Hb).
    unfold ret in Hb. injection Hb as _ _ <- _ _.
    now apply randomize_zero_values_length in Hf.
  - apply lift_OK_inv in H. destruct H as [H _]. now apply CDFt_mapping_length in H.
Qed.

Lemma CDFt_apply_on_window_length (self : CDFt.t) (obs cm_hist cm_future : list Qc)
    (time_obs time_cm_hist time_cm_future : list Date) (w w' : World G) (out : list Qc) :
  CDFt._apply_on_window self obs cm_hist cm_future time_obs time_cm_hist time_cm_future w
  = (OK out, w') ->
  length out = length cm_future.
Proof.
  unfold CDFt._apply_on_window. destruct (CDFt.apply_by_month self); intros H.
  - refine (for_in_invariant _ _ _ (fun a => length a = length cm_future) _ _ _
              _ _ _ _ _ H); [|apply repeat_length].
    intros i_month a w0 a' w0' _ Ha Hbody.
    last_call Hbody. apply lift_OK_inv in Hbody. destruct Hbody as [Hbody _].
    apply setitem_mask_length in Hbody. congruence.
  - now apply CDFt_month_and_window_length in H.
Qed.

End SizeFacts.

(** X5.  What [CDFt.apply_location] returns has the size of [cm_future], in
    each of its modes (running window over years, month by month, or the whole
    series at once) and with or without SSR. *)
Theorem CDFt_apply_location_size {U : Utils} {G : Type} {R : NumpyRandom G}
    (self : CDFt.t) (obs cm_hist cm_future : list Qc)
    (time_obs time_cm_hist time_cm_future : option (list Date))
    (w w' : World G) (debiased : list Qc) :
  CDFt.apply_location self obs cm_hist cm_future
    time_obs time_cm_hist time_cm_future w = (OK debiased, w') ->
  length debiased = length cm_future.
Proof.
  intros H. unfold CDFt.apply_location in H.
  apply bind_OK_inv in H. destruct H as ([[t1 t2] t3] & ? & _ & H).
  apply bind_OK_inv in H. destruct H as (? & ? & _ & H).
  destruct (CDFt.running_window_mode self).
  - refine (for_in_invariant _ _ _ (fun a => length a = length cm_future) _ _ _
              _ _ _ _ _ H); [|apply repeat_length].
    intros [years_to_debias years_in_window] a w0 a' w0' _ Ha Hbody.
    last_call Hbody. apply lift_OK_inv in Hbody. destruct Hbody as [Hbody _].
    apply setitem_mask_length in Hbody. congruence.
  - now apply CDFt_apply_on_window_length in H.
Qed.

Lemma CDFt_apply_location_size_witness :
  exists debiased w',
    CDFt.apply_location (U := sample_utils) (R := sample_random)
      (CDFt.mk true "additive" false true 17 9 "pr" "linear_interpolation" "linear")
      (map zc [0; 1; 3]%Z) (map zc [1; 2; 0]%Z) (map zc [3; 0; 9; 1]%Z)
      None None None world0 = (OK debiased, w')
    /\ length debiased = length (map zc [3; 0; 9; 1]%Z).
Proof.
  do 2 eexists. split; [vm_compute; reflexivity|].
  eapply (CDFt_apply_location_size (U := sample_utils) (R := sample_random)
            (CDFt.mk true "additive" false true 17 9 "pr" "linear_interpolation" "linear")
            (map zc [0; 1; 3]%Z) (map zc [1; 2; 0]%Z) (map zc [3; 0; 9; 1]%Z)
            None None None world0).
  vm_compute; reflexivity.
Defined.

Lemma QDM_debiasing_steps_length {U : Utils} (self : QDM.t) (cm_future : list Qc)
    (fit_obs fit_cm_hist : params (QDM.distribution self)) (out : list Qc) :
  QDM._apply_debiasing_steps self cm_future fit_obs fit_cm_hist = OK out ->
  length out = length cm_future.
Proof.
  unfold QDM._apply_debiasing_steps. intros H.
  apply rbind_OK_inv in H. destruct H as (p & Hp & H).
  apply ecdf_OK_length in Hp.
  apply rbind_OK_inv in H. destruct H as (vals & Hv & H).
  assert (Hq : forall fitted,
             length (QDM.ppf_all self (threshold_cdf_vals p (QDM.cdf_threshold self)) fitted)
             = length cm_future).
  { intros fitted. unfold QDM.ppf_all.
    now rewrite length_map, threshold_cdf_vals_length. }
  assert (Hvals : length vals = length cm_future).
  { destruct (_ =? _)%string;
      [injection Hv as <-; rewrite map2_length; rewrite map2_length; rewrite ?Hq; auto|].
    destruct (_ =? _)%string;
      [injection Hv as <-; rewrite map2_length; rewrite map2_length; rewrite ?Hq; auto
      | discriminate]. }
  injection H as <-. destruct (QDM.censor_values_to_zero self);
    now rewrite ?length_map.
Qed.

Lemma QDM_within_year_window_length {U : Utils} (self : QDM.t)
    (obs cm_hist cm_future : list Qc) (years_cm_future : list Z) (out : list Qc) :
  QDM._apply_on_within_year_window self obs cm_hist cm_future years_cm_future = OK out ->
  length out = length cm_future.
Proof.
  unfold QDM._apply_on_within_year_window, QDM._get_obs_and_cm_hist_fits.
  destruct (QDM.running_window_mode_over_years_of_cm_future self); intros H.
  - refine (fold_result_invariant _ _ (fun a => length a = length cm_future) _ _ _ _
              _ _ _ H); [| |apply repeat_length].
    + intros e [a b]. reflexivity.
    + intros [years_to_debias years_in_window] a a' _ Ha Hbody. cbn [rbind] in Hbody.
      repeat (apply rbind_OK_inv in Hbody; destruct Hbody as (? & _ & Hbody)).
      apply setitem_mask_length in Hbody. congruence.
  - now apply QDM_debiasing_steps_length in H.
Qed.

(** X6.  What [QuantileDeltaMapping.apply_location] returns has the size of
    [cm_future], with or without the running windows within the year and over
    the years, for either kind of trend preservation and with or without
    censoring. *)
Theorem QDM_apply_location_size {U : Utils} {G : Type}
    (self : QDM.t) (obs cm_hist cm_future : list Qc)
    (time_obs time_cm_hist time_cm_future : option (list Date))
    (w w' : World G) (debiased : list Qc) :
  QDM.apply_location self obs cm_hist cm_future
    time_obs time_cm_hist time_cm_future w = (OK debiased, w') ->
  length debiased = length cm_future.
Proof.
  intros H. unfold QDM.apply_location in H.
  apply bind_OK_inv in H. destruct H as ([[t1 t2] t3] & ? & _ & H).
  apply bind_OK_inv in H. destruct H as (? & ? & _ & H).
  destruct (QDM.running_window_mode_within_year self).
  - refine (for_in_invariant _ _ _ (fun a => length a = length cm_future) _ _ _
              _ _ _ _ _ H); [|apply repeat_length].
    intros [center idx] a w0 a' w0' _ Ha Hbody.
    last_call Hbody. apply lift_OK_inv in Hbody. destruct Hbody as [Hbody _].
    apply setitem_index_length in Hbody. congruence.
  - apply lift_OK_inv in H. destruct H as [H _].
    now apply QDM_within_year_window_length in H.
Qed.

(** A configuration with the running window over the years only. *)
Definition qdm_years_config : QDM.t :=
  QDM.__attrs_post_init__
    (QDM.mk sample_distribution "absolute" false (qc 5 8640000) true 31 1 false 91 31
            "unknown" "linear_interpolation" None).

Lemma QDM_apply_location_size_witness :
  exists debiased w',
    QDM.apply_location (U := sample_utils) qdm_years_config
      (map zc [0; 1; 3]%Z) (map zc [1; 2; 0]%Z) (map zc [3; 0; 9; 1]%Z)
      None None None world0 = (OK debiased, w')
    /\ length debiased = length (map zc [3; 0; 9; 1]%Z).
Proof.
  do 2 eexists. split; [vm_compute; reflexivity|].
  eapply (QDM_apply_location_size (U := sample_utils) qdm_years_config
            (map zc [0; 1; 3]%Z) (map zc [1; 2; 0]%Z) (map zc [3; 0; 9; 1]%Z)
            None None None world0).
  vm_compute; reflexivity.
Defined.

(** ** ISIMIP step 2: imputation *)

Definition msg_step2_all_invalid : string :=
  "Step2: Imputation not possible because all values are invalid in the given month/window.".

(** A value that is neither NaN nor infinite. *)
Definition is_valid (v : float) : bool := negb (isnan v || isinf v).

Lemma valid_values_select (x : list float) :
  Np.select x (map negb (ISIMIP._step2_get_mask_for_values_to_impute x))
  = filter is_valid x.
Proof.
  unfold ISIMIP._step2_get_mask_for_values_to_impute. rewrite map_map.
  apply (select_map_filter is_valid).
Qed.

Lemma filter_none (A : Type) (p : A -> bool) (l : list A) :
  Forall (fun v => p v = false) l -> filter p l = [].
Proof. induction 1 as [|v l Hv _ IH]; simpl; [|rewrite Hv]; auto. Qed.

Lemma put_repeat_map (A : Type) (p : A -> bool) (v : A) (x : list A) (n : nat) :
  (Np.count_true (map p x) <= n)%nat ->
  Np.put x (map p x) (repeat v n) = map (fun u => if p u then v else u) x.
Proof.
  revert n; induction x as [|a x IH]; intros n Hn; [reflexivity|].
  cbn [map] in *. rewrite count_true_cons in Hn. cbn [Np.put].
  destruct (p a); cbn [Nat.b2n] in Hn.
  - destruct n as [|n]; [lia|]. cbn [repeat]. f_equal. apply IH. lia.
  - f_equal. apply IH. lia.
Qed.

(** X7.  Step 2 on a window without a valid value (every value a NaN or an
    infinity, or no value at all) raises the [ValueError] of the imputation,
    and nothing is drawn from the random state. *)
Theorem impute_values_needs_a_valid_value {U : Utils} {G : Type} {R : NumpyRandom G}
    {K : ISIMIP.Kernels G} (self : ISIMIP.t) (x : list float) (w : World G) :
  Forall (fun v => is_valid v = false) x ->
  ISIMIP._step2_impute_values self x w = (Raise (ValueError msg_step2_all_invalid), w).
Proof.
  intros H. unfold ISIMIP._step2_impute_values.
  rewrite valid_values_select, (filter_none _ _ _ H). reflexivity.
Qed.

Lemma impute_values_needs_a_valid_value_witness :
  ISIMIP._step2_impute_values (U := sample_utils) (R := sample_random)
    (K := sample_kernels nat (fun _ _ => (Fin 0%Qc, Fin 1%Qc)))
    tas_config [NaN; PInf; NInf] world0
  = (Raise (ValueError msg_step2_all_invalid), world0).
Proof.
  apply (impute_values_needs_a_valid_value (U := sample_utils) (R := sample_random)
           (K := sample_kernels nat (fun _ _ => (Fin 0%Qc, Fin 1%Qc)))).
  repeat constructor.
Defined.

(** X8.  Step 2 on a window with exactly one valid value puts that value at
    every invalid position and leaves the rest as it is; nothing is drawn from
    the random state. *)
Theorem impute_values_single_valid_value {U : Utils} {G : Type} {R : NumpyRandom G}
    {K : ISIMIP.Kernels G} (self : ISIMIP.t) (x : list float) (v : float) (w : World G) :
  filter is_valid x = [v] ->
  ISIMIP._step2_impute_values self x w
  = (OK (map (fun u => if is_valid u then u else v) x), w).
Proof.
  intros H. unfold ISIMIP._step2_impute_values.
  rewrite valid_values_select, H. unfold lift. f_equal.
  rewrite fill_mask_ok by (unfold ISIMIP._step2_get_mask_for_values_to_impute;
                           apply length_map).
  f_equal. unfold ISIMIP._step2_get_mask_for_values_to_impute.
  rewrite put_repeat_map by lia. apply map_ext. intros u. unfold is_valid.
  now destruct (isnan u || isinf u).
Qed.

Lemma impute_values_single_valid_value_witness :
  ISIMIP._step2_impute_values (U := sample_utils) (R := sample_random)
    (K := sample_kernels nat (fun _ _ => (Fin 0%Qc, Fin 1%Qc)))
    tas_config [NaN; Fin (zc 7); PInf] world0
  = (OK [Fin (zc 7); Fin (zc 7); Fin (zc 7)], world0).
Proof.
  apply (impute_values_single_valid_value (U := sample_utils) (R := sample_random)
           (K := sample_kernels nat (fun _ _ => (Fin 0%Qc, Fin 1%Qc)))
           tas_config [NaN; Fin (zc 7); PInf] (Fin (zc 7)) world0).
  reflexivity.
Defined.

Lemma setitem_mask_OK_inv (A : Type) (x : list A) (mask : list bool) (vals out : list A) :
  Np.setitem_mask x mask vals = OK out ->
  length mask = length x
  /\ exists vals', out = Np.put x mask vals'
                   /\ length vals' = Np.count_true mask
                   /\ forall v, In v vals' -> In v vals.
Proof.
  unfold Np.setitem_mask.
  destruct (Nat.eqb_spec (length mask) (length x)) as [E|E]; [|discriminate].
  cbn [negb]. intros H. split; [exact E|].
  destruct (Nat.eqb_spec (length vals) (Np.count_true mask)) as [E'|E'].
  - injection H as <-. exists vals. auto.
  - destruct vals as [|v [|? ?]]; try discriminate. injection H as <-.
    exists (repeat v (Np.count_true mask)). split; [reflexivity|].
    split; [apply repeat_length|].
    intros u Hu. apply repeat_spec in Hu. subst u. now left.
Qed.

Lemma put_Forall (A : Type) (P : A -> Prop) (x : list A) (mask : list bool)
    (vals : list A) :
  Forall P vals -> Forall P (Np.select x (map negb mask)) ->
  length mask = length x -> (Np.count_true mask <= length vals)%nat ->
  Forall P (Np.put x mask vals).
Proof.
  revert mask vals; induction x as [|a x IH]; intros [|b mask] vals Hv Hs Hl Hc;
    cbn [Np.put Np.select map negb length] in *; try discriminate; [constructor|].
  rewrite count_true_cons in Hc. injection Hl as Hl.
  destruct b; cbn [negb Nat.b2n] in *.
  - destruct vals as [|v vs]; cbn [length] in Hc; [lia|].
    inversion Hv; subst. constructor; auto. apply IH; auto. lia.
  - inversion Hs; subst. constructor; auto.
Qed.

(** X9.  Whenever step 2 imputes a window and returns, the window keeps its
    size, every valid value stays where it was, and no NaN and no infinity is
    left. *)
Theorem impute_values_leaves_nothing_missing {U : Utils} {G : Type}
    {R : NumpyRandom G} {K : ISIMIP.Kernels G} (self : ISIMIP.t) (x out : list float)
    (w w' : World G) :
  ISIMIP._step2_impute_values self x w = (OK out, w') ->
  length out = length x
  /\ (forall i, (i < length x)%nat -> is_valid (nth i x NaN) = true ->
        nth i out NaN = nth i x NaN)
  /\ Forall (fun v => is_valid v = true) out.
Proof.
  intros H.
  set (mask := ISIMIP._step2_get_mask_for_values_to_impute x).
  assert (Hmask : length mask = length x) by apply length_map.
  assert (Hvalid : Forall (fun v => is_valid v = true) (Np.select x (map negb mask))).
  { unfold mask. rewrite valid_values_select. apply Forall_forall.
    intros v Hv. now apply filter_In in Hv. }
  assert (Hput : exists vals, out = Np.put x mask vals
                              /\ length vals = Np.count_true mask
                              /\ Forall (fun v => is_valid v = true) vals).
  { unfold ISIMIP._step2_impute_values in H. fold mask in H.
    destruct (Np.select x (map negb mask)) as [|v [|v2 vs]] eqn:E.
    - discriminate H.
    - apply lift_OK_inv in H. destruct H as [H _].
      rewrite fill_mask_ok in H by exact Hmask. injection H as <-.
      eexists. split; [reflexivity|]. split; [apply repeat_length|].
      apply Forall_forall. intros u Hu. apply repeat_spec in Hu. subst u.
      now inversion Hvalid.
    - last_call H. apply lift_OK_inv in H. destruct H as [H _].
      apply setitem_mask_OK_inv in H. destruct H as (_ & vals' & -> & Hl & Hin).
      exists vals'. split; [reflexivity|]. split; [exact Hl|].
      apply Forall_forall. intros u Hu. apply Hin in Hu.
      apply in_map_iff in Hu. destruct Hu as (q & <- & _). reflexivity. }
  destruct Hput as (vals & -> & Hl & Hv).
  split; [apply put_length|]. split.
  - intros i Hi Hx. apply put_nth_false. unfold mask, ISIMIP._step2_get_mask_for_values_to_impute.
    rewrite (nth_map_any _ _ _ x i false NaN Hi).
    unfold is_valid in Hx. now apply negb_true_iff in Hx.
  - apply put_Forall; auto. lia.
Qed.

Lemma impute_values_leaves_nothing_missing_witness :
  exists out w',
    ISIMIP._step2_impute_values (U := sample_utils) (R := sample_random)
      (K := sample_kernels nat (fun _ _ => (Fin 0%Qc, Fin 1%Qc)))
      tas_config [Fin (zc 4); NaN; Fin (zc 2); PInf; Fin (zc 8)] world0 = (OK out, w')
    /\ length out = 5%nat
    /\ Forall (fun v => is_valid v = true) out.
Proof.
  do 2 eexists. split; [vm_compute; reflexivity|].
  destruct (impute_values_leaves_nothing_missing (U := sample_utils) (R := sample_random)
              (K := sample_kernels nat (fun _ _ => (Fin 0%Qc, Fin 1%Qc)))
              tas_config [Fin (zc 4); NaN; Fin (zc 2); PInf; Fin (zc 8)] _ world0 _
              ltac:(vm_compute; reflexivity)) as (Hl & _ & Hv).
  split; [exact Hl | exact Hv].
Defined.

(** ** ISIMIP steps 3 and 7: the trend *)

Lemma fill_mask_OK_inv (A : Type) (x : list A) (mask : list bool) (v : A) (out : list A) :
  Np.fill_mask x mask v = OK out ->
  length mask = length x /\ out = Np.put x mask (repeat v (Np.count_true mask)).
Proof.
  unfold Np.fill_mask.
  destruct (Nat.eqb_spec (length mask) (length x)) as [E|E]; [|discriminate].
  intros H. injection H as <-. now split.
Qed.

Lemma fill_mask_nth (A : Type) (x : list A) (mask : list bool) (v : A) (out : list A)
    (i : nat) (d : A) :
  Np.fill_mask x mask v = OK out -> (i < length x)%nat ->
  nth i out d = if nth i mask false then v else nth i x d.
Proof.
  intros H Hi. apply fill_mask_OK_inv in H. destruct H as [Hl ->].
  destruct (nth i mask false) eqn:E.
  - now apply put_repeat_nth_true.
  - now apply put_nth_false.
Qed.

(** What [_step3_remove_trend] returns, once its regression is done. *)
Lemma remove_trend_result {U : Utils} {G : Type} {K : ISIMIP.Kernels G}
    (self : ISIMIP.t) (x : list float) (years : list Z) (x' trend : list float) :
  ISIMIP._step3_remove_trend self x years = OK (x', trend) ->
  x' = Np.map2 fsub x trend
  /\ length trend = length x
  /\ forall i j, (i < length x)%nat -> (j < length x)%nat ->
       nth i years 0%Z = nth j years 0%Z -> nth i trend NaN = nth j trend NaN.
Proof.
  unfold ISIMIP._step3_remove_trend.
  destruct (get_years_and_yearly_means x years) as [unique_years annual_means].
  destruct (ISIMIP.linregress unique_years annual_means) as [slope pvalue].
  match goal with |- context [if ?c then ?a else ?b] => generalize (if c then a else b) end.
  intros annual_trend.
  intros H. apply rbind_OK_inv in H. destruct H as (t & Ht & H).
  injection H as <- <-. split; [reflexivity|].
  refine (fold_result_invariant _ _
            (fun a => length a = length x
                      /\ forall i j, (i < length x)%nat -> (j < length x)%nat ->
                           nth i years 0%Z = nth j years 0%Z -> nth i a NaN = nth j a NaN)
            _ _ _ _ _ _ _ Ht).
  - intros e [i y]. reflexivity.
  - intros [k y] a a' _ [Ha Hsame] Hbody. cbn [rbind] in Hbody.
    destruct (nth_error annual_trend k) as [v|]; [|discriminate].
    pose proof (fill_mask_OK_inv _ _ _ _ _ Hbody) as [Hm Hput].
    rewrite length_map in Hm.
    split; [subst a'; now rewrite put_length|].
    intros i j Hi Hj Hy.
    rewrite (fill_mask_nth _ _ _ _ _ i NaN Hbody) by lia.
    rewrite (fill_mask_nth _ _ _ _ _ j NaN Hbody) by lia.
    rewrite (nth_map_any _ _ _ years i false 0%Z) by lia.
    rewrite (nth_map_any _ _ _ years j false 0%Z) by lia.
    rewrite Hy. destruct (_ =? _)%Z; auto.
  - split; [apply repeat_length|]. intros i j Hi Hj _.
    unfold Np.zeros_like.
    rewrite !(nth_indep _ NaN (Fin 0%Qc)) by (now rewrite repeat_length).
    now rewrite !nth_repeat.
Qed.

(** X10.  The trend that [_step3_remove_trend] computes has one value per sample,
    the same for all samples of one year; the detrended series is the series
    minus that trend, sample by sample. *)
Theorem trend_is_constant_within_a_year {U : Utils} {G : Type} {K : ISIMIP.Kernels G}
    (self : ISIMIP.t) (x : list float) (years : list Z) (x' trend : list float) :
  ISIMIP._step3_remove_trend self x years = OK (x', trend) ->
  length trend = length x
  /\ length x' = length x
  /\ (forall i j, (i < length x)%nat -> (j < length x)%nat ->
        nth i years 0%Z = nth j years 0%Z -> nth i trend NaN = nth j trend NaN)
  /\ (forall i, (i < length x)%nat ->
        nth i x' NaN = fsub (nth i x NaN) (nth i trend NaN)).
Proof.
  intros H. apply remove_trend_result in H. destruct H as (-> & Hl & Hsame).
  split; [exact Hl|]. split; [|split; [exact Hsame|]].
  - rewrite map2_length; auto.
  - intros i Hi. apply map2_nth; lia.
Qed.

(** A regression with slope 1 that is always significant. *)
Definition trend_kernels : ISIMIP.Kernels nat :=
  sample_kernels nat (fun _ _ => (Fin 1%Qc, Fin 0%Qc)).

Lemma trend_is_constant_within_a_year_witness :
  exists x' trend,
    ISIMIP._step3_remove_trend (U := sample_utils) (K := trend_kernels) tas_config
      (floats [10; 20; 30; 40]%Z) [2000; 2000; 2001; 2001]%Z = OK (x', trend)
    /\ map float_repr trend = [inl (-1 # 2); inl (-1 # 2); inl (1 # 2); inl (1 # 2)]%Q
    /\ length trend = 4%nat
    /\ nth 2 trend NaN = nth 3 trend NaN.
Proof.
  do 2 eexists. split; [vm_compute; reflexivity|]. split; [vm_compute; reflexivity|].
  destruct (trend_is_constant_within_a_year (U := sample_utils) (K := trend_kernels)
              tas_config (floats [10; 20; 30; 40]%Z) [2000; 2000; 2001; 2001]%Z _ _
              ltac:(vm_compute; reflexivity)) as (Hl & _ & Hsame & _).
  split; [exact Hl|]. apply Hsame; [simpl; lia | simpl; lia | reflexivity].
Defined.

Lemma fadd_fsub_cancel (x t : float) :
  is_valid t = true -> fadd (fsub x t) t = x.
Proof.
  destruct t as [b| | |]; try discriminate. intros _.
  destruct x as [a| | |]; simpl; auto. f_equal. ring.
Qed.

Lemma map2_fadd_fsub_cancel (x t : list float) :
  length t = length x -> Forall (fun v => is_valid v = true) t ->
  Np.map2 fadd (Np.map2 fsub x t) t = x.
Proof.
  revert t; induction x as [|a x IH]; intros [|b t] Hl Hv; try discriminate; auto.
  cbn [Np.map2]. inversion Hv; subst. rewrite fadd_fsub_cancel by assumption.
  f_equal. apply IH; auto.
Qed.



(** ** ISIMIP step 4: randomisation beyond the thresholds *)

Lemma fltb_not_fleb (a b : float) : fltb a b = true -> fleb b a = false.
Proof.
  destruct a as [x| | |], b as [y| | |]; simpl; try discriminate; auto.
  rewrite Qcltb_negb. now intros H%negb_true_iff.
Qed.

(** The samples strictly between the thresholds are where they were. *)
Definition keeps_values_between_thresholds (self : ISIMIP.t) (x out : list float) : Prop :=
  length out = length x
  /\ forall i, (i < length x)%nat ->
       nth i (ISIMIP._get_mask_for_values_between_thresholds self x) false = true ->
       nth i out NaN = nth i x NaN.

Lemma keeps_refl (self : ISIMIP.t) (x : list float) :
  keeps_values_between_thresholds self x x.
Proof. split; auto. Qed.

Lemma keeps_trans (self : ISIMIP.t) (x y z : list float) :
  keeps_values_between_thresholds self x y ->
  keeps_values_between_thresholds self y z ->
  keeps_values_between_thresholds self x z.
Proof.
  intros [L1 H1] [L2 H2]. split; [congruence|]. intros i Hi Hb.
  assert (E : nth i y NaN = nth i x NaN) by (apply H1; auto).
  rewrite <- E. apply H2; [lia|].
  unfold ISIMIP._get_mask_for_values_between_thresholds in *.
  rewrite (nth_map_any _ _ _ y i false NaN) by lia.
  rewrite (nth_map_any _ _ _ x i false NaN) in Hb by lia.
  now rewrite E.
Qed.

Lemma between_mask_nth (self : ISIMIP.t) (x : list float) (i : nat) :
  (i < length x)%nat ->
  nth i (ISIMIP._get_mask_for_values_between_thresholds self x) false = true ->
  fleb (nth i x NaN) (ISIMIP.lower_threshold self) = false
  /\ fleb (ISIMIP.upper_threshold self) (nth i x NaN) = false.
Proof.
  intros Hi. unfold ISIMIP._get_mask_for_values_between_thresholds.
  rewrite (nth_map_any _ _ _ x i false NaN Hi). intros H.
  apply andb_true_iff in H. destruct H as [H1 H2].
  split; now apply fltb_not_fleb.
Qed.

Section Step4Facts.
Context {U : Utils} {G : Type} {R : NumpyRandom G}.
Variable self : ISIMIP.t.

Lemma randomize_lower_keeps (vals out : list float) (w w' : World G) :
  ISIMIP._step4_randomize_values_between_lower_threshold_and_bound self vals w
  = (OK out, w') ->
  keeps_values_between_thresholds self vals out.
Proof.
  unfold ISIMIP._step4_randomize_values_between_lower_threshold_and_bound. intros H.
  last_call H. apply lift_OK_inv in H. destruct H as [H _].
  apply setitem_mask_OK_inv in H. destruct H as (Hm & vals' & -> & _ & _).
  split; [apply put_length|]. intros i Hi Hb.
  apply put_nth_false. unfold ISIMIP._get_mask_for_values_beyond_lower_threshold.
  rewrite (nth_map_any _ _ _ vals i false NaN Hi).
  now apply between_mask_nth in Hb.
Qed.

Lemma randomize_upper_keeps (vals out : list float) (w w' : World G) :
  ISIMIP._step4_randomize_values_between_upper_threshold_and_bound self vals w
  = (OK out, w') ->
  keeps_values_between_thresholds self vals out.
Proof.
  unfold ISIMIP._step4_randomize_values_between_upper_threshold_and_bound. intros H.
  last_call H. apply lift_OK_inv in H. destruct H as [H _].
  apply setitem_mask_OK_inv in H. destruct H as (Hm & vals' & -> & _ & _).
  split; [apply put_length|]. intros i Hi Hb.
  apply put_nth_false. unfold ISIMIP._get_mask_for_values_beyond_upper_threshold.
  rewrite (nth_map_any _ _ _ vals i false NaN Hi).
  now apply between_mask_nth in Hb.
Qed.

End Step4Facts.

(** X12.  Step 4 changes only values beyond a threshold: whenever it returns,
    each of the three series keeps its size, and every sample strictly between
    the lower and the upper threshold is where it was, with its value. *)
Theorem step4_keeps_values_between_thresholds {U : Utils} {G : Type}
    {R : NumpyRandom G} (self : ISIMIP.t)
    (obs_hist cm_hist cm_future obs_hist' cm_hist' cm_future' : list float)
    (w w' : World G) :
  ISIMIP.step4 self obs_hist cm_hist cm_future w
  = (OK (obs_hist', cm_hist', cm_future'), w') ->
  keeps_values_between_thresholds self obs_hist obs_hist'
  /\ keeps_values_between_thresholds self cm_hist cm_hist'
  /\ keeps_values_between_thresholds self cm_future cm_future'.
Proof.
  unfold ISIMIP.step4. intros H.
  apply bind_OK_inv in H. destruct H as ([[o h] f] & w1 & Hlow & H).
  assert (L : keeps_values_between_thresholds self obs_hist o
              /\ keeps_values_between_thresholds self cm_hist h
              /\ keeps_values_between_thresholds self cm_future f).
  { destruct (_ && _).
    - apply bind_OK_inv in Hlow. destruct Hlow as (? & ? & H1 & Hlow).
      apply bind_OK_inv in Hlow. destruct Hlow as (? & ? & H2 & Hlow).
      apply bind_OK_inv in Hlow. destruct Hlow as (? & ? & H3 & Hlow).
      unfold ret in Hlow. injection Hlow as <- <- <- _.
      split; [|split]; eapply randomize_lower_keeps; eassumption.
    - unfold ret in Hlow. injection Hlow as <- <- <- _. auto using keeps_refl. }
  destruct L as (Lo & Lh & Lf). clear Hlow.
  destruct (ISIMIP.has_upper_bound self && ISIMIP.has_upper_threshold self).
  - apply bind_OK_inv in H. destruct H as (? & ? & H1 & H).
    apply bind_OK_inv in H. destruct H as (? & ? & H2 & H).
    apply bind_OK_inv in H. destruct H as (? & ? & H3 & H).
    unfold ret in H. injection H as <- <- <- _.
    split; [|split];
      (eapply keeps_trans; [eassumption | eapply randomize_upper_keeps; eassumption]).
  - unfold ret in H. injection H as <- <- <- _. auto.
Qed.

Lemma step4_keeps_values_between_thresholds_witness :
  exists obs_hist' cm_hist' cm_future' w',
    ISIMIP.step4 (U := sample_utils) (R := sample_random)
      forcing_config (floats [0; 1; 3]%Z) (floats [1; 2; 5]%Z) (floats [3; 0; 9; 1]%Z)
      world0 = (OK (obs_hist', cm_hist', cm_future'), w')
    /\ nth 2 obs_hist' NaN = Fin (zc 3)
    /\ nth 2 cm_hist' NaN = Fin (zc 5)
    /\ nth 0 cm_future' NaN = Fin (zc 3).
Proof.
  do 4 eexists. split; [vm_compute; reflexivity|].
  destruct (step4_keeps_values_between_thresholds (U := sample_utils) (R := sample_random)
              forcing_config (floats [0; 1; 3]%Z) (floats [1; 2; 5]%Z)
              (floats [3; 0; 9; 1]%Z) _ _ _ world0 _
              ltac:(vm_compute; reflexivity)) as ((_ & Ho) & (_ & Hh) & (_ & Hf)).
  split; [apply (Ho 2%nat); [simpl; lia | reflexivity]|].
  split; [apply (Hh 2%nat); [simpl; lia | reflexivity]|].
  apply (Hf 0%nat); [simpl; lia | reflexivity].
Defined.

(** ** ISIMIP step 5: pseudo future observations *)

(** X13.  With [trend_transfer_only_for_values_within_threshold], step 5
    transfers the trend to the observations strictly between the thresholds
    only: whenever it returns, the pseudo future observations have the size of
    [obs_hist] and equal [obs_hist] at every sample that is not strictly
    between the thresholds; and when [cm_hist] or [cm_future] has no value
    between the thresholds, nothing is transferred at all. *)
Theorem step5_transfers_between_thresholds_only {G : Type} {K : ISIMIP.Kernels G} (self : ISIMIP.t) (obs_hist cm_hist cm_future : list float) :
  ISIMIP.trend_transfer_only_for_values_within_threshold self = true ->
  (forall obs_future,
     ISIMIP.step5 self obs_hist cm_hist cm_future = OK obs_future ->
     length obs_future = length obs_hist
     /\ forall i, (i < length obs_hist)%nat ->
          nth i (ISIMIP._get_mask_for_values_between_thresholds self obs_hist) false = false ->
          nth i obs_future NaN = nth i obs_hist NaN)
  /\ (ISIMIP._get_values_between_thresholds self cm_hist = []
      \/ ISIMIP._get_values_between_thresholds self cm_future = [] ->
      ISIMIP.step5 self obs_hist cm_hist cm_future = OK obs_hist).
Proof.
  intros Hflag. unfold ISIMIP.step5. rewrite Hflag. split.
  - intros obs_future H. destruct (_ && _).
    + apply rbind_OK_inv in H. destruct H as (vals & _ & H).
      apply setitem_mask_OK_inv in H. destruct H as (_ & vals' & -> & _ & _).
      split; [apply put_length|]. intros i _ Hm. now apply put_nth_false.
    + injection H as <-. auto.
  - intros [E|E]; rewrite E; cbn [length Nat.ltb Nat.leb];
      now rewrite ?andb_false_r.
Qed.

(** Kernels whose trend transfer adds one to each observation. *)
Definition shifting_kernels : ISIMIP.Kernels nat :=
  {| ISIMIP.linregress := fun _ _ => (Fin 0%Qc, Fin 1%Qc);
     ISIMIP.interp1d_extrapolate := fun _ _ q => map nc q;
     ISIMIP.annual_cycle := unit;
     ISIMIP._step1_get_annual_cycle_of_upper_bounds := fun _ _ days => (tt, Np.unique days);
     ISIMIP._step1_calculate_debiased_annual_cycle_of_upper_bounds :=
       fun _ _ _ _ _ _ => tt;
     ISIMIP._step1_scale_by_annual_cycle_of_upper_bounds := fun vals _ _ _ => vals;
     ISIMIP._step5_transfer_trend :=
       fun _ obs_hist _ _ => OK (map (fun v => fadd v (Fin 1%Qc)) obs_hist);
     ISIMIP._step6_adjust_values_between_thresholds := fun _ _ _ _ vals _ => ret vals;
     ISIMIP._step8_rescale_by_annual_cycle_of_upper_bounds := fun vals _ _ _ => vals;
     ISIMIP.interp1d_extrapolate_length := fun _ _ q => length_map nc q |}.

Lemma step5_transfers_between_thresholds_only_witness :
  exists obs_future,
    ISIMIP.step5 (K := shifting_kernels) forcing_config
      (floats [0; 3; 9; 5]%Z) (floats [1; 4]%Z) (floats [3; 0]%Z) = OK obs_future
    /\ map float_repr obs_future = [inl 0; inl 4; inl 9; inl 6]%Q
    /\ nth 0 obs_future NaN = Fin (zc 0)
    /\ nth 2 obs_future NaN = Fin (zc 9)
    /\ ISIMIP.step5 (K := shifting_kernels) forcing_config
         (floats [0; 3; 9; 5]%Z) (floats [1; 9]%Z) (floats [3; 0]%Z)
       = OK (floats [0; 3; 9; 5]%Z).
Proof.
  eexists. split; [vm_compute; reflexivity|]. split; [vm_compute; reflexivity|].
  destruct (step5_transfers_between_thresholds_only (K := shifting_kernels) forcing_config
              (floats [0; 3; 9; 5]%Z) (floats [1; 4]%Z) (floats [3; 0]%Z) eq_refl)
    as [Hkeep _].
  destruct (Hkeep _ ltac:(vm_compute; reflexivity)) as [_ Hnth].
  split; [apply (Hnth 0%nat); [simpl; lia | reflexivity]|].
  split; [apply (Hnth 2%nat); [simpl; lia | reflexivity]|].
  apply (step5_transfers_between_thresholds_only (K := shifting_kernels) forcing_config
           (floats [0; 3; 9; 5]%Z) (floats [1; 9]%Z) (floats [3; 0]%Z) eq_refl).
  left. reflexivity.
Defined.

(** ** ISIMIP step 6: the whole mapping *)

Section Step6Run.
Context {G : Type} {K : ISIMIP.Kernels G}.
Variable self : ISIMIP.t.
Variables obs_hist obs_future cm_hist cm_future : list float.

(** The sorted series after [kl] entries are set to the lower and [ku] to the
    upper bound, and the mask of the entries set to neither. *)
Definition step6_bounded (kl ku : nat) : list float :=
  let sorted := step6_sorted cm_future in
  let mask_lower :=
    ISIMIP._step6_get_mask_for_entries_to_set_to_lower_bound (Z.of_nat kl) sorted in
  let mask_upper :=
    ISIMIP._step6_get_mask_for_entries_to_set_to_upper_bound (Z.of_nat ku) sorted in
  Np.put (Np.put sorted mask_lower
            (repeat (ISIMIP.lower_bound self) (Np.count_true mask_lower)))
         mask_upper (repeat (ISIMIP.upper_bound self) (Np.count_true mask_upper)).

Definition step6_rest (kl ku : nat) : list bool :=
  let sorted := step6_sorted cm_future in
  Np.map2 andb
    (map negb (ISIMIP._step6_get_mask_for_entries_to_set_to_lower_bound
                 (Z.of_nat kl) sorted))
    (map negb (ISIMIP._step6_get_mask_for_entries_to_set_to_upper_bound
                 (Z.of_nat ku) sorted)).

(** Back to the order of [cm_future]. *)
Definition step6_unsort (mapped : list float) : list float :=
  map (fun i => nth i mapped NaN) (Np.argsort Nat.leb (step6_order cm_future)).

Lemma step6_bounded_length (kl ku : nat) :
  length (step6_bounded kl ku) = length cm_future.
Proof. unfold step6_bounded. cbv zeta. now rewrite !put_length, step6_sorted_length. Qed.

Lemma step6_rest_length (kl ku : nat) : length (step6_rest kl ku) = length cm_future.
Proof.
  unfold step6_rest. cbv zeta.
  rewrite map2_length; rewrite !length_map, ?lower_mask_length, ?upper_mask_length;
    auto using step6_sorted_length.
Qed.

(** Step 6 once the two numbers of entries are known and fit into the series:
    the bounds are written, the mapping between the thresholds is called on
    the remaining entries if there are any, and the result is put back into
    the order of [cm_future]. *)
Lemma step6_run_with_counts (kl ku : nat) (w : World G) :
  (kl + ku <= length cm_future)%nat ->
  (if ISIMIP.has_lower_threshold self then
     lift (ISIMIP._step6_get_nr_of_entries_to_set_to_bound self
             (ISIMIP._get_mask_for_values_beyond_lower_threshold self
                (Np.sort fsortleb obs_hist))
             (ISIMIP._get_mask_for_values_beyond_lower_threshold self
                (Np.sort fsortleb cm_hist))
             (ISIMIP._get_mask_for_values_beyond_lower_threshold self
                (step6_sorted cm_future)))
   else ret 0%Z) = (ret (Z.of_nat kl) : M G Z) ->
  (if ISIMIP.has_upper_threshold self then
     lift (ISIMIP._step6_get_nr_of_entries_to_set_to_bound self
             (ISIMIP._get_mask_for_values_beyond_upper_threshold self
                (Np.sort fsortleb obs_hist))
             (ISIMIP._get_mask_for_values_beyond_upper_threshold self
                (Np.sort fsortleb cm_hist))
             (ISIMIP._get_mask_for_values_beyond_upper_threshold self
                (step6_sorted cm_future)))
   else ret 0%Z) = (ret (Z.of_nat ku) : M G Z) ->
  ISIMIP.step6 self obs_hist obs_future cm_hist cm_future w
  = if existsb (fun b => b) (step6_rest kl ku) then
      match ISIMIP._step6_adjust_values_between_thresholds self
              (ISIMIP._get_values_between_thresholds self (Np.sort fsortleb obs_hist))
              (ISIMIP._get_values_between_thresholds self (Np.sort fsortleb obs_future))
              (ISIMIP._get_values_between_thresholds self (Np.sort fsortleb cm_hist))
              (Np.select (step6_bounded kl ku) (step6_rest kl ku))
              (ISIMIP._get_values_between_thresholds self (step6_sorted cm_future)) w
      with
      | (OK vals, w1) =>
          match Np.setitem_mask (step6_bounded kl ku) (step6_rest kl ku) vals with
          | OK mapped => (OK (step6_unsort mapped), w1)
          | Raise e => (Raise e, w1)
          end
      | (Raise e, w1) => (Raise e, w1)
      end
    else (OK (step6_unsort (step6_bounded kl ku)), w).
Proof.
  intros Hsum HL HU.
  pose proof (step6_sorted_length cm_future) as Hlen.
  assert (Hrev : forall mapped : list float, length mapped = length cm_future ->
            Np.getitem_index mapped (Np.argsort Nat.leb (Np.argsort fsortleb cm_future))
            = OK (step6_unsort mapped)).
  { intros mapped Hm. apply getitem_index_ok. rewrite Hm.
    rewrite <- (argsort_length fsortleb cm_future). apply argsort_in_range. }
  unfold ISIMIP.step6. cbv zeta.
  rewrite step6_sorted_ok, bind_lift_OK. cbv beta.
  rewrite HL, bind_ret_l. cbv beta. rewrite HU, bind_ret_l. cbv beta.
  replace (Z.of_nat (length (step6_sorted cm_future)) <? Z.of_nat kl + Z.of_nat ku)%Z
    with false by (symmetry; apply Z.ltb_ge; lia).
  rewrite bind_ret_l. cbv beta iota.
  rewrite fill_mask_ok by apply lower_mask_length.
  rewrite bind_lift_OK. cbv beta.
  rewrite fill_mask_ok by (rewrite put_length; apply upper_mask_length).
  rewrite bind_lift_OK. cbv beta.
  fold (step6_bounded kl ku). fold (step6_rest kl ku).
  destruct (existsb (fun b => b) (step6_rest kl ku)).
  - unfold bind.
    destruct (ISIMIP._step6_adjust_values_between_thresholds _ _ _ _ _ _ w)
      as [[vals|e] w1]; [|reflexivity].
    unfold lift.
    destruct (Np.setitem_mask (step6_bounded kl ku) (step6_rest kl ku) vals)
      as [mapped|e] eqn:E; [|reflexivity].
    apply setitem_mask_length in E. rewrite step6_bounded_length in E.
    now rewrite (Hrev mapped E).
  - rewrite bind_ret_l. unfold lift. now rewrite (Hrev _ (step6_bounded_length kl ku)).
Qed.

End Step6Run.

(** X14.  Whenever step 6 returns, what it returns has the size of
    [cm_future]: whatever the thresholds, the numbers of entries set to the
    bounds and the mapping between the thresholds are. *)
Theorem step6_size {G : Type} {K : ISIMIP.Kernels G} (self : ISIMIP.t)
    (obs_hist obs_future cm_hist cm_future mapped : list float) (w w' : World G) :
  ISIMIP.step6 self obs_hist obs_future cm_hist cm_future w = (OK mapped, w') ->
  length mapped = length cm_future.
Proof.
  unfold ISIMIP.step6. intros H. last_call H.
  apply lift_OK_inv in H. destruct H as [H _].
  apply getitem_index_length in H. now rewrite H, !argsort_length.
Qed.

Lemma step6_size_witness :
  exists mapped w',
    ISIMIP.step6 (K := sample_kernels nat (fun _ _ => (Fin 0%Qc, Fin 1%Qc)))
      scaling_config scaling_obs_hist scaling_obs_hist scaling_cm_hist scaling_cm_future
      world0 = (OK mapped, w')
    /\ length mapped = 10%nat.
Proof.
  do 2 eexists. split; [vm_compute; reflexivity|].
  eapply (step6_size (K := sample_kernels nat (fun _ _ => (Fin 0%Qc, Fin 1%Qc)))
           scaling_config scaling_obs_hist scaling_obs_hist scaling_cm_hist
           scaling_cm_future _ world0 _).
  vm_compute; reflexivity.
Defined.

Definition msg_round_nan : string := "cannot convert float NaN to integer".

Lemma P_obs_future_nan (P_cm_hist P_cm_future : float) :
  ISIMIP._step6_get_P_obs_future NaN P_cm_hist P_cm_future = NaN.
Proof.
  unfold ISIMIP._step6_get_P_obs_future.
  destruct P_cm_hist, P_cm_future; cbn;
    repeat match goal with |- context [if ?c then _ else _] => destruct c end;
    reflexivity.
Qed.

(** X15.  Step 6 with a lower threshold and no observation in the window
    ([obs_hist] empty): the share of observations beyond the threshold is 0/0,
    a NaN, and rounding the number of entries to set to the bound raises a
    [ValueError]; nothing is drawn and nothing is mapped. *)
Theorem step6_needs_observations {G : Type} {K : ISIMIP.Kernels G} (self : ISIMIP.t)
    (obs_future cm_hist cm_future : list float) (w : World G) :
  ISIMIP.has_lower_threshold self = true ->
  ISIMIP.step6 self [] obs_future cm_hist cm_future w
  = (Raise (ValueError msg_round_nan), w).
Proof.
  intros Hlow. unfold ISIMIP.step6. cbv zeta.
  rewrite step6_sorted_ok, bind_lift_OK. cbv beta. rewrite Hlow.
  assert (E : ISIMIP._step6_get_nr_of_entries_to_set_to_bound self
                (ISIMIP._get_mask_for_values_beyond_lower_threshold self
                   (Np.sort fsortleb []))
                (ISIMIP._get_mask_for_values_beyond_lower_threshold self
                   (Np.sort fsortleb cm_hist))
                (ISIMIP._get_mask_for_values_beyond_lower_threshold self
                   (step6_sorted cm_future))
              = Raise (ValueError msg_round_nan)).
  { unfold ISIMIP._step6_get_nr_of_entries_to_set_to_bound. cbv zeta.
    change (ISIMIP._step6_calculate_percent_values_beyond_threshold
              (ISIMIP._get_mask_for_values_beyond_lower_threshold self
                 (Np.sort fsortleb []))) with NaN.
    rewrite P_obs_future_nan.
    destruct (ISIMIP.adjust_frequencies_of_values_beyond_thresholds self);
      reflexivity. }
  rewrite E. reflexivity.
Qed.

Lemma step6_needs_observations_witness :
  ISIMIP.step6 (K := sample_kernels nat (fun _ _ => (Fin 0%Qc, Fin 1%Qc)))
    forcing_config [] [] forcing_cm_hist forcing_cm_future world0
  = (Raise (ValueError msg_round_nan), world0).
Proof.
  apply (step6_needs_observations (K := sample_kernels nat (fun _ _ => (Fin 0%Qc, Fin 1%Qc)))).
  reflexivity.
Defined.

Lemma map_seq_const (B : Type) (f : nat -> B) (b : B) (s n : nat) :
  (forall i, (s <= i < s + n)%nat -> f i = b) -> map f (seq s n) = repeat b n.
Proof.
  revert s; induction n as [|n IH]; intros s H; [reflexivity|].
  cbn [seq map repeat]. rewrite H by lia. f_equal. apply IH. intros i Hi. apply H. lia.
Qed.

Lemma lower_mask_none (x : list float) :
  ISIMIP._step6_get_mask_for_entries_to_set_to_lower_bound 0 x
  = repeat false (length x).
Proof.
  unfold ISIMIP._step6_get_mask_for_entries_to_set_to_lower_bound.
  apply map_seq_const. intros i _. reflexivity.
Qed.

Lemma upper_mask_none (x : list float) :
  ISIMIP._step6_get_mask_for_entries_to_set_to_upper_bound 0 x
  = repeat false (length x).
Proof.
  unfold ISIMIP._step6_get_mask_for_entries_to_set_to_upper_bound.
  apply map_seq_const. intros i Hi.
  change 0%Z with (Z.of_nat 0). rewrite slice_bound_from_end by lia.
  apply Nat.leb_gt. lia.
Qed.

Lemma put_none (A : Type) (x vals : list A) (n : nat) :
  Np.put x (repeat false n) vals = x.
Proof.
  revert n; induction x as [|a x IH]; intros [|n]; cbn [repeat Np.put]; auto.
  now rewrite IH.
Qed.

Lemma put_all (A : Type) (x vals : list A) :
  length vals = length x -> Np.put x (repeat true (length x)) vals = vals.
Proof.
  revert vals; induction x as [|a x IH]; intros [|v vals] H; try discriminate; auto.
  cbn [length repeat Np.put]. f_equal. apply IH. now injection H.
Qed.

Lemma select_all (A : Type) (x : list A) : Np.select x (repeat true (length x)) = x.
Proof. induction x as [|a x IH]; cbn [length repeat Np.select]; auto. now rewrite IH. Qed.

Lemma count_true_repeat (b : bool) (n : nat) :
  Np.count_true (repeat b n) = if b then n else 0%nat.
Proof.
  induction n as [|n IH]; [now destruct b|].
  cbn [repeat]. rewrite count_true_cons, IH. now destruct b.
Qed.

Lemma map2_andb_all (n : nat) :
  Np.map2 andb (map negb (repeat false n)) (map negb (repeat false n)) = repeat true n.
Proof. induction n as [|n IH]; cbn; [|rewrite IH]; auto. Qed.

(** Every position is the place of one rank. *)
Lemma order_onto (cm_future : list float) (i : nat) :
  (i < length cm_future)%nat ->
  exists j, (j < length cm_future)%nat /\ nth j (step6_order cm_future) 0%nat = i.
Proof.
  intros Hi. unfold step6_order.
  assert (Hin : In i (Np.argsort fsortleb cm_future)).
  { apply (Permutation_in _ (Permutation_sym (argsort_perm fsortleb cm_future))).
    apply in_seq. lia. }
  apply (In_nth _ _ 0%nat) in Hin. destruct Hin as (j & Hj & E).
  rewrite argsort_length in Hj. now exists j.
Qed.

(** X16.  Step 6 without thresholds maps values of equal rank together and
    puts them back in place: the mapping is called on the sorted [cm_future],
    and the value it returns for rank [j] ends up at the position that the
    [j]-th smallest value of [cm_future] had.  A mapping that changes nothing
    gives [cm_future] back. *)
Theorem step6_maps_equal_ranks {G : Type} {K : ISIMIP.Kernels G} (self : ISIMIP.t)
    (obs_hist obs_future cm_hist cm_future vals : list float) (w w1 : World G) :
  ISIMIP.has_lower_threshold self = false ->
  ISIMIP.has_upper_threshold self = false ->
  cm_future <> [] ->
  ISIMIP._step6_adjust_values_between_thresholds self
    (ISIMIP._get_values_between_thresholds self (Np.sort fsortleb obs_hist))
    (ISIMIP._get_values_between_thresholds self (Np.sort fsortleb obs_future))
    (ISIMIP._get_values_between_thresholds self (Np.sort fsortleb cm_hist))
    (step6_sorted cm_future)
    (ISIMIP._get_values_between_thresholds self (step6_sorted cm_future)) w
  = (OK vals, w1) ->
  length vals = length cm_future ->
  exists mapped,
    ISIMIP.step6 self obs_hist obs_future cm_hist cm_future w = (OK mapped, w1)
    /\ (forall j, (j < length cm_future)%nat ->
          nth (nth j (step6_order cm_future) 0%nat) mapped NaN = nth j vals NaN)
    /\ (vals = step6_sorted cm_future -> mapped = cm_future).
Proof.
  intros Hlow Hup Hne Hk Hvals.
  pose proof (step6_sorted_length cm_future) as Hlen.
  assert (Hb : step6_bounded self cm_future 0 0 = step6_sorted cm_future).
  { unfold step6_bounded. cbv zeta. change (Z.of_nat 0) with 0%Z.
    now rewrite lower_mask_none, upper_mask_none, !put_none. }
  assert (Hr : step6_rest cm_future 0 0 = repeat true (length (step6_sorted cm_future))).
  { unfold step6_rest. cbv zeta. change (Z.of_nat 0) with 0%Z.
    rewrite lower_mask_none, upper_mask_none. apply map2_andb_all. }
  pose proof (step6_run_with_counts self obs_hist obs_future cm_hist cm_future
                0 0 w ltac:(lia)) as Hrun.
  rewrite Hlow, Hup in Hrun. specialize (Hrun eq_refl eq_refl).
  rewrite Hb, Hr, select_all, Hk in Hrun.
  replace (existsb (fun b => b) (repeat true (length (step6_sorted cm_future))))
    with true in Hrun
    by (rewrite Hlen; destruct cm_future; [congruence | reflexivity]).
  rewrite setitem_mask_ok in Hrun
    by (rewrite ?repeat_length, ?count_true_repeat; congruence).
  rewrite put_all in Hrun by congruence.
  exists (step6_unsort cm_future vals). split; [exact Hrun|].
  assert (Hrank : forall j, (j < length cm_future)%nat ->
            nth (nth j (step6_order cm_future) 0%nat) (step6_unsort cm_future vals) NaN
            = nth j vals NaN).
  { intros j Hj. unfold step6_unsort. now apply unsort_entry. }
  split; [exact Hrank|].
  intros ->. apply (nth_ext _ _ NaN NaN).
  - unfold step6_unsort, step6_order. now rewrite length_map, !argsort_length.
  - intros i Hi. unfold step6_unsort, step6_order in Hi.
    rewrite length_map, !argsort_length in Hi.
    destruct (order_onto cm_future i Hi) as (j & Hj & <-).
    rewrite (Hrank j Hj). unfold step6_sorted.
    rewrite (nth_map_any _ _ _ (step6_order cm_future) j NaN 0%nat); [reflexivity|].
    unfold step6_order. now rewrite argsort_length.
Qed.

Lemma step6_maps_equal_ranks_witness :
  exists mapped,
    ISIMIP.step6 (K := sample_kernels nat (fun _ _ => (Fin 0%Qc, Fin 1%Qc)))
      tas_config (floats [1; 2]%Z) (floats [1; 2]%Z) (floats [3; 4]%Z)
      (floats [30; 10; 40; 20]%Z) world0 = (OK mapped, world0)
    /\ mapped = floats [30; 10; 40; 20]%Z.
Proof.
  destruct (step6_maps_equal_ranks
              (K := sample_kernels nat (fun _ _ => (Fin 0%Qc, Fin 1%Qc)))
              tas_config (floats [1; 2]%Z) (floats [1; 2]%Z) (floats [3; 4]%Z)
              (floats [30; 10; 40; 20]%Z) (step6_sorted (floats [30; 10; 40; 20]%Z))
              world0 world0 eq_refl eq_refl ltac:(discriminate) eq_refl
              (step6_sorted_length _)) as (mapped & Hrun & _ & Hid).
  exists mapped. split; [exact Hrun | exact (Hid eq_refl)].
Defined.

Lemma above_upper_not_below_lower (v lower upper : float) :
  fleb upper v = true -> fltb lower upper = true -> fleb v lower = false.
Proof.
  destruct v as [a| | |], lower as [b| | |], upper as [c| | |];
    simpl; intros H1 H2; try discriminate; auto.
  rewrite Qcltb_negb in H2. apply negb_true_iff in H2.
  destruct (Qcleb a b) eqn:E; auto.
  rewrite (Qcleb_trans c a b H1 E) in H2. discriminate H2.
Qed.

(** The last [ku] entries hold the upper bound after the three assignments of
    step 6 on the sorted series. *)
Lemma forced_upper_entries (self : ISIMIP.t) (cm_future : list float) (kl ku : nat)
    (vals : list float) (j : nat) :
  (kl + ku <= length cm_future)%nat ->
  (length cm_future - ku <= j < length cm_future)%nat ->
  nth j (step6_bounded self cm_future kl ku) NaN = ISIMIP.upper_bound self
  /\ nth j (Np.put (step6_bounded self cm_future kl ku) (step6_rest cm_future kl ku) vals)
         NaN = ISIMIP.upper_bound self.
Proof.
  intros Hsum Hj. pose proof (step6_sorted_length cm_future) as Hlen.
  unfold step6_bounded, step6_rest. cbv zeta.
  set (sorted := step6_sorted cm_future) in *.
  set (mask_lower := ISIMIP._step6_get_mask_for_entries_to_set_to_lower_bound _ _).
  set (mask_upper := ISIMIP._step6_get_mask_for_entries_to_set_to_upper_bound _ _).
  assert (HU : nth j mask_upper false = true).
  { unfold mask_upper. rewrite upper_mask_nth by lia. apply Nat.leb_le. lia. }
  assert (H2 : nth j (Np.put (Np.put sorted mask_lower
                                (repeat (ISIMIP.lower_bound self) (Np.count_true mask_lower)))
                        mask_upper
                        (repeat (ISIMIP.upper_bound self) (Np.count_true mask_upper))) NaN
               = ISIMIP.upper_bound self).
  { apply put_repeat_nth_true; [rewrite put_length; lia | lia | exact HU]. }
  split; [exact H2|].
  rewrite put_nth_false; [exact H2|].
  rewrite map2_nth.
  - rewrite (nth_map_negb mask_upper), HU; [apply andb_false_r|].
    unfold mask_upper. rewrite upper_mask_length. lia.
  - rewrite length_map. unfold mask_lower. rewrite lower_mask_length. lia.
  - rewrite length_map. unfold mask_upper. rewrite upper_mask_length. lia.
Qed.



Lemma map_seq_split (B : Type) (f : nat -> B) (b1 b2 : B) (k n : nat) :
  (k <= n)%nat ->
  (forall i, (i < k)%nat -> f i = b1) ->
  (forall i, (k <= i < n)%nat -> f i = b2) ->
  map f (seq 0 n) = (repeat b1 k ++ repeat b2 (n - k))%list.
Proof.
  intros Hk H1 H2. replace n with (k + (n - k))%nat at 1 by lia.
  rewrite seq_app, map_app. f_equal; apply map_seq_const; intros i Hi.
  - apply H1. lia.
  - apply H2. lia.
Qed.

(** X18.  The masks of the entries to set to the bounds, for a number [nr] of
    entries that is not negative.  Up to the size of the array the lower mask
    marks the first [nr] entries and the upper mask the last [nr].  Beyond the
    size the two differ: [mask[0:nr]] marks every entry, while the start
    [size - nr] of the upper slice is negative and counts from the end, so
    that for [size < nr <= 2 * size] only the last [nr - size] entries are
    marked. *)
Theorem masks_of_entries_to_set_to_bounds (nr : nat) (cm_future_sorted : list float) :
  let size := length cm_future_sorted in
  ((nr <= size)%nat ->
   ISIMIP._step6_get_mask_for_entries_to_set_to_lower_bound (Z.of_nat nr) cm_future_sorted
   = (repeat true nr ++ repeat false (size - nr))%list
   /\ ISIMIP._step6_get_mask_for_entries_to_set_to_upper_bound (Z.of_nat nr)
        cm_future_sorted
      = (repeat false (size - nr) ++ repeat true nr)%list)
  /\ ((size < nr <= 2 * size)%nat ->
      ISIMIP._step6_get_mask_for_entries_to_set_to_lower_bound (Z.of_nat nr)
        cm_future_sorted
      = repeat true size
      /\ ISIMIP._step6_get_mask_for_entries_to_set_to_upper_bound (Z.of_nat nr)
           cm_future_sorted
         = (repeat false (2 * size - nr) ++ repeat true (nr - size))%list).
Proof.
  intros size.
  unfold ISIMIP._step6_get_mask_for_entries_to_set_to_lower_bound,
    ISIMIP._step6_get_mask_for_entries_to_set_to_upper_bound. fold size.
  split; intros H; split.
  - rewrite slice_bound_of_nat by exact H.
    apply map_seq_split; [exact H | |]; intros i Hi.
    + apply Nat.ltb_lt. lia.
    + apply Nat.ltb_ge. lia.
  - rewrite slice_bound_from_end by exact H.
    rewrite (map_seq_split bool _ false true (size - nr) size);
      [do 2 f_equal; lia | lia | |]; intros i Hi.
    + apply Nat.leb_gt. lia.
    + apply Nat.leb_le. lia.
  - apply map_seq_const. intros i Hi. apply Nat.ltb_lt.
    unfold ISIMIP.slice_bound. destruct (Z.ltb_spec (Z.of_nat nr) 0); lia.
  - assert (E : ISIMIP.slice_bound (Z.of_nat size - Z.of_nat nr) size
                = (2 * size - nr)%nat).
    { unfold ISIMIP.slice_bound.
      destruct (Z.ltb_spec (Z.of_nat size - Z.of_nat nr) 0); lia. }
    rewrite E.
    rewrite (map_seq_split bool _ false true (2 * size - nr) size);
      [do 2 f_equal; lia | lia | |]; intros i Hi.
    + apply Nat.leb_gt. lia.
    + apply Nat.leb_le. lia.
Qed.

Lemma masks_of_entries_to_set_to_bounds_witness :
  (ISIMIP._step6_get_mask_for_entries_to_set_to_lower_bound 2 (floats [1; 2; 3; 4; 5]%Z)
   = [true; true; false; false; false]
   /\ ISIMIP._step6_get_mask_for_entries_to_set_to_upper_bound 2 (floats [1; 2; 3; 4; 5]%Z)
      = [false; false; false; true; true])
  /\ (ISIMIP._step6_get_mask_for_entries_to_set_to_lower_bound 7 (floats [1; 2; 3; 4; 5]%Z)
      = [true; true; true; true; true]
      /\ ISIMIP._step6_get_mask_for_entries_to_set_to_upper_bound 7
           (floats [1; 2; 3; 4; 5]%Z)
         = [false; false; false; true; true]).
Proof.
  split.
  - apply (proj1 (masks_of_entries_to_set_to_bounds 2 (floats [1; 2; 3; 4; 5]%Z))).
    simpl. lia.
  - apply (proj2 (masks_of_entries_to_set_to_bounds 7 (floats [1; 2; 3; 4; 5]%Z))).
    simpl. lia.
Defined.

(** ** ISIMIP step 6: the frequency of values beyond a threshold *)

From Stdlib Require Import Lqa.

Lemma this_plus (x y : Qc) : (this (x + y)%Qc == this x + this y)%Q.
Proof. unfold Qcplus, Q2Qc. cbn [this]. apply Qred_correct. Qed.

Lemma this_mult (x y : Qc) : (this (x * y)%Qc == this x * this y)%Q.
Proof. unfold Qcmult, Q2Qc. cbn [this]. apply Qred_correct. Qed.

Lemma this_opp (x : Qc) : (this (- x)%Qc == - this x)%Q.
Proof. unfold Qcopp, Q2Qc. cbn [this]. apply Qred_correct. Qed.

Lemma this_minus (x y : Qc) : (this (x - y)%Qc == this x - this y)%Q.
Proof. unfold Qcminus. rewrite this_plus, this_opp. reflexivity. Qed.

Lemma this_inv (x : Qc) : (this (/ x)%Qc == / this x)%Q.
Proof. unfold Qcinv, Q2Qc. cbn [this]. apply Qred_correct. Qed.

Lemma this_div (x y : Qc) : (this (x / y)%Qc == this x / this y)%Q.
Proof. unfold Qcdiv. rewrite this_mult, this_inv. reflexivity. Qed.

Lemma this_zc (z : Z) : (this (zc z) == inject_Z z)%Q.
Proof. unfold zc, Q2Qc. cbn [this]. apply Qred_correct. Qed.

(** Turns a goal and hypotheses on [Qc] into ones on [Q]. *)
Ltac to_Q :=
  unfold Qcle, Qclt in *;
  repeat match goal with
         | H : @eq Qc _ _ |- _ => apply (f_equal this) in H
         end;
  repeat rewrite ?this_plus, ?this_minus, ?this_mult, ?this_opp, ?this_div, ?this_zc in *;
  change (this 0%Qc) with 0%Q in *; change (this 1%Qc) with 1%Q in *.

Lemma Qcleb_gt (x y : Qc) : Qcleb x y = false <-> (y < x)%Qc.
Proof.
  rewrite <- Qcltb_lt, Qcltb_negb. split; intros H.
  - now rewrite H.
  - now apply negb_true_iff in H.
Qed.

Lemma fsign_pos (q : Qc) : (0 < q)%Qc -> fsign q = Gt.
Proof. intros H. unfold fsign. now apply Qcgt_alt. Qed.

(** A frequency: a rational of [[0, 1]]. *)
Definition is_frequency (p : float) : Prop :=
  exists q : Qc, p = Fin q /\ (0 <= q)%Qc /\ (q <= 1)%Qc.

(** The four cases of the frequency formula on numbers of [[0, 1]]. *)
Lemma P_obs_future_bounds (a b c : Qc) :
  (0 <= a)%Qc -> (a <= 1)%Qc -> (0 <= b)%Qc -> (b <= 1)%Qc ->
  (0 <= c)%Qc -> (c <= 1)%Qc ->
  is_frequency (ISIMIP._step6_get_P_obs_future (Fin a) (Fin b) (Fin c)).
Proof.
  intros Ha0 Ha1 Hb0 Hb1 Hc0 Hc1.
  unfold ISIMIP._step6_get_P_obs_future.
  destruct (isclose (Fin b) (Fin a)); [now exists c|].
  cbn [fleb fltb].
  destruct (Qcleb c b) eqn:E1; [destruct (Qcltb a b) eqn:E2|]; cbn [andb].
  - apply Qcleb_le in E1. apply Qcltb_lt in E2.
    assert (Hb : (0 < b)%Qc) by (to_Q; lra).
    cbn [fmul fdiv]. rewrite (fsign_pos b Hb).
    exists (a * c / b)%Qc. split; [reflexivity|].
    to_Q. assert (Hb' : (0 < this b)%Q) by lra. split.
    + apply Qle_shift_div_l; [exact Hb'|]. nra.
    + apply Qle_shift_div_r; [exact Hb'|]. nra.
  - apply Qcleb_le in E1. apply Qcltb_ge in E2.
    destruct (Qcleb b c && Qcltb b a) eqn:E3.
    + apply andb_true_iff in E3. destruct E3 as [E3 E4].
      apply Qcleb_le in E3. apply Qcltb_lt in E4.
      assert (Hb : (0 < 1 + - b)%Qc) by (to_Q; lra).
      cbn [fsub fadd fopp fmul fdiv]. rewrite (fsign_pos _ Hb).
      eexists. split; [reflexivity|].
      to_Q. assert (Hb' : (0 < 1 + - this b)%Q) by lra.
      assert (Hq : (0 <= (1 + - this a) * (1 + - this c) / (1 + - this b)
                    /\ (1 + - this a) * (1 + - this c) / (1 + - this b) <= 1)%Q).
      { split.
        - apply Qle_shift_div_l; [exact Hb'|]. nra.
        - apply Qle_shift_div_r; [exact Hb'|]. nra. }
      lra.
    + cbn [fsub fadd fopp]. eexists. split; [reflexivity|].
      apply andb_false_iff in E3. to_Q.
      destruct E3 as [E3|E3];
        [apply Qcleb_gt in E3 | apply Qcltb_ge in E3]; to_Q; lra.
  - apply Qcleb_gt in E1.
    destruct (Qcleb b c && Qcltb b a) eqn:E3.
    + apply andb_true_iff in E3. destruct E3 as [E3 E4].
      apply Qcleb_le in E3. apply Qcltb_lt in E4.
      assert (Hb : (0 < 1 + - b)%Qc) by (to_Q; lra).
      cbn [fsub fadd fopp fmul fdiv]. rewrite (fsign_pos _ Hb).
      eexists. split; [reflexivity|].
      to_Q. assert (Hb' : (0 < 1 + - this b)%Q) by lra.
      assert (Hq : (0 <= (1 + - this a) * (1 + - this c) / (1 + - this b)
                    /\ (1 + - this a) * (1 + - this c) / (1 + - this b) <= 1)%Q).
      { split.
        - apply Qle_shift_div_l; [exact Hb'|]. nra.
        - apply Qle_shift_div_r; [exact Hb'|]. nra. }
      lra.
    + cbn [fsub fadd fopp]. eexists. split; [reflexivity|].
      apply andb_false_iff in E3. to_Q.
      destruct E3 as [E3|E3];
        [apply Qcleb_gt in E3 | apply Qcltb_ge in E3]; to_Q; lra.
Qed.

(** X19.  The frequency formula of step 6 returns a frequency: for
    [P_obs_hist], [P_cm_hist] and [P_cm_future] in [[0, 1]], the value of
    [_step6_get_P_obs_future] is a number of [[0, 1]] in each of its four
    cases (no division by zero occurs, and the additive case does not leave
    the interval). *)
Theorem P_obs_future_is_a_frequency (P_obs_hist P_cm_hist P_cm_future : float) :
  is_frequency P_obs_hist -> is_frequency P_cm_hist -> is_frequency P_cm_future ->
  is_frequency (ISIMIP._step6_get_P_obs_future P_obs_hist P_cm_hist P_cm_future).
Proof.
  intros (a & -> & Ha0 & Ha1) (b & -> & Hb0 & Hb1) (c & -> & Hc0 & Hc1).
  destruct (P_obs_future_bounds a b c Ha0 Ha1 Hb0 Hb1 Hc0 Hc1) as (p & E & Hp0 & Hp1).
  exists p. now rewrite E.
Qed.

Lemma P_obs_future_is_a_frequency_witness :
  is_frequency
    (ISIMIP._step6_get_P_obs_future (Fin (qc 2 10)) (Fin (qc 5 10)) (Fin (qc 4 10)))
  /\ float_repr
       (ISIMIP._step6_get_P_obs_future (Fin (qc 2 10)) (Fin (qc 5 10)) (Fin (qc 4 10)))
     = inl (4 # 25)%Q.
Proof.
  split; [|vm_compute; reflexivity].
  apply P_obs_future_is_a_frequency;
    (eexists; split; [reflexivity|]; split; vm_compute; discriminate).
Defined.

Lemma round_half_even_bounds (x : Qc) (lo hi : Z) :
  (zc lo <= x)%Qc -> (x <= zc hi)%Qc -> (lo <= round_half_even x <= hi)%Z.
Proof.
  intros Hlo Hhi. unfold round_half_even.
  pose proof (Qfloor_le x) as F1. pose proof (Qlt_floor x) as F2.
  assert (Flo : (lo <= Qfloor x)%Z).
  { rewrite <- (Qfloor_Z lo). apply Qfloor_resp_le. to_Q. exact Hlo. }
  assert (Fhi : (Qfloor x <= hi)%Z).
  { rewrite <- (Qfloor_Z hi). apply Qfloor_resp_le. to_Q. exact Hhi. }
  assert (Hup : Qcltb (x - zc (Qfloor x)) (qc 1 2) = false -> (Qfloor x + 1 <= hi)%Z).
  { intros E. apply Qcltb_ge in E.
    destruct (Z.le_gt_cases hi (Qfloor x)) as [Hle|Hgt]; [|lia].
    exfalso. rewrite Zle_Qle in Hle.
    assert (Hhalf : (this (qc 1 2) == 1 # 2)%Q) by reflexivity.
    to_Q. rewrite Hhalf in E. lra. }
  destruct (Qcltb (x - zc (Qfloor x)) (qc 1 2)) eqn:E1; [lia|].
  specialize (Hup eq_refl).
  destruct (Qcltb (qc 1 2) (x - zc (Qfloor x))); [lia|].
  destruct (Z.even (Qfloor x)); lia.
Qed.

Lemma percent_is_a_frequency (mask : list bool) :
  mask <> [] ->
  is_frequency (ISIMIP._step6_calculate_percent_values_beyond_threshold mask).
Proof.
  intros Hne. rewrite percent_value by exact Hne.
  eexists. split; [reflexivity|].
  assert (Hlen : (0 < length mask)%nat) by (destruct mask; [congruence | simpl; lia]).
  pose proof (count_true_le_length mask) as Hc.
  assert (H0 : (0 <= inject_Z (Z.of_nat (Np.count_true mask)))%Q)
    by (change 0%Q with (inject_Z 0); rewrite <- Zle_Qle; lia).
  assert (H1 : (inject_Z (Z.of_nat (Np.count_true mask))
                <= inject_Z (Z.of_nat (length mask)))%Q) by (rewrite <- Zle_Qle; lia).
  assert (H2 : (0 < inject_Z (Z.of_nat (length mask)))%Q) by (change 0%Q with (inject_Z 0); rewrite <- Zlt_Qlt; lia).
  unfold nc. to_Q. split.
  - apply Qle_shift_div_l; [exact H2|]. lra.
  - apply Qle_shift_div_r; [exact H2|]. lra.
Qed.

(** X20.  The number of entries to set to a bound lies between zero and the
    size of [cm_future]: for non-empty masks
    [_step6_get_nr_of_entries_to_set_to_bound] returns without an error a
    number [nr] with [0 <= nr <= size], with or without the adjustment of the
    frequencies. *)
Theorem nr_of_entries_is_within_the_size (self : ISIMIP.t) (m_obs_hist m_cm_hist
    m_cm_future : list bool) :
  m_obs_hist <> [] -> m_cm_hist <> [] -> m_cm_future <> [] ->
  exists nr,
    ISIMIP._step6_get_nr_of_entries_to_set_to_bound self m_obs_hist m_cm_hist m_cm_future
    = OK nr
    /\ (0 <= nr <= Z.of_nat (length m_cm_future))%Z.
Proof.
  intros H1 H2 H3. unfold ISIMIP._step6_get_nr_of_entries_to_set_to_bound. cbv zeta.
  assert (HP : is_frequency
                 (if ISIMIP.adjust_frequencies_of_values_beyond_thresholds self
                  then ISIMIP._step6_get_P_obs_future
                         (ISIMIP._step6_calculate_percent_values_beyond_threshold m_obs_hist)
                         (ISIMIP._step6_calculate_percent_values_beyond_threshold m_cm_hist)
                         (ISIMIP._step6_calculate_percent_values_beyond_threshold
                            m_cm_future)
                  else ISIMIP._step6_calculate_percent_values_beyond_threshold m_obs_hist)).
  { destruct (ISIMIP.adjust_frequencies_of_values_beyond_thresholds self).
    - destruct (percent_is_a_frequency m_obs_hist H1) as (a & -> & Ha0 & Ha1).
      destruct (percent_is_a_frequency m_cm_hist H2) as (b & -> & Hb0 & Hb1).
      destruct (percent_is_a_frequency m_cm_future H3) as (c & -> & Hc0 & Hc1).
      now apply P_obs_future_bounds.
    - now apply percent_is_a_frequency. }
  destruct HP as (p & -> & Hp0 & Hp1). cbn [fmul py_round].
  eexists. split; [reflexivity|].
  apply round_half_even_bounds.
  - assert (H0 : (0 <= inject_Z (Z.of_nat (length m_cm_future)))%Q)
      by (change 0%Q with (inject_Z 0); rewrite <- Zle_Qle; lia).
    unfold nc. to_Q. change (inject_Z 0) with 0%Q. nra.
  - assert (H0 : (0 <= inject_Z (Z.of_nat (length m_cm_future)))%Q)
      by (change 0%Q with (inject_Z 0); rewrite <- Zle_Qle; lia).
    unfold nc. to_Q. nra.
Qed.

Lemma nr_of_entries_is_within_the_size_witness :
  exists nr,
    ISIMIP._step6_get_nr_of_entries_to_set_to_bound forcing_config
      [true; false] [true; true] [false; true; false] = OK nr
    /\ (0 <= nr <= 3)%Z.
Proof.
  apply (nr_of_entries_is_within_the_size forcing_config
           [true; false] [true; true] [false; true; false]); discriminate.
Defined.

(** ** CDFt: the two halves of the singularity removal *)

Lemma set_below_threshold_undoes (threshold : Qc) (x x' : list Qc) :
  zeros_randomized threshold x x' ->
  Forall (fun v => v = 0%Qc \/ (threshold <= v)%Qc) x ->
  CDFt._set_values_below_threshold_to_zero x' threshold = x.
Proof.
  unfold zeros_randomized, CDFt._set_values_below_threshold_to_zero.
  induction 1 as [|v v' x x' Hv _ IH]; intros Hall; [reflexivity|].
  inversion Hall as [|? ? Hv0 Hall']; subst. cbn [map]. f_equal; [|now apply IH].
  destruct (Qceqb v 0) eqn:E.
  - apply Qceqb_eq in E. subst v. destruct Hv as [_ Hlt].
    apply Qcltb_lt in Hlt. now rewrite Hlt.
  - subst v'. destruct Hv0 as [->|Hge].
    + rewrite (proj2 (Qceqb_eq 0 0) eq_refl) in E. discriminate E.
    + apply Qcltb_ge in Hge. now rewrite Hge.
Qed.

(** X21.  The two SSR steps of CDFt cancel on data without negative values:
    replacing the zeros of [cm_future] by draws below the threshold
    ([_apply_SSR_steps_before_adjustment]) and then setting what is below the
    threshold to zero ([_apply_SSR_steps_after_adjustment]) gives [cm_future]
    back. *)
Theorem SSR_steps_cancel {G : Type} {R : NumpyRandom G}
    (obs cm_hist cm_future obs' cm_hist' cm_future' : list Qc) (threshold : Qc)
    (w w' : World G) :
  CDFt._apply_SSR_steps_before_adjustment obs cm_hist cm_future w
  = (OK (obs', cm_hist', cm_future', threshold), w') ->
  Forall (fun v => (0 <= v)%Qc) cm_future ->
  CDFt._apply_SSR_steps_after_adjustment cm_future' threshold = cm_future.
Proof.
  intros H Hnonneg. unfold CDFt._apply_SSR_steps_before_adjustment in H.
  apply bind_OK_inv in H. destruct H as (thr & w1 & Ht & H).
  apply lift_OK_inv in Ht. destruct Ht as [Ht _].
  apply bind_OK_inv in H. destruct H as (o & w2 & _ & H).
  apply bind_OK_inv in H. destruct H as (h & w3 & _ & H).
  apply bind_OK_inv in H. destruct H as (f & w4 & Hf & H).
  unfold ret in H. injection H as _ _ <- <- _.
  assert (Hpos : has_positive obs /\ has_positive cm_hist /\ has_positive cm_future).
  { destruct (lacks_or_has_positive obs) as [L|Ho];
      [rewrite get_threshold_fails in Ht by auto; discriminate Ht|].
    destruct (lacks_or_has_positive cm_hist) as [L|Hh];
      [rewrite get_threshold_fails in Ht by auto; discriminate Ht|].
    destruct (lacks_or_has_positive cm_future) as [L|Hc];
      [rewrite get_threshold_fails in Ht by auto; discriminate Ht|].
    auto. }
  destruct Hpos as (Ho & Hh & Hc).
  destruct (get_threshold_spec Ho Hh Hc) as (thr' & Et & Hthr & _ & Hmin).
  rewrite Et in Ht. injection Ht as ->.
  destruct (randomize_zero_values_spec cm_future w3 Hthr) as (f' & w4' & Ef & Hz).
  rewrite Ef in Hf. injection Hf as -> _.
  unfold CDFt._apply_SSR_steps_after_adjustment.
  apply (set_below_threshold_undoes thr cm_future f Hz).
  apply Forall_forall. intros v Hin.
  rewrite Forall_forall in Hnonneg. specialize (Hnonneg v Hin).
  destruct (Qceqb v 0) eqn:E; [left; now apply Qceqb_eq|right].
  apply Hmin; [rewrite !in_app_iff; auto|].
  apply Qcle_lt_or_eq in Hnonneg. destruct Hnonneg as [Hlt|Heq]; [exact Hlt|].
  subst v. rewrite (proj2 (Qceqb_eq 0 0) eq_refl) in E. discriminate E.
Qed.

Lemma SSR_steps_cancel_witness :
  exists obs' cm_hist' cm_future' threshold w',
    CDFt._apply_SSR_steps_before_adjustment (R := sample_random)
      (map zc [0; 2; 4]%Z) (map zc [3; 0]%Z) (map zc [0; 5; 0; 1]%Z) world0
    = (OK (obs', cm_hist', cm_future', threshold), w')
    /\ map this cm_future' <> map this (map zc [0; 5; 0; 1]%Z)
    /\ CDFt._apply_SSR_steps_after_adjustment cm_future' threshold
       = map zc [0; 5; 0; 1]%Z.
Proof.
  do 5 eexists. split; [vm_compute; reflexivity|]. split; [vm_compute; discriminate|].
  apply (SSR_steps_cancel (R := sample_random)
           (map zc [0; 2; 4]%Z) (map zc [3; 0]%Z) (map zc [0; 5; 0; 1]%Z) _ _ _ _
           world0 _ ltac:(vm_compute; reflexivity)).
  repeat constructor; vm_compute; discriminate.
Defined.

(** ** CDFt: the delta shift *)

Lemma Qc_eq_this (x y : Qc) : (this x == this y)%Q -> x = y.
Proof. apply Qc_is_canon. Qed.

Lemma nc_S (n : nat) : nc (S n) = (nc n + 1)%Qc.
Proof.
  apply Qc_eq_this. unfold nc. rewrite this_plus, !this_zc.
  rewrite Nat2Z.inj_succ. unfold Z.succ. rewrite inject_Z_plus. reflexivity.
Qed.

Lemma fold_left_Qcplus_acc (l : list Qc) (a : Qc) :
  fold_left Qcplus l a = (a + fold_left Qcplus l 0)%Qc.
Proof.
  revert a; induction l as [|v l IH]; intros a; cbn [fold_left].
  - ring.
  - rewrite IH, (IH (0 + v)%Qc). ring.
Qed.

Lemma sum_cons (v : Qc) (l : list Qc) : Num.sum (v :: l) = (v + Num.sum l)%Qc.
Proof.
  unfold Num.sum. cbn [fold_left]. rewrite fold_left_Qcplus_acc. ring.
Qed.

Lemma sum_map_plus (k : Qc) (l : list Qc) :
  Num.sum (map (fun v => v + k)%Qc l) = (Num.sum l + nc (length l) * k)%Qc.
Proof.
  induction l as [|v l IH].
  - unfold Num.sum. cbn. change (nc 0) with 0%Qc. ring.
  - cbn [map length]. rewrite !sum_cons, IH, nc_S. ring.
Qed.

Lemma sum_map_mult (k : Qc) (l : list Qc) :
  Num.sum (map (fun v => v * k)%Qc l) = (Num.sum l * k)%Qc.
Proof.
  induction l as [|v l IH].
  - unfold Num.sum. cbn. ring.
  - cbn [map]. rewrite !sum_cons, IH. ring.
Qed.

Lemma nc_length_nonzero (l : list Qc) : l <> [] -> nc (length l) <> 0%Qc.
Proof. intros H. apply nc_nonzero. destruct l; [congruence | discriminate]. Qed.

Lemma mean_map_plus (k : Qc) (l : list Qc) :
  l <> [] -> mean (map (fun v => v + k)%Qc l) = (mean l + k)%Qc.
Proof.
  intros H. unfold mean. rewrite sum_map_plus, length_map.
  pose proof (nc_length_nonzero l H) as Hn. field. exact Hn.
Qed.

Lemma mean_map_mult (k : Qc) (l : list Qc) :
  mean (map (fun v => v * k)%Qc l) = (mean l * k)%Qc.
Proof.
  unfold mean. rewrite sum_map_mult, length_map.
  unfold Qcdiv. ring.
Qed.



(** ** QuantileDeltaMapping: relative trends, censoring, unbiased models *)

Section QDMMore.
Context {U : Utils}.
Variable self : QDM.t.

(** The probabilities at which the quantiles are taken. *)
Definition QDM_tau (cm_future : list Qc) : list Qc :=
  threshold_cdf_vals (ecdf_values (QDM.ecdf_method self) cm_future cm_future)
                     (QDM.cdf_threshold self).

Lemma QDM_tau_length (cm_future : list Qc) :
  length (QDM_tau cm_future) = length cm_future.
Proof. unfold QDM_tau. now rewrite threshold_cdf_vals_length, ecdf_values_length. Qed.

Lemma ppf_all_length (tau : list Qc) (fitted : params (QDM.distribution self)) :
  length (QDM.ppf_all self tau fitted) = length tau.
Proof. apply length_map. Qed.

(** The values before censoring. *)
Lemma QDM_debiasing_steps_run (cm_future : list Qc)
    (fit_obs fit_cm_hist : params (QDM.distribution self)) :
  cm_future <> [] ->
  QDM._apply_debiasing_steps self cm_future fit_obs fit_cm_hist
  = rbind
      (if QDM.trend_preservation self =? "absolute" then
         OK (Np.map2 Qcminus
               (Np.map2 Qcplus cm_future (QDM.ppf_all self (QDM_tau cm_future) fit_obs))
               (QDM.ppf_all self (QDM_tau cm_future) fit_cm_hist))
       else if QDM.trend_preservation self =? "relative" then
         OK (Np.map2 Qcdiv
               (Np.map2 Qcmult cm_future (QDM.ppf_all self (QDM_tau cm_future) fit_obs))
               (QDM.ppf_all self (QDM_tau cm_future) fit_cm_hist))
       else Raise (ValueError
         "self.trend_preservation needs to be one of [absolute, relative]"))
      (fun vals =>
         OK (if QDM.censor_values_to_zero self
             then map (fun v => if Qcltb v (QDM.censoring_threshold self) then 0%Qc else v)
                      vals
             else vals)).
Proof.
  intros Hne. unfold QDM._apply_debiasing_steps.
  rewrite (ecdf_nonempty _ _ Hne). reflexivity.
Qed.

End QDMMore.

(** X23.  QuantileDeltaMapping with relative trend preservation and no
    censoring: on a chunk with at least one value and with quantiles of the
    [cm_hist] fit that are not zero, every value is
    [cm_future * ppf(tau_t; fit_obs) / ppf(tau_t; fit_cm_hist)], with [tau_t]
    taken within the chunk's own [cm_future]. *)
Theorem QDM_relative_delta {U : Utils} (self : QDM.t) (cm_future : list Qc)
    (fit_obs fit_cm_hist : params (QDM.distribution self)) :
  QDM.trend_preservation self = "relative" ->
  QDM.censor_values_to_zero self = false ->
  cm_future <> [] ->
  Forall (fun q => q <> 0%Qc) (QDM.ppf_all self (QDM_tau self cm_future) fit_cm_hist) ->
  exists output,
    QDM._apply_debiasing_steps self cm_future fit_obs fit_cm_hist = OK output
    /\ length output = length cm_future
    /\ forall i, (i < length cm_future)%nat ->
         (nth i output 0
          = nth i cm_future 0
            * ppf (QDM.distribution self) (nth i (QDM_tau self cm_future) 0) fit_obs
            / ppf (QDM.distribution self) (nth i (QDM_tau self cm_future) 0) fit_cm_hist)%Qc.
Proof.
  intros Hrel Hcens Hne _.
  rewrite QDM_debiasing_steps_run by exact Hne.
  rewrite Hrel, Hcens. cbn [String.eqb Ascii.eqb Bool.eqb rbind].
  pose proof (QDM_tau_length self cm_future) as Htau.
  eexists. split; [reflexivity|]. split.
  - rewrite map2_length; rewrite map2_length; rewrite ?ppf_all_length; auto.
  - intros i Hi.
    rewrite map2_nth;
      [|rewrite map2_length; rewrite ?ppf_all_length; auto; lia
       |rewrite ppf_all_length; lia].
    rewrite map2_nth; [|lia|rewrite ppf_all_length; lia].
    rewrite !ppf_all_nth by lia. reflexivity.
Qed.

(** A relative configuration without running windows. *)
Definition qdm_relative_config (censor : bool) : QDM.t :=
  QDM.__attrs_post_init__
    (QDM.mk sample_distribution "relative" censor (qc 3 2) false 31 1 false 91 31
            "pr" "linear_interpolation" None).

Ltac qc_nonzero :=
  let H := fresh in intros H; apply (f_equal this) in H; vm_compute in H; discriminate H.

Lemma QDM_relative_delta_witness :
  exists output,
    QDM._apply_debiasing_steps (U := sample_utils) (qdm_relative_config false)
      (map zc [3; 1; 2]%Z)
      (fit sample_distribution (map zc [2; 10]%Z))
      (fit sample_distribution (map zc [1; 20]%Z)) = OK output
    /\ length output = 3%nat.
Proof.
  destruct (QDM_relative_delta (U := sample_utils) (qdm_relative_config false)
              (map zc [3; 1; 2]%Z)
              (fit sample_distribution (map zc [2; 10]%Z))
              (fit sample_distribution (map zc [1; 20]%Z))
              eq_refl eq_refl ltac:(discriminate)
              ltac:(repeat constructor; qc_nonzero)) as (output & H & Hlen & _).
  exists output. split; [exact H | exact Hlen].
Defined.





(** * The numerical kernels of ISIMIP

    Methods of [debias/_isimip.py] that [ISIMIP.Kernels] takes as parameters,
    as the source writes them: the trend transfer of step 5 and the scaling by
    the annual cycle of upper bounds of steps 1 and 8. *)

Module Kernel.

(** [np.minimum] and [np.maximum]: a NaN on either side gives NaN. *)
Definition np_minimum (x y : float) : float :=
  if isnan x || isnan y then NaN else if fleb x y then x else y.

Definition np_maximum (x y : float) : float :=
  if isnan x || isnan y then NaN else if fleb x y then y else x.

Fixpoint zip_with {A B C : Type} (f : A -> B -> C) (a : list A) (b : list B) : list C :=
  match a, b with
  | u :: a', v :: b' => f u v :: zip_with f a' b'
  | _, _ => []
  end.

(** [a op b] on one-dimensional arrays: the sizes agree, or one of them is 1. *)
Definition broadcast {A B C : Type} (f : A -> B -> C) (a : list A) (b : list B) :
    result (list C) :=
  if (length a =? length b)%nat then OK (zip_with f a b)
  else match a, b with
       | [u], _ => OK (map (f u) b)
       | _, [v] => OK (map (fun u => f u v) a)
       | _, _ => Raise (ValueError "operands could not be broadcast together")
       end.

(** [x[i]] for an integer [i]: a negative index counts from the end. *)
Definition getitem_int {A : Type} (x : list A) (i : Z) : result A :=
  let n := Z.of_nat (length x) in
  let j := if (i <? 0)%Z then (n + i)%Z else i in
  if (j <? 0)%Z || (n <=? j)%Z then Raise (IndexError "index is out of bounds")
  else match nth_error x (Z.to_nat j) with
       | Some a => OK a
       | None => Raise (IndexError "index is out of bounds")
       end.

(** A comprehension [[f(v) for v in l]] whose body may raise. *)
Fixpoint comprehension {A B : Type} (f : A -> result B) (l : list A) : result (list B) :=
  match l with
  | [] => OK []
  | a :: l' => b <~ f a ;; r <~ comprehension f l' ;; OK (b :: r)
  end.

(** [x[idx]] for an array [idx] of integers. *)
Definition take {A : Type} (x : list A) (idx : list Z) : result (list A) :=
  comprehension (getitem_int x) idx.

(** [x[days == day][0]] *)
Definition value_of_day (x : list float) (days : list Z) (day : Z) : result float :=
  selected <~ Np.getitem_mask x (map (fun d => (d =? day)%Z) days) ;;
  getitem_int selected 0.

(** What the trend transfer calls from [utils] and NumPy, on float arrays:
    [ecdf] and [iecdf], which return one value per argument, the cosine, pi,
    and [np.empty_like], whose array holds whatever the memory held. *)
Class Quantiles : Type := {
  ecdf : list float -> list float -> string -> result (list float);
  iecdf : list float -> list float -> string -> result (list float);
  np_cos : float -> float;
  np_pi : float;
  np_empty_like : list float -> list float;
  np_empty_like_length : forall x, length (np_empty_like x) = length x;
  ecdf_length : forall x y m r, ecdf x y m = OK r -> length r = length y;
  iecdf_length : forall x p m r, iecdf x p m = OK r -> length r = length p
}.

Section Methods.
Context {Q : Quantiles}.

(** [np.maximum(0.01, np.minimum(100, np.where(q_cm_hist == 0, 1,
    q_cm_future / q_cm_hist)))] *)
Definition delta_mult (q_cm_future q_cm_hist : list float) : result (list float) :=
  let hist_is_zero := map (fun h => feqb h (Fin 0%Qc)) q_cm_hist in
  ratio <~ broadcast fdiv q_cm_future q_cm_hist ;;
  delta_star_mult <~
    broadcast (fun (c : bool) r => if c then Fin 1%Qc else r) hist_is_zero ratio ;;
  OK (map (fun d => np_maximum (Fin (qc 1 100)) (np_minimum (Fin (zc 100)) d))
          delta_star_mult).

Definition _step5_transfer_trend (self : ISIMIP.t) (obs_hist cm_hist cm_future : list float) :
    result (list float) :=
  p <~ ecdf obs_hist obs_hist (ISIMIP.ecdf_method self) ;;
  let q_obs_hist := obs_hist in
  q_cm_future <~ iecdf cm_future p (ISIMIP.iecdf_method self) ;;
  q_cm_hist <~ iecdf cm_hist p (ISIMIP.iecdf_method self) ;;
  if ISIMIP.trend_preservation_method self =? "additive" then
    delta_add <~ broadcast fsub q_cm_future q_cm_hist ;;
    broadcast fadd obs_hist delta_add
  else if ISIMIP.trend_preservation_method self =? "multiplicative" then
    delta_mult <~ delta_mult q_cm_future q_cm_hist ;;
    broadcast fmul obs_hist delta_mult
  else if ISIMIP.trend_preservation_method self =? "mixed" then
    condition1 <~ broadcast (fun h o => fleb o h) q_cm_hist q_obs_hist ;;
    below <~ broadcast fltb q_cm_hist q_obs_hist ;;
    within <~ broadcast fltb q_obs_hist (map (fmul (Fin (zc 9))) q_cm_hist) ;;
    condition2 <~ broadcast andb below within ;;
    let gamma := Np.zeros_like (Fin 0%Qc) obs_hist in
    gamma <~ Np.fill_mask gamma condition1 (Fin 1%Qc) ;;
    o <~ Np.getitem_mask q_obs_hist condition2 ;;
    h <~ Np.getitem_mask q_cm_hist condition2 ;;
    ratio <~ broadcast fdiv o h ;;
    gamma <~ Np.setitem_mask gamma condition2
               (map (fun r =>
                       fmul (Fin (qc 1 2))
                         (fadd (Fin 1%Qc)
                            (np_cos (fdiv (fmul (fsub r (Fin 1%Qc)) np_pi) (Fin (zc 8))))))
                    ratio) ;;
    delta_add <~ broadcast fsub q_cm_future q_cm_hist ;;
    delta_mult <~ delta_mult q_cm_future q_cm_hist ;;
    multiplicative <~ broadcast fmul gamma obs_hist ;;
    multiplicative <~ broadcast fmul multiplicative delta_mult ;;
    additive <~ broadcast fadd obs_hist delta_add ;;
    additive <~ broadcast fmul (map (fsub (Fin 1%Qc)) gamma) additive ;;
    broadcast fadd multiplicative additive
  else if ISIMIP.trend_preservation_method self =? "bounded" then
    let a := ISIMIP.lower_bound self in
    let b := ISIMIP.upper_bound self in
    mask_negative_bias <~ broadcast fltb q_cm_hist q_obs_hist ;;
    mask_zero_bias <~ broadcast isclose q_cm_hist q_obs_hist ;;
    mask_positive_bias <~ broadcast (fun h o => fltb o h) q_cm_hist q_obs_hist ;;
    future_below <~ broadcast fltb q_cm_future q_cm_hist ;;
    negative_and_below <~ broadcast andb mask_negative_bias future_below ;;
    future_above <~ broadcast (fun f h => fltb h f) q_cm_future q_cm_hist ;;
    positive_and_above <~ broadcast andb mask_positive_bias future_above ;;
    mask_additive_correction <~ broadcast orb negative_and_below positive_and_above ;;
    let return_vals := np_empty_like q_cm_future in
    o <~ Np.getitem_mask q_obs_hist mask_negative_bias ;;
    f <~ Np.getitem_mask q_cm_future mask_negative_bias ;;
    product <~ broadcast fmul (map (fsub b) o) (map (fsub b) f) ;;
    h <~ Np.getitem_mask q_cm_hist mask_negative_bias ;;
    quotient <~ broadcast fdiv product (map (fsub b) h) ;;
    return_vals <~ Np.setitem_mask return_vals mask_negative_bias (map (fsub b) quotient) ;;
    f <~ Np.getitem_mask q_cm_future mask_zero_bias ;;
    return_vals <~ Np.setitem_mask return_vals mask_zero_bias f ;;
    o <~ Np.getitem_mask q_obs_hist mask_positive_bias ;;
    f <~ Np.getitem_mask q_cm_future mask_positive_bias ;;
    product <~ broadcast fmul (map (fun v => fsub v a) o) (map (fun v => fsub v a) f) ;;
    h <~ Np.getitem_mask q_cm_hist mask_positive_bias ;;
    quotient <~ broadcast fdiv product (map (fun v => fsub v a) h) ;;
    return_vals <~ Np.setitem_mask return_vals mask_positive_bias (map (fadd a) quotient) ;;
    o <~ Np.getitem_mask q_obs_hist mask_additive_correction ;;
    f <~ Np.getitem_mask q_cm_future mask_additive_correction ;;
    total <~ broadcast fadd o f ;;
    h <~ Np.getitem_mask q_cm_hist mask_additive_correction ;;
    total <~ broadcast fsub total h ;;
    return_vals <~ Np.setitem_mask return_vals mask_additive_correction total ;;
    OK (map (fun v => np_maximum a (np_minimum v b)) return_vals)
  else
    Raise (ValueError "Wrong value for self.trend_preservation_method.").

(** [np.where(annual_cycle_of_upper_bounds == 0, 1.0, 1 / annual_cycle_of_upper_bounds)] *)
Definition scaling_of (annual_cycle_of_upper_bounds : list float) : list float :=
  map (fun c => if feqb c (Fin 0%Qc) then Fin 1%Qc else fdiv (Fin 1%Qc) c)
      annual_cycle_of_upper_bounds.

(** The value of an annual cycle on each day of [days_of_year_vals]: by
    position when the cycle has 366 days, by a search for the day otherwise. *)
Definition cycle_on_days (cycle : list float)
    (days_of_year_annual_cycle_of_upper_bounds days_of_year_vals : list Z) :
    result (list float) :=
  if (length days_of_year_annual_cycle_of_upper_bounds =? 366)%nat
  then take cycle (map (fun d => d - 1)%Z days_of_year_vals)
  else comprehension
         (value_of_day cycle days_of_year_annual_cycle_of_upper_bounds)
         days_of_year_vals.

Definition _step1_scale_by_annual_cycle_of_upper_bounds
    (vals : list float) (days_of_year_vals : list Z)
    (annual_cycle_of_upper_bounds : list float)
    (days_of_year_annual_cycle_of_upper_bounds : list Z) : result (list float) :=
  let scaling := scaling_of annual_cycle_of_upper_bounds in
  scaling <~ cycle_on_days scaling days_of_year_annual_cycle_of_upper_bounds
               days_of_year_vals ;;
  broadcast fmul vals scaling.

Definition _step8_rescale_by_annual_cycle_of_upper_bounds
    (vals : list float) (days_of_year_vals : list Z)
    (annual_cycle_of_upper_bounds : list float)
    (days_of_year_annual_cycle_of_upper_bounds : list Z) : result (list float) :=
  scaling <~ cycle_on_days annual_cycle_of_upper_bounds
               days_of_year_annual_cycle_of_upper_bounds days_of_year_vals ;;
  broadcast fmul vals scaling.

(** [np.array_equal] on arrays of days *)
Definition array_equal (a b : list Z) : bool :=
  (length a =? length b)%nat && forallb (fun p => (fst p =? snd p)%Z) (combine a b).

Definition _step1_calculate_debiased_annual_cycle_of_upper_bounds
    (annual_cycle_obs_hist : list float) (unique_days_of_year_obs_hist : list Z)
    (annual_cycle_cm_hist : list float) (unique_days_of_year_cm_hist : list Z)
    (annual_cycle_cm_future : list float) (unique_days_of_year_cm_future : list Z) :
    result (list float) :=
  if array_equal unique_days_of_year_cm_hist unique_days_of_year_cm_future
     && array_equal unique_days_of_year_obs_hist unique_days_of_year_cm_future
  then
    let hist_is_not_zero := map (fun h => negb (feqb h (Fin 0%Qc))) annual_cycle_cm_hist in
    ratio <~ broadcast fdiv annual_cycle_cm_future annual_cycle_cm_hist ;;
    factor <~ broadcast (fun (c : bool) r => if c then r else Fin 1%Qc)
                hist_is_not_zero ratio ;;
    let factor :=
      map (fun v => np_maximum (Fin (qc 1 10)) (np_minimum (Fin (zc 10)) v)) factor in
    broadcast fmul annual_cycle_obs_hist factor
  else
    fold_left
      (fun acc '(index, day_of_year) =>
         debiased_annual_cycle <~ acc ;;
         val_cm_future <~ getitem_int annual_cycle_cm_future (Z.of_nat index) ;;
         val_cm_hist <~ Np.getitem_mask annual_cycle_cm_hist
                          (map (fun d => (d =? day_of_year)%Z)
                               unique_days_of_year_cm_hist) ;;
         val_obs_hist <~ Np.getitem_mask annual_cycle_obs_hist
                           (map (fun d => (d =? day_of_year)%Z)
                                unique_days_of_year_obs_hist) ;;
         match val_cm_hist, val_obs_hist with
         | val_cm_hist :: _, val_obs_hist :: _ =>
             OK (Np.set_nth index
                   (if negb (feqb val_cm_hist (Fin 0%Qc))
                    then fdiv (fmul val_obs_hist val_cm_future) val_cm_hist
                    else val_obs_hist)
                   debiased_annual_cycle)
         | _, _ => OK debiased_annual_cycle
         end)
      (combine (seq 0 (length unique_days_of_year_cm_future))
               unique_days_of_year_cm_future)
      (OK annual_cycle_cm_future).

End Methods.

End Kernel.

(** ** ISIMIP: the trend transfer of step 5 *)

Lemma zip_with_length (A B C : Type) (f : A -> B -> C) (a : list A) (b : list B) :
  length (Kernel.zip_with f a b) = Nat.min (length a) (length b).
Proof.
  revert b; induction a as [|u a IH]; intros [|v b]; cbn [Kernel.zip_with length Nat.min];
    auto.
Qed.

Lemma broadcast_same (A B C : Type) (f : A -> B -> C) (a : list A) (b : list B) :
  length a = length b -> Kernel.broadcast f a b = OK (Kernel.zip_with f a b).
Proof. intros H. unfold Kernel.broadcast. now rewrite H, Nat.eqb_refl. Qed.

Lemma clamp_within_range (a b v : float) :
  fleb a b = true ->
  within_range a b (Kernel.np_maximum a (Kernel.np_minimum v b)).
Proof.
  intros H. unfold within_range, Kernel.np_maximum, Kernel.np_minimum.
  destruct v as [x| | |], a as [l| | |], b as [u| | |];
    cbn [isnan orb fleb] in *; try discriminate; auto;
    repeat match goal with
           | |- context [if Qcleb ?p ?q then _ else _] =>
               let E := fresh "E" in
               destruct (Qcleb p q) eqn:E; cbn [isnan orb fleb]
           end;
    rewrite ?Qcleb_refl; auto; congruence.
Qed.

(** Sizes of the arrays built by the array operations. *)
Ltac sizes :=
  repeat first
    [ rewrite length_map
    | rewrite Kernel.np_empty_like_length
    | rewrite zip_with_length
    | rewrite repeat_length
    | rewrite (@put_length _)
    | rewrite (@select_length _) by sizes
    | progress unfold Np.empty_like, Np.zeros_like ];
  try lia.

(** One array operation whose operands have matching sizes. *)
Ltac array_step :=
  match goal with
  | |- context [Kernel.broadcast ?f ?a ?b] =>
      rewrite (broadcast_same _ _ _ f a b) by sizes
  | |- context [Np.getitem_mask ?x ?m] =>
      rewrite (@getitem_mask_ok _ x m) by sizes
  | |- context [Np.setitem_mask ?x ?m ?v] =>
      rewrite (@setitem_mask_ok _ x m v) by sizes
  | |- context [Np.fill_mask ?x ?m ?v] =>
      rewrite (@fill_mask_ok _ x m v) by sizes
  end; cbn [rbind].

(** X26.  With [trend_preservation_method = "bounded"] and a lower bound that
    is not above the upper bound, [_step5_transfer_trend] raises no error once
    [ecdf] and [iecdf] have returned, and it returns one value per observation,
    each of them a NaN or a value between the two bounds. *)
Theorem bounded_trend_transfer_stays_within_bounds {Q : Kernel.Quantiles}
    (self : ISIMIP.t) (obs_hist cm_hist cm_future p q_cm_future q_cm_hist : list float) :
  ISIMIP.trend_preservation_method self = "bounded" ->
  fleb (ISIMIP.lower_bound self) (ISIMIP.upper_bound self) = true ->
  Kernel.ecdf obs_hist obs_hist (ISIMIP.ecdf_method self) = OK p ->
  Kernel.iecdf cm_future p (ISIMIP.iecdf_method self) = OK q_cm_future ->
  Kernel.iecdf cm_hist p (ISIMIP.iecdf_method self) = OK q_cm_hist ->
  exists out,
    Kernel._step5_transfer_trend self obs_hist cm_hist cm_future = OK out
    /\ length out = length obs_hist
    /\ Forall (within_range (ISIMIP.lower_bound self) (ISIMIP.upper_bound self)) out.
Proof.
  intros Hm Hab Hp Hf Hh.
  pose proof (Kernel.ecdf_length _ _ _ _ Hp) as Lp.
  pose proof (Kernel.iecdf_length _ _ _ _ Hf) as Lf.
  pose proof (Kernel.iecdf_length _ _ _ _ Hh) as Lh.
  unfold Kernel._step5_transfer_trend. rewrite Hp. cbn [rbind].
  rewrite Hf. cbn [rbind]. rewrite Hh. cbn [rbind]. rewrite Hm.
  change ("bounded" =? "additive") with false.
  change ("bounded" =? "multiplicative") with false.
  change ("bounded" =? "mixed") with false.
  change ("bounded" =? "bounded") with true. cbv iota.
  repeat array_step.
  eexists. split; [reflexivity|]. split.
  - sizes.
  - apply Forall_forall. intros v Hv. apply in_map_iff in Hv.
    destruct Hv as (u & <- & _). now apply clamp_within_range.
Qed.

(** An instance of [Kernel.Quantiles] to run the kernels on: [ecdf] and
    [iecdf] of the sample [Utils] on the finite values, the first terms of the
    cosine series, and 355/113 for pi. *)
Lemma sample_quantiles_ecdf_length (x y : list float) (m : string) (r : list float) :
  (v <~ @ecdf sample_utils (map ISIMIP.to_Qc x) (map ISIMIP.to_Qc y) m ;; OK (map Fin v)) = OK r ->
  length r = length y.
Proof.
  intros H. apply rbind_OK_inv in H. destruct H as (v & Hv & H). injection H as <-.
  rewrite length_map, (ecdf_OK_length (U := sample_utils) _ _ _ _ Hv).
  apply length_map.
Qed.

Lemma sample_quantiles_iecdf_length (x p : list float) (m : string) (r : list float) :
  (v <~ @iecdf sample_utils (map ISIMIP.to_Qc x) (map ISIMIP.to_Qc p) m ;; OK (map Fin v)) = OK r ->
  length r = length p.
Proof.
  intros H. apply rbind_OK_inv in H. destruct H as (v & Hv & H). injection H as <-.
  rewrite length_map, (iecdf_OK_length (U := sample_utils) _ _ _ _ Hv).
  apply length_map.
Qed.

Definition sample_quantiles : Kernel.Quantiles :=
  {| Kernel.ecdf := fun x y m =>
       v <~ @ecdf sample_utils (map ISIMIP.to_Qc x) (map ISIMIP.to_Qc y) m ;; OK (map Fin v);
     Kernel.iecdf := fun x p m =>
       v <~ @iecdf sample_utils (map ISIMIP.to_Qc x) (map ISIMIP.to_Qc p) m ;; OK (map Fin v);
     Kernel.np_cos := fun x => fsub (Fin 1%Qc) (fdiv (fmul x x) (Fin (zc 2)));
     Kernel.np_pi := Fin (qc 355 113);
     Kernel.np_empty_like := Np.empty_like (Fin 0%Qc);
     Kernel.np_empty_like_length := fun x => repeat_length (Fin 0%Qc) (length x);
     Kernel.ecdf_length := sample_quantiles_ecdf_length;
     Kernel.iecdf_length := sample_quantiles_iecdf_length |}.

(** The settings of the relative humidity [hurs]. *)
Definition hurs_config : ISIMIP.t :=
  ISIMIP.mk "bounded" false None "hurs"
    (Fin 0%Qc) (Fin (qc 1 100)) (Fin (zc 100)) (Fin (qc 9999 100))
    false 31 false true false false false true true
    "linear_interpolation" "linear" "isimipv3.0" true 31 1.

Lemma bounded_trend_transfer_stays_within_bounds_witness :
  exists out,
    Kernel._step5_transfer_trend (Q := sample_quantiles) hurs_config
      [Fin (zc 40); Fin (zc 90); Fin (zc 65)]
      [Fin (zc 30); Fin (zc 95); Fin (zc 70)]
      [Fin (zc 20); Fin (zc 99); Fin (zc 80)] = OK out
    /\ length out = 3%nat
    /\ Forall (within_range (Fin 0%Qc) (Fin (zc 100))) out.
Proof.
  apply (bounded_trend_transfer_stays_within_bounds (Q := sample_quantiles) hurs_config
            [Fin (zc 40); Fin (zc 90); Fin (zc 65)]
            [Fin (zc 30); Fin (zc 95); Fin (zc 70)]
            [Fin (zc 20); Fin (zc 99); Fin (zc 80)]
            [Fin 0%Qc; Fin 1%Qc; Fin (qc 1 2)]
            [Fin (zc 20); Fin (zc 99); Fin (zc 80)]
            [Fin (zc 30); Fin (zc 95); Fin (zc 70)]).
  all: vm_compute; reflexivity.
Defined.

Lemma fsub_self (a : Qc) : fsub (Fin a) (Fin a) = Fin 0%Qc.
Proof. cbn. now rewrite Qcplus_opp_r. Qed.

Lemma fadd_zero (v : float) : fadd v (Fin 0%Qc) = v.
Proof. destruct v as [x| | |]; cbn; auto. now rewrite Qcplus_0_r. Qed.

Lemma fmul_one (v : float) : fmul v (Fin 1%Qc) = v.
Proof. destruct v as [x| | |]; cbn; auto. now rewrite Qcmult_1_r. Qed.

Lemma ratio_to_itself (a : Qc) :
  (if feqb (Fin a) (Fin 0%Qc) then Fin 1%Qc else fdiv (Fin a) (Fin a)) = Fin 1%Qc.
Proof.
  cbn [feqb fdiv]. unfold Qceqb. destruct (Qeq_bool a 0%Qc) eqn:E; [reflexivity|].
  assert (Ha : a <> 0%Qc).
  { intros ->. discriminate E. }
  unfold fsign. destruct (a ?= 0)%Qc eqn:C.
  - apply Qceq_alt in C. contradiction.
  - f_equal. now apply Qcmult_inv_r.
  - f_equal. now apply Qcmult_inv_r.
Qed.

Lemma no_additive_change (obs q : list float) :
  length q = length obs -> forallb is_valid q = true ->
  Kernel.zip_with fadd obs (Kernel.zip_with fsub q q) = obs.
Proof.
  revert q; induction obs as [|v obs IH]; intros [|h q] L Hq;
    cbn [Kernel.zip_with length forallb] in *; try discriminate; auto.
  apply andb_prop in Hq. destruct Hq as [Hh Hq]. injection L as L.
  destruct h as [a| | |]; try discriminate Hh.
  rewrite fsub_self, fadd_zero, IH; auto.
Qed.

Lemma no_relative_change (obs q : list float) :
  length q = length obs -> forallb is_valid q = true ->
  Kernel.zip_with fmul obs
    (map (fun d => Kernel.np_maximum (Fin (qc 1 100)) (Kernel.np_minimum (Fin (zc 100)) d))
         (Kernel.zip_with (fun (c : bool) r => if c then Fin 1%Qc else r)
            (map (fun h => feqb h (Fin 0%Qc)) q)
            (Kernel.zip_with fdiv q q))) = obs.
Proof.
  revert q; induction obs as [|v obs IH]; intros [|h q] L Hq;
    cbn [Kernel.zip_with length forallb map] in *; try discriminate; auto.
  apply andb_prop in Hq. destruct Hq as [Hh Hq]. injection L as L.
  destruct h as [a| | |]; try discriminate Hh.
  rewrite ratio_to_itself, IH by auto. f_equal.
  change (Kernel.np_maximum (Fin (qc 1 100)) (Kernel.np_minimum (Fin (zc 100)) (Fin 1%Qc)))
    with (Fin 1%Qc).
  apply fmul_one.
Qed.

(** X27.  When the model shows no change, that is with the same series as
    [cm_hist] and as [cm_future], and its quantiles are finite,
    [_step5_transfer_trend] returns the observations as they are, both with the
    additive and with the multiplicative trend preservation. *)
Theorem trend_transfer_without_a_change {Q : Kernel.Quantiles}
    (self : ISIMIP.t) (obs_hist cm p q : list float) :
  ISIMIP.trend_preservation_method self = "additive"
  \/ ISIMIP.trend_preservation_method self = "multiplicative" ->
  Kernel.ecdf obs_hist obs_hist (ISIMIP.ecdf_method self) = OK p ->
  Kernel.iecdf cm p (ISIMIP.iecdf_method self) = OK q ->
  forallb is_valid q = true ->
  Kernel._step5_transfer_trend self obs_hist cm cm = OK obs_hist.
Proof.
  intros Hm Hp Hq Hv.
  pose proof (Kernel.ecdf_length _ _ _ _ Hp) as Lp.
  pose proof (Kernel.iecdf_length _ _ _ _ Hq) as Lq.
  unfold Kernel._step5_transfer_trend. rewrite Hp. cbn [rbind].
  rewrite Hq. cbn [rbind].
  destruct Hm as [Hm|Hm]; rewrite Hm.
  - change ("additive" =? "additive") with true. cbv iota.
    repeat array_step. f_equal. apply no_additive_change; [lia | exact Hv].
  - change ("multiplicative" =? "additive") with false.
    change ("multiplicative" =? "multiplicative") with true. cbv iota.
    unfold Kernel.delta_mult.
    repeat array_step. f_equal. apply no_relative_change; [lia | exact Hv].
Qed.

(** The settings of a variable with a multiplicative trend. *)
Definition multiplicative_config : ISIMIP.t :=
  ISIMIP.mk "multiplicative" false None "pr"
    (Fin 0%Qc) (Fin (qc 1 864000)) PInf PInf
    false 31 false true true true false true false
    "linear_interpolation" "linear" "isimipv3.0" true 31 1.

Definition unchanged_obs : list float := [Fin (zc 4); PInf; Fin (zc 6)].
Definition unchanged_cm : list float := [Fin (zc 3); Fin 0%Qc; Fin (zc 7)].
Definition unchanged_p : list float :=
  map Fin (@ecdf_values sample_utils "linear_interpolation"
             (map ISIMIP.to_Qc unchanged_obs) (map ISIMIP.to_Qc unchanged_obs)).
Definition unchanged_q : list float :=
  map Fin (@iecdf_values sample_utils "linear"
             (map ISIMIP.to_Qc unchanged_cm) (map ISIMIP.to_Qc unchanged_p)).

Lemma trend_transfer_without_a_change_witness :
  Kernel._step5_transfer_trend (Q := sample_quantiles) multiplicative_config
    unchanged_obs unchanged_cm unchanged_cm
  = OK unchanged_obs.
Proof.
  apply (trend_transfer_without_a_change (Q := sample_quantiles) multiplicative_config
           unchanged_obs unchanged_cm unchanged_p unchanged_q);
    [right; reflexivity | vm_compute; reflexivity ..].
Defined.

(** ** ISIMIP: scaling by the annual cycle of upper bounds, steps 1 and 8 *)

Lemma getitem_int_map (A B : Type) (g : A -> B) (x : list A) (i : Z) :
  Kernel.getitem_int (map g x) i = (a <~ Kernel.getitem_int x i ;; OK (g a)).
Proof.
  unfold Kernel.getitem_int. rewrite length_map.
  destruct (_ || _); [reflexivity|].
  rewrite nth_error_map. now destruct (nth_error x _).
Qed.

Lemma select_map (A B : Type) (g : A -> B) (x : list A) (mask : list bool) :
  Np.select (map g x) mask = map g (Np.select x mask).
Proof.
  revert mask; induction x as [|a x IH]; intros [|b mask]; cbn [map Np.select]; auto.
  destruct b; cbn [map]; now rewrite IH.
Qed.

Lemma value_of_day_map (g : float -> float) (x : list float) (days : list Z) (day : Z) :
  Kernel.value_of_day (map g x) days day
  = (v <~ Kernel.value_of_day x days day ;; OK (g v)).
Proof.
  unfold Kernel.value_of_day, Np.getitem_mask. rewrite !length_map.
  destruct (_ =? _)%nat; [|reflexivity]. cbn [rbind].
  rewrite select_map. apply getitem_int_map.
Qed.

Lemma comprehension_map (A B : Type) (g : B -> B) (f f' : A -> result B) (l : list A) :
  (forall a, f' a = (b <~ f a ;; OK (g b))) ->
  Kernel.comprehension f' l = (r <~ Kernel.comprehension f l ;; OK (map g r)).
Proof.
  intros Hf. induction l as [|a l IH]; cbn [Kernel.comprehension]; [reflexivity|].
  rewrite Hf, IH. destruct (f a) as [b|e]; cbn [rbind]; [|reflexivity].
  now destruct (Kernel.comprehension f l).
Qed.

Lemma comprehension_length (A B : Type) (f : A -> result B) (l : list A) (r : list B) :
  Kernel.comprehension f l = OK r -> length r = length l.
Proof.
  revert r; induction l as [|a l IH]; intros r H; cbn [Kernel.comprehension] in H.
  - now injection H as <-.
  - apply rbind_OK_inv in H. destruct H as (b & _ & H).
    apply rbind_OK_inv in H. destruct H as (r' & Hr & H). injection H as <-.
    cbn [length]. f_equal. now apply IH.
Qed.

Lemma cycle_on_days_map (g : float -> float) (cycle : list float) (days_cycle days : list Z) :
  Kernel.cycle_on_days (map g cycle) days_cycle days
  = (c <~ Kernel.cycle_on_days cycle days_cycle days ;; OK (map g c)).
Proof.
  unfold Kernel.cycle_on_days, Kernel.take. destruct (_ =? 366)%nat.
  - apply comprehension_map. intros a. apply getitem_int_map.
  - apply comprehension_map. intros a. apply value_of_day_map.
Qed.

Lemma cycle_on_days_length (cycle : list float) (days_cycle days : list Z) (c : list float) :
  Kernel.cycle_on_days cycle days_cycle days = OK c -> length c = length days.
Proof.
  unfold Kernel.cycle_on_days, Kernel.take. destruct (_ =? 366)%nat; intros H;
    apply comprehension_length in H; now rewrite H, ?length_map.
Qed.

Lemma fsign_inv (u : Qc) : fsign (1 / u)%Qc = fsign u.
Proof.
  unfold fsign.
  destruct (u ?= 0)%Qc eqn:C.
  - apply Qceq_alt in C. subst u. reflexivity.
  - assert (E : ((1 / u) * u = 1)%Qc).
    { unfold Qcdiv. rewrite Qcmult_1_l. rewrite Qcmult_comm. apply Qcmult_inv_r.
      intros ->. discriminate C. }
    apply Qclt_alt in C. apply Qclt_alt.
    destruct (Qclt_le_dec (1 / u) 0) as [L|L]; [exact L|]. exfalso.
    revert E L. generalize (1 / u)%Qc as i. intros i E L.
    assert (E' : (this i * this u == 1)%Q) by (rewrite <- this_mult, E; reflexivity).
    clear E. to_Q. nra.
  - assert (E : ((1 / u) * u = 1)%Qc).
    { unfold Qcdiv. rewrite Qcmult_1_l. rewrite Qcmult_comm. apply Qcmult_inv_r.
      intros ->. discriminate C. }
    apply Qcgt_alt in C. apply Qcgt_alt.
    destruct (Qclt_le_dec 0 (1 / u)) as [L|L]; [exact L|]. exfalso.
    revert E L. generalize (1 / u)%Qc as i. intros i E L.
    assert (E' : (this i * this u == 1)%Q) by (rewrite <- this_mult, E; reflexivity).
    clear E. to_Q. nra.
Qed.

Lemma scale_and_rescale (v : float) (u : Qc) :
  fmul (fmul v (if feqb (Fin u) (Fin 0%Qc) then Fin 1%Qc else fdiv (Fin 1%Qc) (Fin u)))
       (Fin u)
  = if feqb (Fin u) (Fin 0%Qc) then fmul v (Fin 0%Qc) else v.
Proof.
  cbn [feqb]. unfold Qceqb. destruct (Qeq_bool u 0%Qc) eqn:E.
  - apply Qeq_bool_eq, Qc_is_canon in E. subst u. now rewrite fmul_one.
  - assert (Hu : u <> 0%Qc) by (intros ->; discriminate E).
    assert (S : fsign u <> Eq).
    { unfold fsign. intros C. apply Qceq_alt in C. contradiction. }
    assert (D : fdiv (Fin 1%Qc) (Fin u) = Fin (1 / u)%Qc).
    { cbn [fdiv]. destruct (fsign u); [contradiction| |]; reflexivity. }
    rewrite D. destruct v as [x| | |]; cbn [fmul]; rewrite ?fsign_inv.
    + f_equal. unfold Qcdiv. rewrite Qcmult_1_l, <- Qcmult_assoc.
      rewrite (Qcmult_comm (/ u)), Qcmult_inv_r by exact Hu. apply Qcmult_1_r.
    + destruct (fsign u) eqn:F; [contradiction| |]; cbn [fmul]; now rewrite F.
    + destruct (fsign u) eqn:F; [contradiction| |]; cbn [fmul]; now rewrite F.
    + reflexivity.
Qed.

Lemma scale_and_rescale_all (vals c : list float) :
  forallb is_valid c = true ->
  Kernel.zip_with fmul (Kernel.zip_with fmul vals (Kernel.scaling_of c)) c
  = Kernel.zip_with (fun v u => if feqb u (Fin 0%Qc) then fmul v (Fin 0%Qc) else v) vals c.
Proof.
  revert c; induction vals as [|v vals IH]; intros [|u c] Hc;
    cbn [Kernel.zip_with Kernel.scaling_of map forallb] in *; auto.
  apply andb_prop in Hc. destruct Hc as [Hu Hc].
  destruct u as [u| | |]; try discriminate Hu.
  rewrite scale_and_rescale. f_equal. now apply IH.
Qed.



(** ** ISIMIP step 1: the debiased annual cycle of upper bounds *)

Lemma clamp_finite (lo hi x : Qc) :
  Qcleb lo hi = true ->
  exists k, Kernel.np_maximum (Fin lo) (Kernel.np_minimum (Fin hi) (Fin x)) = Fin k
            /\ (lo <= k)%Qc /\ (k <= hi)%Qc.
Proof.
  intros H. unfold Kernel.np_maximum, Kernel.np_minimum. cbn [isnan orb fleb].
  destruct (Qcleb hi x) eqn:E1; cbn [isnan orb fleb].
  - rewrite H. exists hi. split; [reflexivity|]. split; [now apply Qcleb_le | apply Qcle_refl].
  - destruct (Qcleb lo x) eqn:E2.
    + exists x. split; [reflexivity|]. split; [now apply Qcleb_le|].
      apply Qcleb_gt in E1. now apply Qclt_le_weak.
    + exists lo. split; [reflexivity|]. split; [apply Qcle_refl | now apply Qcleb_le].
Qed.

Lemma limited_factors (hist fut : list float) :
  length hist = length fut ->
  forallb is_valid hist = true -> forallb is_valid fut = true ->
  exists factor,
    map (fun v => Kernel.np_maximum (Fin (qc 1 10)) (Kernel.np_minimum (Fin (zc 10)) v))
        (Kernel.zip_with (fun (c : bool) r => if c then r else Fin 1%Qc)
           (map (fun h => negb (feqb h (Fin 0%Qc))) hist)
           (Kernel.zip_with fdiv fut hist))
    = map Fin factor
    /\ length factor = length fut
    /\ Forall (fun k => (qc 1 10 <= k)%Qc /\ (k <= zc 10)%Qc) factor.
Proof.
  revert fut; induction hist as [|h hist IH]; intros [|f fut] L Hh Hf;
    cbn [length forallb map Kernel.zip_with] in *; try discriminate.
  - exists []. repeat split; constructor.
  - apply andb_prop in Hh. destruct Hh as [Hh Hhist].
    apply andb_prop in Hf. destruct Hf as [Hf Hfut]. injection L as L.
    destruct (IH fut L Hhist Hfut) as (factor & E & Lf & B).
    destruct h as [h| | |]; try discriminate Hh.
    destruct f as [f| | |]; try discriminate Hf.
    assert (R : exists r, (if negb (feqb (Fin h) (Fin 0%Qc)) then fdiv (Fin f) (Fin h)
                           else Fin 1%Qc) = Fin r).
    { destruct (feqb (Fin h) (Fin 0%Qc)) eqn:Z; cbn [negb]; [now exists 1%Qc|].
      cbn [fdiv]. destruct (fsign h) eqn:S; [|now eexists ..].
      unfold fsign in S. apply Qceq_alt in S. subst h. discriminate Z. }
    destruct R as (r & ->).
    destruct (clamp_finite (qc 1 10) (zc 10) r eq_refl) as (k & -> & Hk).
    exists (k :: factor). cbn [map length]. rewrite E, Lf. repeat split; auto.
Qed.

(** X29.  When the three annual cycles are given on the same days and the
    cycles of the model are finite, the debiased annual cycle of upper bounds
    is the observed cycle times a factor per day, and every factor lies
    between 0.1 and 10. *)
Theorem debiased_annual_cycle_factor_is_limited
    (annual_cycle_obs_hist : list float) (unique_days_of_year_obs_hist : list Z)
    (annual_cycle_cm_hist : list float) (unique_days_of_year_cm_hist : list Z)
    (annual_cycle_cm_future : list float) (unique_days_of_year_cm_future : list Z) :
  Kernel.array_equal unique_days_of_year_cm_hist unique_days_of_year_cm_future = true ->
  Kernel.array_equal unique_days_of_year_obs_hist unique_days_of_year_cm_future = true ->
  length annual_cycle_cm_hist = length annual_cycle_cm_future ->
  length annual_cycle_obs_hist = length annual_cycle_cm_future ->
  forallb is_valid annual_cycle_cm_hist = true ->
  forallb is_valid annual_cycle_cm_future = true ->
  exists factor,
    Kernel._step1_calculate_debiased_annual_cycle_of_upper_bounds
      annual_cycle_obs_hist unique_days_of_year_obs_hist
      annual_cycle_cm_hist unique_days_of_year_cm_hist
      annual_cycle_cm_future unique_days_of_year_cm_future
    = OK (Kernel.zip_with fmul annual_cycle_obs_hist (map Fin factor))
    /\ length factor = length annual_cycle_obs_hist
    /\ Forall (fun k => (qc 1 10 <= k)%Qc /\ (k <= zc 10)%Qc) factor.
Proof.
  intros D1 D2 L1 L2 Hh Hf.
  destruct (limited_factors _ _ L1 Hh Hf) as (factor & E & Lf & B).
  exists factor. split; [|split; [lia | exact B]].
  unfold Kernel._step1_calculate_debiased_annual_cycle_of_upper_bounds.
  rewrite D1, D2. cbn [andb].
  repeat array_step. now rewrite E.
Qed.

Lemma debiased_annual_cycle_factor_is_limited_witness :
  exists factor,
    Kernel._step1_calculate_debiased_annual_cycle_of_upper_bounds
      [Fin (zc 300); Fin (zc 320); Fin (zc 310)] [1; 2; 3]%Z
      [Fin (zc 200); Fin 0%Qc; Fin (zc 10)] [1; 2; 3]%Z
      [Fin (zc 250); Fin (zc 5); Fin (zc 500)] [1; 2; 3]%Z
    = OK (Kernel.zip_with fmul [Fin (zc 300); Fin (zc 320); Fin (zc 310)] (map Fin factor))
    /\ length factor = 3%nat
    /\ Forall (fun k => (qc 1 10 <= k)%Qc /\ (k <= zc 10)%Qc) factor.
Proof.
  apply (debiased_annual_cycle_factor_is_limited
           [Fin (zc 300); Fin (zc 320); Fin (zc 310)] [1; 2; 3]%Z
           [Fin (zc 200); Fin 0%Qc; Fin (zc 10)] [1; 2; 3]%Z
           [Fin (zc 250); Fin (zc 5); Fin (zc 500)] [1; 2; 3]%Z);
    reflexivity.
Defined.

(** ** ISIMIP step 6: scaling the numbers of entries to set to the bounds *)

Lemma scaled_count_bounds (a d : Z) (n : nat) :
  (0 <= a <= d)%Z -> (0 < d)%Z ->
  (0 <= round_half_even (zc (a * Z.of_nat n) / zc d)%Qc <= Z.of_nat n)%Z.
Proof.
  intros Ha Hd. apply round_half_even_bounds.
  - to_Q. rewrite inject_Z_mult. apply Qle_shift_div_l.
    + change 0%Q with (inject_Z 0). rewrite <- Zlt_Qlt. exact Hd.
    + rewrite <- !inject_Z_mult, <- Zle_Qle. nia.
  - to_Q. apply Qle_shift_div_r.
    + change 0%Q with (inject_Z 0). rewrite <- Zlt_Qlt. exact Hd.
    + rewrite <- !inject_Z_mult, <- Zle_Qle. nia.
Qed.

(** X30.  Called as step 6 calls it, with two numbers of entries that each fit
    in the array but together exceed its size,
    [_step6_scale_nr_of_entries_to_set_to_bounds] divides by no zero and
    returns two numbers between zero and the size. *)
Theorem scaled_numbers_of_entries_fit_the_size
    (nr_of_entries_to_set_to_lower_bound nr_of_entries_to_set_to_upper_bound : Z)
    (size_cm_future : nat) :
  (0 <= nr_of_entries_to_set_to_lower_bound <= Z.of_nat size_cm_future)%Z ->
  (0 <= nr_of_entries_to_set_to_upper_bound <= Z.of_nat size_cm_future)%Z ->
  (Z.of_nat size_cm_future
   < nr_of_entries_to_set_to_lower_bound + nr_of_entries_to_set_to_upper_bound)%Z ->
  exists lower upper,
    ISIMIP._step6_scale_nr_of_entries_to_set_to_bounds
      nr_of_entries_to_set_to_lower_bound nr_of_entries_to_set_to_upper_bound
      size_cm_future = OK (lower, upper)
    /\ (0 <= lower <= Z.of_nat size_cm_future)%Z
    /\ (0 <= upper <= Z.of_nat size_cm_future)%Z.
Proof.
  intros Hl Hu Hsum.
  unfold ISIMIP._step6_scale_nr_of_entries_to_set_to_bounds, ISIMIP.py_truediv.
  destruct (Z.eqb_spec (nr_of_entries_to_set_to_lower_bound
                        + nr_of_entries_to_set_to_upper_bound) 0) as [E|_]; [lia|].
  cbn [rbind].
  pose proof (scaled_count_bounds nr_of_entries_to_set_to_lower_bound
                (nr_of_entries_to_set_to_lower_bound + nr_of_entries_to_set_to_upper_bound)
                size_cm_future ltac:(lia) ltac:(lia)) as Bl.
  set (lower := round_half_even _) in *.
  destruct (Z.eqb_spec (lower + nr_of_entries_to_set_to_upper_bound) 0) as [E|_]; [lia|].
  cbn [rbind]. do 2 eexists. split; [reflexivity|]. split; [exact Bl|].
  apply scaled_count_bounds; lia.
Qed.

Lemma scaled_numbers_of_entries_fit_the_size_witness :
  exists lower upper,
    ISIMIP._step6_scale_nr_of_entries_to_set_to_bounds 8 4 10 = OK (lower, upper)
    /\ (0 <= lower <= Z.of_nat 10)%Z /\ (0 <= upper <= Z.of_nat 10)%Z.
Proof.
  apply (scaled_numbers_of_entries_fit_the_size 8 4 10); simpl; lia.
Defined.
